(** * LabSound: node lifecycle, per-quantum scheduling and main-thread dispatch

    A shallow embedding of three translation units of LabSound,

    - [WTF/wtf/MainThread.cpp]         (module [MainThread]),
    - [core/ChannelMergerNode.cpp]     (module [ChannelMergerNode]),
    - [Modules/webaudio/AudioNode.cpp] (module [AudioNode]),

    together with the properties of them that the specification states.

    Conventions.  A C++ [double] is a primitive binary64 float, compared
    with the IEEE comparisons the compiled code uses; an [int] is a [Z] that
    wraps around where the code does arithmetic on it.  The pointers of the
    dispatch queue are addresses in [N], with [0] the null pointer; the
    nodes of a graph live in an arena and are addressed by their index, a
    port by its node and its slot.  A function that can stop on a failed
    [ASSERT], dereference a null handle, or recurse without end, returns a
    [result]. *)

From Stdlib Require Import ZArith NArith List Bool Lia PrimFloat SpecFloat FloatOps.
From Stdlib Require Import FloatAxioms.
From stdpp Require Import base option list gmap.

(** ** Outcomes of running a piece of the program *)

Module Outcome.

Inductive result (A : Type) : Type :=
| Ok (a : A)
| AssertionFailure   (* an ASSERT fired in a build that keeps assertions *)
| NullDereference    (* a null handle was dereferenced *)
| OutOfBounds        (* an index past the end of a container was used *)
| OutOfFuel.         (* the recursion budget of the model ran out *)

Arguments Ok {A} a.
Arguments AssertionFailure {A}.
Arguments NullDereference {A}.
Arguments OutOfBounds {A}.
Arguments OutOfFuel {A}.

Definition bind {A B : Type} (m : result A) (k : A -> result B) : result B :=
  match m with
  | Ok a => k a
  | AssertionFailure => AssertionFailure
  | NullDereference => NullDereference
  | OutOfBounds => OutOfBounds
  | OutOfFuel => OutOfFuel
  end.

(** [ASSERT] is a macro of [WTF/Assertions.h], which is not part of the
    sources at hand: it stops the program in a build that keeps assertions
    and expands to nothing otherwise.  The build is a parameter. *)
Definition ASSERT (assertionsEnabled : bool) (condition : bool) : result unit :=
  if assertionsEnabled && negb condition then AssertionFailure else Ok tt.

(** Running the same step over a list of items, left to right, stopping at
    the first failure: the shape of every [for] loop over ports. *)
Fixpoint forEach {S I : Type} (step : S -> I -> result S) (items : list I) (s : S)
  : result S :=
  match items with
  | [] => Ok s
  | i :: rest => bind (step s i) (forEach step rest)
  end.

Lemma forEach_app {S I : Type} (step : S -> I -> result S) (l1 l2 : list I) (s : S) :
  forEach step (l1 ++ l2) s = bind (forEach step l1 s) (forEach step l2).
Proof.
  revert s. induction l1 as [|i l1 IH]; intros s; simpl; [reflexivity|].
  destruct (step s i); simpl; auto.
Qed.

(** A property that every turn of a loop keeps is kept by the loop. *)
Lemma forEach_preserves {S I : Type} (P : S -> Prop) (step : S -> I -> result S)
    (items : list I) :
  (forall s i s', In i items -> P s -> step s i = Ok s' -> P s') ->
  forall s s', P s -> forEach step items s = Ok s' -> P s'.
Proof.
  induction items as [|i items IH]; intros Hstep s s' Hs Hrun; simpl in Hrun.
  - now injection Hrun as <-.
  - destruct (step s i) as [s1| | | |] eqn:H1; simpl in Hrun; try discriminate.
    apply (IH ltac:(intros; eapply Hstep; eauto; now right) s1 s'); [|exact Hrun].
    eapply Hstep; eauto. now left.
Qed.

(** A loop whose turns all finish while a property holds, and keep it,
    finishes. *)
Lemma forEach_finishes {S I : Type} (P : S -> Prop) (step : S -> I -> result S)
    (items : list I) :
  (forall s i, In i items -> P s ->
     step s i <> OutOfFuel /\ forall s', step s i = Ok s' -> P s') ->
  forall s, P s -> forEach step items s <> OutOfFuel.
Proof.
  induction items as [|i items IH]; intros Hstep s Hs; simpl; [discriminate|].
  destruct (Hstep s i ltac:(now left) Hs) as [Hfin Hkeep].
  destruct (step s i) as [s1| | | |] eqn:H1; simpl; try discriminate; [|congruence].
  apply IH; [|now apply Hkeep].
  intros s2 i2 Hi2. apply Hstep. now right.
Qed.

(** A run that goes well: it fails no assertion, dereferences no null
    handle and stays in bounds, and what it returns satisfies [Q].  Running
    out of fuel is the model's matter, not the program's. *)
Definition safely {A : Type} (Q : A -> Prop) (r : result A) : Prop :=
  match r with
  | Ok a => Q a
  | OutOfFuel => True
  | _ => False
  end.

Lemma safely_impl {A : Type} (P Q : A -> Prop) (r : result A) :
  safely P r -> (forall a, P a -> Q a) -> safely Q r.
Proof. destruct r; simpl; auto. Qed.

Lemma safely_bind {A B : Type} (P : A -> Prop) (Q : B -> Prop) (m : result A)
    (k : A -> result B) :
  safely P m -> (forall a, m = Ok a -> P a -> safely Q (k a)) -> safely Q (bind m k).
Proof. destruct m; simpl; auto. Qed.

Lemma safely_forEach {S I : Type} (Q : S -> Prop) (step : S -> I -> result S)
    (items : list I) :
  (forall s i, In i items -> Q s -> safely Q (step s i)) ->
  forall s, Q s -> safely Q (forEach step items s).
Proof.
  induction items as [|i items IH]; intros Hstep s Hs; simpl; [exact Hs|].
  apply safely_bind with Q; [apply Hstep; [now left | exact Hs]|].
  intros s1 _ Hs1. apply IH; [|exact Hs1]. intros s2 i2 Hi2. apply Hstep. now right.
Qed.

Lemma safely_Ok {A : Type} (Q : A -> Prop) (r : result A) :
  safely Q r -> r <> OutOfFuel -> exists a, r = Ok a /\ Q a.
Proof. destruct r; simpl; intros H Hfuel; try contradiction; eauto. Qed.

End Outcome.

Export Outcome.

Notation "'do' x <- m ; k" := (bind m (fun x => k))
  (at level 10, x name, m at level 100, k at level 200).
Notation "'check' m ; k" := (bind m (fun _ => k))
  (at level 10, m at level 100, k at level 200).
Notation "'do_option' x <- m ; k" := (match m with Some x => k | None => None end)
  (at level 10, x name, m at level 100, k at level 200).

(** ** WTF/wtf/MainThread.cpp *)

Module MainThread.

Definition pointer := N.

(** [struct FunctionWithContext]; the constructor's defaults are all null. *)
Record FunctionWithContext : Type := mkFunctionWithContext {
  function : pointer;   (* MainThreadFunction* *)
  context : pointer;    (* void* *)
  syncFlag : pointer    (* ThreadCondition*, null for a non-blocking call *)
}.

(** [FunctionWithContext::operator==] *)
Definition FunctionWithContext_eq (a o : FunctionWithContext) : bool :=
  (function a =? function o)%N
  && (context a =? context o)%N
  && (syncFlag a =? syncFlag o)%N.

(** [FunctionWithContextFinder::operator()], which is [o == m]. *)
Definition FunctionWithContextFinder (m o : FunctionWithContext) : bool :=
  FunctionWithContext_eq o m.

(** [typedef std::deque<FunctionWithContext> FunctionQueue], front first. *)
Definition FunctionQueue := list FunctionWithContext.

(** What the dispatcher does to the world outside the queue. *)
Inductive Event : Type :=
| Invoked (invocation : FunctionWithContext)  (* invocation.function(invocation.context) *)
| Signalled (flag : pointer)                  (* syncFlag->signal() *)
| ScheduleRequested.                          (* scheduleDispatchFunctionsOnMainThread() *)

(** The statics of the translation unit, the clock read by [currentTime()]
    and the trace of events so far. *)
Record MainThreadState : Type := mkMainThreadState {
  functionQueue : FunctionQueue;
  callbacksPaused : bool;
  wallClock : float;
  trace : list Event
}.

Definition setFunctionQueue (q : FunctionQueue) (s : MainThreadState) : MainThreadState :=
  {| functionQueue := q; callbacksPaused := callbacksPaused s;
     wallClock := wallClock s; trace := trace s |}.

Definition setCallbacksPaused (p : bool) (s : MainThreadState) : MainThreadState :=
  {| functionQueue := functionQueue s; callbacksPaused := p;
     wallClock := wallClock s; trace := trace s |}.

Definition emit (e : Event) (s : MainThreadState) : MainThreadState :=
  {| functionQueue := functionQueue s; callbacksPaused := callbacksPaused s;
     wallClock := wallClock s; trace := trace s ++ [e] |}.

Definition scheduleDispatchFunctionsOnMainThread : MainThreadState -> MainThreadState :=
  emit ScheduleRequested.

(** [static const double maxRunLoopSuspensionTime = 0.05;]  The literal is
    rounded to the nearest binary64 value, as the compiler does. *)
Definition maxRunLoopSuspensionTime : float := 0x1.999999999999ap-5%float.

(** The statics of [initializeMainThread] and [isMainThread] on the
    platforms other than the Mac, and how often
    [initializeMainThreadPlatform()] has run.  Statics start out zeroed. *)
Definition ThreadIdentifier := N.

Record ThreadingState : Type := mkThreadingState {
  initializedMainThread : bool;
  mainThreadIdentifier : ThreadIdentifier;
  platformInitializations : nat
}.

Definition beforeMain : ThreadingState :=
  {| initializedMainThread := false; mainThreadIdentifier := 0%N;
     platformInitializations := 0 |}.

(** [initializeMainThread()], called on the thread [currentThread]. *)
Definition initializeMainThread (currentThread : ThreadIdentifier) (t : ThreadingState)
  : ThreadingState :=
  if initializedMainThread t then t
  else {| initializedMainThread := true;
          mainThreadIdentifier := currentThread;
          platformInitializations := S (platformInitializations t) |}.

(** [isMainThread()], called on the thread [currentThread]. *)
Definition isMainThread (currentThread : ThreadIdentifier) (t : ThreadingState) : bool :=
  (currentThread =? mainThreadIdentifier t)%N.

Section Dispatch.

(** Whether the build keeps assertions. *)
Variable assertionsEnabled : bool.

(** The queued functions are code of the callers: [callFunction f c s] is the
    state in which the call [f(c)] returns when started in [s].  A call takes
    time, so it moves [wallClock]. *)
Variable callFunction : pointer -> pointer -> MainThreadState -> MainThreadState.

(** One turn of the loop of [dispatchFunctionsFromMainThread] once the front
    entry is known: pop it, call it, signal its waiter when it has one. *)
Definition runInvocation (invocation : FunctionWithContext) (s : MainThreadState)
  : MainThreadState :=
  let s1 := setFunctionQueue (tl (functionQueue s)) s in
  let s2 := callFunction (function invocation) (context invocation)
              (emit (Invoked invocation) s1) in
  if (syncFlag invocation =? 0)%N then s2 else emit (Signalled (syncFlag invocation)) s2.

(** [currentTime() - startTime > maxRunLoopSuspensionTime] *)
Definition suspendedTooLong (startTime : float) (s : MainThreadState) : bool :=
  PrimFloat.ltb maxRunLoopSuspensionTime (PrimFloat.sub (wallClock s) startTime).

(** The [while (true)] loop; one unit of fuel per turn. *)
Fixpoint dispatchLoop (fuel : nat) (startTime : float) (s : MainThreadState)
  : result MainThreadState :=
  match fuel with
  | O => OutOfFuel
  | S fuel' =>
      match functionQueue s with
      | [] => Ok s
      | invocation :: _ =>
          let s' := runInvocation invocation s in
          if suspendedTooLong startTime s'
          then Ok (scheduleDispatchFunctionsOnMainThread s')
          else dispatchLoop fuel' startTime s'
      end
  end.

(** [dispatchFunctionsFromMainThread()].  [ASSERT(isMainThread())] is about
    the calling thread, of which the model has one, so it holds. *)
Definition dispatchFunctionsFromMainThread (fuel : nat) (s : MainThreadState)
  : result MainThreadState :=
  if callbacksPaused s then Ok s else dispatchLoop fuel (wallClock s) s.

(** [callOnMainThread(function, context)] *)
Definition callOnMainThread (f c : pointer) (s : MainThreadState)
  : result MainThreadState :=
  check ASSERT assertionsEnabled (negb (f =? 0)%N);
  let needToSchedule := (length (functionQueue s) =? 0)%nat in
  let s1 := setFunctionQueue (functionQueue s ++ [mkFunctionWithContext f c 0%N]) s in
  Ok (if needToSchedule then scheduleDispatchFunctionsOnMainThread s1 else s1).

(** The enqueueing half of [callOnMainThreadAndWait(function, context)] on a
    thread other than the main one: the entry carries the address of the
    caller's [ThreadCondition]; the caller then blocks, which is not part of
    the queue's state. *)
Definition callOnMainThreadAndWait_enqueue (f c flag : pointer) (s : MainThreadState)
  : result MainThreadState :=
  check ASSERT assertionsEnabled (negb (f =? 0)%N);
  let s1 := setFunctionQueue (functionQueue s ++ [mkFunctionWithContext f c flag]) s in
  Ok (if (length (functionQueue s1) =? 1)%nat
      then scheduleDispatchFunctionsOnMainThread s1 else s1).

(** [std::remove_if(begin, end, pred)] followed by [erase]: the entries that
    do not satisfy [pred], in their order. *)
Definition remove_if (pred : FunctionWithContext -> bool) (q : FunctionQueue)
  : FunctionQueue :=
  List.filter (fun o => negb (pred o)) q.

(** [cancelCallOnMainThread(function, context)] *)
Definition cancelCallOnMainThread (f c : pointer) (s : MainThreadState)
  : result MainThreadState :=
  check ASSERT assertionsEnabled (negb (f =? 0)%N);
  let pred := FunctionWithContextFinder (mkFunctionWithContext f c 0%N) in
  Ok (setFunctionQueue (remove_if pred (functionQueue s)) s).

(** [setMainThreadCallbacksPaused(paused)] *)
Definition setMainThreadCallbacksPaused (paused : bool) (s : MainThreadState)
  : MainThreadState :=
  if Bool.eqb (callbacksPaused s) paused then s
  else
    let s1 := setCallbacksPaused paused s in
    if negb (callbacksPaused s1) then scheduleDispatchFunctionsOnMainThread s1 else s1.


(** The events one turn of the loop adds to the trace. *)
Definition invocationEvents (invocation : FunctionWithContext) : list Event :=
  Invoked invocation ::
  (if (syncFlag invocation =? 0)%N then [] else [Signalled (syncFlag invocation)]).

(** [callOnMainThreadAndWait(function, context)] as a whole: on the main
    thread the function is called at once, on another thread the entry is
    queued with [flag], the address of the caller's [ThreadCondition]. *)
Definition callOnMainThreadAndWait (onMainThread : bool) (f c flag : pointer)
    (s : MainThreadState) : result MainThreadState :=
  check ASSERT assertionsEnabled (negb (f =? 0)%N);
  if onMainThread then Ok (callFunction f c s)
  else
    let s1 := setFunctionQueue (functionQueue s ++ [mkFunctionWithContext f c flag]) s in
    Ok (if (length (functionQueue s1) =? 1)%nat
        then scheduleDispatchFunctionsOnMainThread s1 else s1).

(** Queueing an entry the way its kind is queued: without a synchronization
    handle by [callOnMainThread], with one by a [callOnMainThreadAndWait] on
    a thread other than the main one. *)
Definition enqueue (s : MainThreadState) (entry : FunctionWithContext)
  : result MainThreadState :=
  if (syncFlag entry =? 0)%N
  then callOnMainThread (function entry) (context entry) s
  else callOnMainThreadAndWait false (function entry) (context entry) (syncFlag entry) s.









(** *** Cancellation *)

Lemma FunctionWithContext_eq_spec (a o : FunctionWithContext) :
  FunctionWithContext_eq a o = true <->
  function a = function o /\ context a = context o /\ syncFlag a = syncFlag o.
Proof.
  unfold FunctionWithContext_eq.
  rewrite !andb_true_iff, !N.eqb_eq. tauto.
Qed.

Lemma remove_if_sublist pred (q : FunctionQueue) : sublist (remove_if pred q) q.
Proof.
  induction q as [|o q IH]; simpl; [constructor|].
  destruct (pred o); simpl; now constructor.
Qed.

Lemma remove_if_elem pred (q : FunctionQueue) (o : FunctionWithContext) :
  o ∈ remove_if pred q <-> o ∈ q /\ pred o = false.
Proof.
  unfold remove_if. rewrite !list_elem_of_In, filter_In, negb_true_iff. tauto.
Qed.

Lemma cancelCallOnMainThread_returns f c s :
  assertionsEnabled = false \/ f <> 0%N ->
  exists s', cancelCallOnMainThread f c s = Ok s'.
Proof.
  intros H. unfold cancelCallOnMainThread, ASSERT.
  destruct H as [-> | Hf]; simpl; [eauto|].
  apply N.eqb_neq in Hf. rewrite Hf, andb_false_r. simpl. eauto.
Qed.

(** C4, as the code has it.  [cancelCallOnMainThread(f, c)] compares every
    queued entry with [FunctionWithContext(f, c)], whose [syncFlag] is null,
    and [operator==] compares all three members.  So an entry leaves the queue
    exactly when its function and context are [f] and [c] and it carries no
    synchronization handle; an entry of a blocked caller stays.  The entries
    that stay keep their relative order and their number, and nothing else
    of the state changes. *)
Theorem cancel_removes_matching_unsynchronized f c s s' :
  cancelCallOnMainThread f c s = Ok s' ->
  sublist (functionQueue s') (functionQueue s)
  /\ (forall o, o ∈ functionQueue s' <->
        o ∈ functionQueue s
        /\ ~ (function o = f /\ context o = c /\ syncFlag o = 0%N))
  /\ functionQueue s' =
       List.filter
         (fun o => negb ((function o =? f)%N && (context o =? c)%N && (syncFlag o =? 0)%N))
         (functionQueue s)
  /\ callbacksPaused s' = callbacksPaused s
  /\ wallClock s' = wallClock s
  /\ trace s' = trace s.
Proof.
  clear callFunction. unfold cancelCallOnMainThread. intros H.
  destruct (ASSERT assertionsEnabled (negb (f =? 0)%N)); simpl in H; try discriminate.
  injection H as <-. simpl.
  set (pred := FunctionWithContextFinder (mkFunctionWithContext f c 0%N)).
  assert (Hpred : forall o, pred o = false <->
            ~ (function o = f /\ context o = c /\ syncFlag o = 0%N)).
  { intros o. unfold pred, FunctionWithContextFinder.
    rewrite <- not_true_iff_false, FunctionWithContext_eq_spec. simpl. tauto. }
  split; [apply remove_if_sublist|].
  split; [intros o; rewrite remove_if_elem, Hpred; tauto|].
  split; [reflexivity|tauto].
Qed.

(** *** Queueing *)

Lemma ASSERT_function f :
  assertionsEnabled = false \/ f <> 0%N ->
  ASSERT assertionsEnabled (negb (f =? 0)%N) = Ok tt.
Proof.
  clear callFunction. unfold ASSERT. intros [-> | Hf]; [reflexivity|].
  apply N.eqb_neq in Hf. rewrite Hf. now rewrite andb_false_r.
Qed.

Lemma callOnMainThread_Ok f c s s' :
  callOnMainThread f c s = Ok s' ->
  functionQueue s' = functionQueue s ++ [mkFunctionWithContext f c 0%N]
  /\ trace s' = trace s ++ match functionQueue s with [] => [ScheduleRequested] | _ => [] end
  /\ callbacksPaused s' = callbacksPaused s
  /\ wallClock s' = wallClock s.
Proof.
  clear callFunction. unfold callOnMainThread.
  destruct (ASSERT _ _); simpl; try discriminate. intros [= <-].
  destruct (functionQueue s); simpl; rewrite ?app_nil_r; repeat split; reflexivity.
Qed.

Lemma callOnMainThreadAndWait_Ok f c flag s s' :
  callOnMainThreadAndWait false f c flag s = Ok s' ->
  functionQueue s' = functionQueue s ++ [mkFunctionWithContext f c flag]
  /\ trace s' = trace s ++ match functionQueue s with [] => [ScheduleRequested] | _ => [] end
  /\ callbacksPaused s' = callbacksPaused s
  /\ wallClock s' = wallClock s.
Proof.
  unfold callOnMainThreadAndWait.
  destruct (ASSERT _ _); simpl; try discriminate. intros [= <-].
  rewrite length_app. simpl.
  destruct (functionQueue s) as [|e [|e' q]]; simpl; rewrite ?app_nil_r;
    repeat split; reflexivity.
Qed.

Lemma enqueue_spec s entry :
  assertionsEnabled = false \/ function entry <> 0%N ->
  exists s',
    enqueue s entry = Ok s'
    /\ functionQueue s' = functionQueue s ++ [entry]
    /\ trace s' = trace s ++ match functionQueue s with [] => [ScheduleRequested] | _ => [] end
    /\ callbacksPaused s' = callbacksPaused s
    /\ wallClock s' = wallClock s.
Proof.
  intros Hok. pose proof (ASSERT_function _ Hok) as Hassert.
  unfold enqueue. destruct (syncFlag entry =? 0)%N eqn:Hflag.
  - apply N.eqb_eq in Hflag.
    destruct (callOnMainThread (function entry) (context entry) s) as [s'| | | |] eqn:Hrun;
      try (unfold callOnMainThread in Hrun; rewrite Hassert in Hrun; discriminate).
    exists s'. split; [reflexivity|].
    pose proof (callOnMainThread_Ok _ _ _ _ Hrun) as H.
    replace (mkFunctionWithContext (function entry) (context entry) 0%N) with entry in H
      by (destruct entry; simpl in *; congruence).
    exact H.
  - destruct (callOnMainThreadAndWait false (function entry) (context entry)
                (syncFlag entry) s) as [s'| | | |] eqn:Hrun;
      try (unfold callOnMainThreadAndWait in Hrun; rewrite Hassert in Hrun; discriminate).
    exists s'. split; [reflexivity|].
    pose proof (callOnMainThreadAndWait_Ok _ _ _ _ _ Hrun) as H.
    replace (mkFunctionWithContext (function entry) (context entry) (syncFlag entry))
      with entry in H by (now destruct entry).
    exact H.
Qed.

Lemma forEach_enqueue (entries : list FunctionWithContext) s :
  assertionsEnabled = false \/ Forall (fun entry => function entry <> 0%N) entries ->
  exists s',
    forEach enqueue entries s = Ok s'
    /\ functionQueue s' = functionQueue s ++ entries
    /\ callbacksPaused s' = callbacksPaused s.
Proof.
  intros Hok. revert s. induction entries as [|entry entries IH]; intros s.
  - exists s. simpl. now rewrite app_nil_r.
  - destruct (enqueue_spec s entry) as (s1 & Hrun & Hq & _ & Hp & _).
    { destruct Hok as [?|Hall]; [now left | right]. now inversion Hall. }
    destruct IH with s1 as (s' & Hrun' & Hq' & Hp').
    { destruct Hok as [?|Hall]; [now left | right]. now inversion Hall. }
    exists s'. simpl. rewrite Hrun. simpl.
    split; [exact Hrun'|]. split; [rewrite Hq', Hq, <- app_assoc; reflexivity|congruence].
Qed.

(** X1.  Entries are queued at the back, in the order of the calls, whether
    they come from [callOnMainThread] or from a [callOnMainThreadAndWait] on
    another thread.  Of a run of calls only the one that finds the queue
    empty asks for a dispatch: the two functions test for it differently
    ([size() == 0] before the push, [size() == 1] after it) and agree.
    Queueing does not look at the pause flag. *)
Theorem enqueueing_keeps_call_order_and_asks_once (entries : list FunctionWithContext) s :
  assertionsEnabled = false \/ Forall (fun entry => function entry <> 0%N) entries ->
  exists s',
    forEach enqueue entries s = Ok s'
    /\ functionQueue s' = functionQueue s ++ entries
    /\ trace s' = trace s ++ match functionQueue s, entries with
                             | [], _ :: _ => [ScheduleRequested]
                             | _, _ => []
                             end
    /\ callbacksPaused s' = callbacksPaused s
    /\ wallClock s' = wallClock s.
Proof.
  intros Hok. revert s. induction entries as [|entry entries IH]; intros s.
  - exists s. simpl. rewrite !app_nil_r.
    destruct (functionQueue s); rewrite ?app_nil_r; repeat split; reflexivity.
  - destruct (enqueue_spec s entry) as (s1 & Hrun & Hq & Ht & Hp & Hc).
    { destruct Hok as [?|Hall]; [now left | right]. now inversion Hall. }
    destruct IH with s1 as (s' & Hrun' & Hq' & Ht' & Hp' & Hc').
    { destruct Hok as [?|Hall]; [now left | right]. now inversion Hall. }
    exists s'. simpl. rewrite Hrun. simpl.
    split; [exact Hrun'|]. split; [rewrite Hq', Hq, <- app_assoc; reflexivity|].
    split; [|split; congruence].
    rewrite Ht', Ht, Hq.
    destruct (functionQueue s) as [|e q]; simpl; destruct entries; simpl;
      rewrite ?app_nil_r; reflexivity.
Qed.

(** X2.  A call that is queued and cancelled again leaves the queue as the
    cancellation alone would have left it; it leaves the queue as it was when
    no entry without a synchronization handle had that function and context
    before.  Cancelling again changes nothing. *)
Theorem cancel_takes_back_a_call f c s s1 s2 :
  callOnMainThread f c s = Ok s1 ->
  cancelCallOnMainThread f c s1 = Ok s2 ->
  functionQueue s2 =
    List.filter
      (fun o => negb ((function o =? f)%N && (context o =? c)%N && (syncFlag o =? 0)%N))
      (functionQueue s)
  /\ ((forall o, o ∈ functionQueue s ->
         ~ (function o = f /\ context o = c /\ syncFlag o = 0%N)) ->
      functionQueue s2 = functionQueue s)
  /\ cancelCallOnMainThread f c s2 = Ok s2.
Proof.
  clear callFunction. intros Hcall Hcancel.
  destruct (callOnMainThread_Ok _ _ _ _ Hcall) as (Hq1 & _).
  unfold cancelCallOnMainThread in *.
  destruct (ASSERT assertionsEnabled (negb (f =? 0)%N)); simpl in *; try discriminate.
  injection Hcancel as <-. simpl. rewrite Hq1.
  unfold remove_if, FunctionWithContextFinder, FunctionWithContext_eq. simpl.
  rewrite List.filter_app. simpl. rewrite !N.eqb_refl. simpl. rewrite app_nil_r.
  split; [reflexivity|]. split.
  - intros Hnone. apply forallb_filter_id. apply forallb_forall. intros o Ho.
    apply negb_true_iff, not_true_iff_false. rewrite !andb_true_iff, !N.eqb_eq.
    intros [[? ?] ?]. apply (Hnone o); [now apply list_elem_of_In | tauto].
  - f_equal. destruct s1 as [q1 p1 t1 e1]. unfold setFunctionQueue. simpl in *. f_equal.
    set (keep := fun o : FunctionWithContext => _). clear Hq1 Hcall.
    induction (functionQueue s) as [|o q IH]; simpl; [reflexivity|].
    destruct (keep o) eqn:Hk; simpl; [rewrite Hk; f_equal; exact IH | exact IH].
Qed.

(** X3.  Nothing that is queued while the callbacks are paused runs early
    or gets lost.  Pausing keeps the queue and asks for nothing; pausing
    again is a no-op.  Entries queued meanwhile go to the back, and a
    dispatch returns at once with the queue untouched.  Resuming asks for
    one dispatch, with every entry still queued in order; resuming again is
    a no-op and asks for nothing. *)
Theorem pausing_holds_the_queue_and_resuming_asks (entries : list FunctionWithContext) s :
  assertionsEnabled = false \/ Forall (fun entry => function entry <> 0%N) entries ->
  let paused := setMainThreadCallbacksPaused true s in
  functionQueue paused = functionQueue s
  /\ trace paused = trace s
  /\ setMainThreadCallbacksPaused true paused = paused
  /\ exists held,
       forEach enqueue entries paused = Ok held
       /\ (forall fuel, dispatchFunctionsFromMainThread fuel held = Ok held)
       /\ functionQueue held = functionQueue s ++ entries
       /\ let resumed := setMainThreadCallbacksPaused false held in
          callbacksPaused resumed = false
          /\ functionQueue resumed = functionQueue s ++ entries
          /\ trace resumed = trace held ++ [ScheduleRequested]
          /\ setMainThreadCallbacksPaused false resumed = resumed.
Proof.
  intros Hok paused.
  assert (Hpaused : callbacksPaused paused = true
                    /\ functionQueue paused = functionQueue s /\ trace paused = trace s
                    /\ setMainThreadCallbacksPaused true paused = paused).
  { unfold paused, setMainThreadCallbacksPaused.
    destruct s as [q [|] t e]; simpl; repeat split; reflexivity. }
  destruct Hpaused as (Hp & Hq & Ht & Hagain).
  split; [exact Hq|]. split; [exact Ht|]. split; [exact Hagain|].
  destruct (forEach_enqueue entries paused Hok) as (held & Hrun & Hq' & Hp').
  exists held. split; [exact Hrun|].
  rewrite Hp in Hp'. rewrite Hq in Hq'.
  split; [intros fuel; unfold dispatchFunctionsFromMainThread; now rewrite Hp'|].
  split; [exact Hq'|].
  unfold setMainThreadCallbacksPaused.
  destruct held as [q [|] t e]; simpl in *; try discriminate.
  repeat split. exact Hq'.
Qed.

(** *** Draining *)

Section Frame.

(** The queued functions of this section leave the dispatcher's own data
    alone: they neither enqueue nor cancel, and the trace is the
    dispatcher's. *)
Hypothesis callFunction_frame : forall f c s,
  functionQueue (callFunction f c s) = functionQueue s
  /\ trace (callFunction f c s) = trace s.

Lemma runInvocation_functionQueue invocation s :
  functionQueue (runInvocation invocation s) = tl (functionQueue s).
Proof.
  unfold runInvocation.
  destruct (syncFlag invocation =? 0)%N; simpl;
    now rewrite (proj1 (callFunction_frame _ _ _)).
Qed.

Lemma runInvocation_trace invocation s :
  trace (runInvocation invocation s) = trace s ++ invocationEvents invocation.
Proof.
  unfold runInvocation, invocationEvents.
  destruct (syncFlag invocation =? 0)%N; simpl;
    rewrite (proj2 (callFunction_frame _ _ _)); simpl; [reflexivity|].
  now rewrite <- app_assoc.
Qed.





(** What a loop that has returned has done, whatever its fuel: it ran the
    first [k] entries, and either emptied the queue or asked for another
    dispatch as its last act. *)
Lemma dispatchLoop_Ok fuel startTime s s' :
  dispatchLoop fuel startTime s = Ok s' ->
  exists k,
    functionQueue s' = drop k (functionQueue s)
    /\ ((trace s' = trace s ++ flat_map invocationEvents (take k (functionQueue s))
         /\ functionQueue s' = [])
        \/ trace s' = trace s ++ flat_map invocationEvents (take k (functionQueue s))
                      ++ [ScheduleRequested]).
Proof.
  revert s. induction fuel as [|fuel IH]; intros s Hrun; [discriminate|].
  simpl in Hrun. destruct (functionQueue s) as [|e r] eqn:Hq.
  - injection Hrun as <-. exists 0. rewrite Hq. simpl. rewrite app_nil_r. auto.
  - pose proof (runInvocation_functionQueue e s) as Hr. rewrite Hq in Hr. simpl in Hr.
    pose proof (runInvocation_trace e s) as Ht.
    destruct (suspendedTooLong startTime (runInvocation e s)).
    + injection Hrun as <-. exists 1. simpl. rewrite Hr, Ht, drop_0.
      split; [reflexivity|]. right. now rewrite app_nil_r, <- app_assoc.
    + destruct (IH _ Hrun) as (k & Hqk & Htk). rewrite Hr in Hqk, Htk.
      exists (S k). cbn [take drop flat_map]. split; [exact Hqk|].
      rewrite Ht in Htk. rewrite <- !app_assoc in Htk.
      destruct Htk as [[Htk Hempty]|Htk]; [left | right].
      * split; [exact Htk | exact Hempty].
      * rewrite <- app_assoc. exact Htk.
Qed.



(** X4.  After [cancelCallOnMainThread(f, c)] a dispatch does not call [f]
    with [c] on behalf of an entry without a synchronization handle: what it
    calls was queued before the cancellation and is not such an entry. *)
Theorem cancelled_call_is_not_dispatched f c s s1 fuel s2 :
  cancelCallOnMainThread f c s = Ok s1 ->
  dispatchFunctionsFromMainThread fuel s1 = Ok s2 ->
  exists events,
    trace s2 = trace s ++ events
    /\ forall invocation,
         Invoked invocation ∈ events ->
         invocation ∈ functionQueue s
         /\ ~ (function invocation = f /\ context invocation = c
               /\ syncFlag invocation = 0%N).
Proof.
  intros Hcancel Hrun.
  assert (Hs1 : trace s1 = trace s
                /\ forall o, o ∈ functionQueue s1 ->
                     o ∈ functionQueue s
                     /\ ~ (function o = f /\ context o = c /\ syncFlag o = 0%N)).
  { unfold cancelCallOnMainThread in Hcancel.
    destruct (ASSERT _ _); simpl in Hcancel; try discriminate.
    injection Hcancel as <-. simpl. split; [reflexivity|].
    intros o. rewrite remove_if_elem. unfold FunctionWithContextFinder.
    rewrite <- not_true_iff_false, FunctionWithContext_eq_spec. simpl. tauto. }
  destruct Hs1 as [Ht1 Hq1].
  unfold dispatchFunctionsFromMainThread in Hrun.
  destruct (callbacksPaused s1).
  { injection Hrun as <-. exists []. rewrite app_nil_r. split; [exact Ht1|].
    intros invocation Hin. inversion Hin. }
  destruct (dispatchLoop_Ok _ _ _ _ Hrun) as (k & _ & Htrace).
  assert (Hinvoked : forall l invocation,
            Invoked invocation ∈ flat_map invocationEvents l -> invocation ∈ l).
  { clear. induction l as [|e l IH]; intros invocation; simpl; [intros H; inversion H|].
    unfold invocationEvents at 1. rewrite !elem_of_cons.
    destruct (syncFlag e =? 0)%N; simpl; rewrite ?elem_of_cons;
      intros [H|H]; try (injection H as ->; now left);
      try (destruct H as [H|H]; [discriminate|]); right; now apply IH. }
  assert (Htake : forall invocation,
            invocation ∈ take k (functionQueue s1) -> invocation ∈ functionQueue s1).
  { intros invocation. apply (subseteq_take k (functionQueue s1)). }
  rewrite Ht1 in Htrace.
  destruct Htrace as [[Htrace _]|Htrace]; eexists; (split; [exact Htrace|]);
    intros invocation Hin.
  - apply Hq1, Htake, Hinvoked, Hin.
  - apply elem_of_app in Hin as [Hin|Hin]; [apply Hq1, Htake, Hinvoked, Hin|].
    apply list_elem_of_singleton in Hin. discriminate.
Qed.







End Frame.

End Dispatch.

(** *** Which thread is the main thread *)

Lemma initializeMainThread_again (threads : list ThreadIdentifier) (t : ThreadingState) :
  initializedMainThread t = true ->
  fold_left (fun t' thread => initializeMainThread thread t') threads t = t.
Proof.
  intros Ht. induction threads as [|thread threads IH]; simpl; [reflexivity|].
  unfold initializeMainThread at 2. now rewrite Ht.
Qed.

(** X7.  The first call of [initializeMainThread] decides which thread is
    the main thread and runs the platform's initialization; every later
    call, on whichever thread, changes nothing.  So [isMainThread()] holds
    on the thread of the first call and on no other, however often and from
    wherever initialization is asked for again. *)
Theorem first_initialization_names_the_main_thread
    (first : ThreadIdentifier) (later : list ThreadIdentifier) :
  let t := fold_left (fun t' thread => initializeMainThread thread t') later
             (initializeMainThread first beforeMain) in
  t = initializeMainThread first beforeMain
  /\ platformInitializations t = 1
  /\ forall thread, isMainThread thread t = true <-> thread = first.
Proof.
  intros t. assert (Ht : t = initializeMainThread first beforeMain)
    by (apply initializeMainThread_again; reflexivity).
  split; [exact Ht|]. rewrite Ht. split; [reflexivity|].
  intros thread. unfold isMainThread. simpl. apply N.eqb_eq.
Qed.

(** *** The dispatcher on concrete queues *)

(** A queued function that takes 30 ms and does nothing else. *)
Definition thirtyMilliseconds (_ _ : pointer) (s : MainThreadState) : MainThreadState :=
  {| functionQueue := functionQueue s; callbacksPaused := callbacksPaused s;
     wallClock := PrimFloat.add (wallClock s) 0x1.eb851eb851eb8p-6%float;
     trace := trace s |}.

Definition idle (q : FunctionQueue) : MainThreadState :=
  {| functionQueue := q; callbacksPaused := false; wallClock := 0%float; trace := [] |}.

Definition callA := mkFunctionWithContext 10%N 1%N 0%N.
Definition callB := mkFunctionWithContext 20%N 2%N 0%N.
Definition callC := mkFunctionWithContext 30%N 3%N 0%N.
Definition waitingB := mkFunctionWithContext 20%N 2%N 77%N.

(** Enqueue A, B, C, cancel B, drain: A then C run. *)
Example dispatch_fifo_and_cancel :
  (do s1 <- callOnMainThread true 10%N 1%N (idle []);
   do s2 <- callOnMainThread true 20%N 2%N s1;
   do s3 <- callOnMainThread true 30%N 3%N s2;
   do s4 <- cancelCallOnMainThread true 20%N 2%N s3;
   do s5 <- dispatchFunctionsFromMainThread (fun _ _ s => s) 4 s4;
   Ok (functionQueue s5, trace s5))
  = Ok ([], [ScheduleRequested; Invoked callA; Invoked callC]).
Proof. reflexivity. Qed.

(** Three calls of 30 ms each: the second ends past the 50 ms budget, so the
    third stays queued and a new dispatch is requested. *)
Example dispatch_time_boxed :
  (do s' <- dispatchFunctionsFromMainThread thirtyMilliseconds 4
              (idle [callA; waitingB; callC]);
   Ok (functionQueue s', trace s'))
  = Ok ([callC], [Invoked callA; Invoked waitingB; Signalled 77%N; ScheduleRequested]).
Proof. vm_compute. reflexivity. Qed.

(** C4 as stated fails: the entry of a blocked caller has the function and
    the context being cancelled, and it is still queued afterwards. *)
Lemma cancel_keeps_waiting_entry :
  function waitingB = 20%N /\ context waitingB = 2%N
  /\ cancelCallOnMainThread true 20%N 2%N (idle [callA; waitingB; callC])
     = Ok (idle [callA; waitingB; callC]).
Proof. repeat split. Qed.

Lemma cancel_removes_matching_unsynchronized_witness :
  sublist [callA; waitingB; callC] [callA; callB; waitingB; callC]
  /\ callbacksPaused (idle [callA; waitingB; callC]) = false.
Proof.
  pose proof (cancel_removes_matching_unsynchronized true 20%N 2%N
                (idle [callA; callB; waitingB; callC])
                (idle [callA; waitingB; callC]) eq_refl) as H.
  split; [exact (proj1 H)|].
  exact (proj1 (proj2 (proj2 (proj2 H)))).
Defined.


Lemma thirtyMilliseconds_frame f c s :
  functionQueue (thirtyMilliseconds f c s) = functionQueue s
  /\ trace (thirtyMilliseconds f c s) = trace s.
Proof. split; reflexivity. Defined.

Lemma enqueueing_keeps_call_order_and_asks_once_witness :
  exists s',
    forEach (enqueue true thirtyMilliseconds) [callA; waitingB; callC] (idle []) = Ok s'
    /\ functionQueue s' = [callA; waitingB; callC]
    /\ trace s' = [ScheduleRequested].
Proof.
  destruct (enqueueing_keeps_call_order_and_asks_once true thirtyMilliseconds
              [callA; waitingB; callC] (idle []))
    as (s' & Hrun & Hq & Ht & _).
  - right. repeat constructor; discriminate.
  - exists s'. split; [exact Hrun|]. split; [exact Hq | exact Ht].
Defined.

Lemma cancel_takes_back_a_call_witness :
  cancelCallOnMainThread true 20%N 2%N (idle [callA]) = Ok (idle [callA]).
Proof.
  exact (proj2 (proj2 (cancel_takes_back_a_call true 20%N 2%N (idle [callA])
                         (idle [callA; callB]) (idle [callA]) eq_refl eq_refl))).
Defined.

Lemma pausing_holds_the_queue_and_resuming_asks_witness :
  exists held,
    forEach (enqueue true thirtyMilliseconds) [callB; callC]
      (setMainThreadCallbacksPaused true (idle [callA])) = Ok held
    /\ dispatchFunctionsFromMainThread thirtyMilliseconds 4 held = Ok held
    /\ functionQueue (setMainThreadCallbacksPaused false held) = [callA; callB; callC].
Proof.
  destruct (pausing_holds_the_queue_and_resuming_asks true thirtyMilliseconds
              [callB; callC] (idle [callA]))
    as (_ & _ & _ & held & Hrun & Hheld & _ & _ & Hq & _).
  - right. repeat constructor; discriminate.
  - exists held. split; [exact Hrun|]. split; [apply Hheld | exact Hq].
Defined.

Lemma cancelled_call_is_not_dispatched_witness :
  exists s2 events,
    dispatchFunctionsFromMainThread thirtyMilliseconds 4 (idle [callA; waitingB; callC]) = Ok s2
    /\ trace s2 = events
    /\ forall invocation,
         Invoked invocation ∈ events ->
         ~ (function invocation = 20%N /\ context invocation = 2%N
            /\ syncFlag invocation = 0%N).
Proof.
  destruct (dispatchFunctionsFromMainThread thirtyMilliseconds 4
              (idle [callA; waitingB; callC])) as [s2| | | |] eqn:Hrun;
    try (vm_compute in Hrun; discriminate).
  destruct (cancelled_call_is_not_dispatched true thirtyMilliseconds
              thirtyMilliseconds_frame 20%N 2%N
              (idle [callA; callB; waitingB; callC]) (idle [callA; waitingB; callC])
              4 s2 eq_refl Hrun) as (events & Ht & Hnot).
  exists s2, events. split; [reflexivity|]. split; [exact Ht|].
  intros invocation Hin. exact (proj2 (Hnot invocation Hin)).
Defined.



End MainThread.

(** ** core/ChannelMergerNode.cpp *)

Module ChannelMergerNode.

(** The sample storage ([AudioChannel], [AudioBus]) and the ports
    ([AudioNodeInput], [AudioNodeOutput]) are classes of other translation
    units; what the merger reads and writes of them is kept here. *)

Definition AudioChannel := list float.

Record AudioBus : Type := mkAudioBus {
  channels : list AudioChannel;
  busLength : nat                 (* AudioBus::length(), frames per channel *)
}.

Definition numberOfChannels (b : AudioBus) : nat := length (channels b).

(** [AudioBus::channel(i)], an index into the bus's channel vector. *)
Definition channel (b : AudioBus) (i : nat) : result AudioChannel :=
  match channels b !! i with Some c => Ok c | None => OutOfBounds end.

Definition silent (c : AudioChannel) : Prop := Forall (fun x => x = 0%float) c.

(** Modelled from the spec: [AudioBus::zero()] is absent from the sources;
    the spec has the node "emit silence", so every sample of every channel
    becomes zero and the shape of the bus stays. *)
Definition zero (b : AudioBus) : AudioBus :=
  {| channels := map (map (fun _ => 0%float)) (channels b); busLength := busLength b |}.

(** Modelled from the spec: [AudioChannel::copyFrom] is absent from the
    sources; after it "each output channel equals the corresponding source
    input channel". *)
Definition copyFrom (destination source : AudioChannel) : AudioChannel := source.

Record AudioNodeInput : Type := mkAudioNodeInput {
  connectedOutputs : list N;      (* the outputs attached to this input *)
  inputBus : AudioBus             (* input->bus(r) *)
}.

(** Modelled from the spec: "[isConnected()] is true iff at least one Output
    is attached". *)
Definition isConnected (input : AudioNodeInput) : bool :=
  negb (length (connectedOutputs input) =? 0)%nat.

Record AudioNodeOutput : Type := mkAudioNodeOutput {
  appliedNumberOfChannels : nat;  (* output->numberOfChannels() *)
  outputBus : AudioBus            (* output->bus(r) *)
}.

Record ChannelMergerNode : Type := mkChannelMergerNode {
  m_inputs : list AudioNodeInput;
  m_outputs : list AudioNodeOutput;
  m_desiredNumberOfOutputChannels : nat
}.

Definition numberOfInputs (n : ChannelMergerNode) : nat := length (m_inputs n).

(** [input(i)] and [output(i)] hand out a pointer, null past the end; using
    the pointer is where a null one hurts. *)
Definition input (n : ChannelMergerNode) (i : nat) : option AudioNodeInput := m_inputs n !! i.
Definition output (n : ChannelMergerNode) (i : nat) : option AudioNodeOutput := m_outputs n !! i.

Definition deref {A : Type} (p : option A) : result A :=
  match p with Some a => Ok a | None => NullDereference end.

Definition setOutput (i : nat) (o : AudioNodeOutput) (n : ChannelMergerNode)
  : ChannelMergerNode :=
  {| m_inputs := m_inputs n; m_outputs := <[i := o]> (m_outputs n);
     m_desiredNumberOfOutputChannels := m_desiredNumberOfOutputChannels n |}.

Definition setOutputBus (b : AudioBus) (o : AudioNodeOutput) : AudioNodeOutput :=
  {| appliedNumberOfChannels := appliedNumberOfChannels o; outputBus := b |}.

Definition setChannel (i : nat) (c : AudioChannel) (b : AudioBus) : AudioBus :=
  {| channels := <[i := c]> (channels b); busLength := busLength b |}.

(** The channels the merge loop of [process] reads, in the order it reads
    them, and how many the loop of [checkNumberOfChannelsForInput] counts. *)
Definition connectedChannels (inputs : list AudioNodeInput) : list AudioChannel :=
  flat_map (fun i => if isConnected i then channels (inputBus i) else []) inputs.

Section Node.

Variable assertionsEnabled : bool.

(** [AudioNodeOutput::setNumberOfChannels(r, n)] and
    [AudioNodeInput::updateInternalBus(r)] belong to the ports; whether the
    first resizes the live bus at once or later is theirs to decide. *)
Variable setNumberOfChannels : nat -> AudioNodeOutput -> AudioNodeOutput.
Variable updateInternalBus : AudioNodeInput -> AudioNodeInput.

(** The body of the inner [for (j ...)] loop of [process]. *)
Definition mergeChannel (source : AudioNodeInput) (st : AudioBus * nat) (j : nat)
  : result (AudioBus * nat) :=
  let '(bus, outputChannelIndex) := st in
  do inputChannel <- channel (inputBus source) j;
  do outputChannel <- channel bus outputChannelIndex;
  Ok (setChannel outputChannelIndex (copyFrom outputChannel inputChannel) bus,
      S outputChannelIndex).

(** The body of the outer [for (i ...)] loop of [process]. *)
Definition mergeInput (n : ChannelMergerNode) (st : AudioBus * nat) (i : nat)
  : result (AudioBus * nat) :=
  do source <- deref (input n i);
  if isConnected source
  then forEach (mergeChannel source) (seq 0 (numberOfChannels (inputBus source))) st
  else Ok st.

(** [ChannelMergerNode::process(r, bufferSize, offset, count)] *)
Definition process (n : ChannelMergerNode) (bufferSize offset count : Z)
  : result ChannelMergerNode :=
  do out <- deref (output n 0);
  check ASSERT assertionsEnabled (bufferSize =? Z.of_nat (busLength (outputBus out)))%Z;
  if negb (m_desiredNumberOfOutputChannels n =? appliedNumberOfChannels out)%nat
  then Ok (setOutput 0 (setOutputBus (zero (outputBus out)) out) n)
  else
    do merged <- forEach (mergeInput n) (seq 0 (numberOfInputs n)) (outputBus out, 0);
    check ASSERT assertionsEnabled (snd merged =? appliedNumberOfChannels out)%nat;
    Ok (setOutput 0 (setOutputBus (fst merged) out) n).

(** The body of the counting loop of [checkNumberOfChannelsForInput]. *)
Definition countInput (n : ChannelMergerNode) (numberOfOutputChannels : nat) (i : nat)
  : result nat :=
  do source <- deref (input n i);
  Ok (if isConnected source
      then numberOfOutputChannels + numberOfChannels (inputBus source)
      else numberOfOutputChannels).

(** [AudioNode::checkNumberOfChannelsForInput(r, input)]: the input, when it
    is one of this node's, has its internal bus updated.  [changed] is the
    index at which [input] sits in [m_inputs], if it does. *)
Definition AudioNode_checkNumberOfChannelsForInput (changed : option nat)
    (n : ChannelMergerNode) : ChannelMergerNode :=
  match changed with
  | Some i =>
      {| m_inputs := alter updateInternalBus i (m_inputs n); m_outputs := m_outputs n;
         m_desiredNumberOfOutputChannels := m_desiredNumberOfOutputChannels n |}
  | None => n
  end.

(** [ChannelMergerNode::checkNumberOfChannelsForInput(r, input)] *)
Definition checkNumberOfChannelsForInput (n : ChannelMergerNode) (changed : option nat)
  : result ChannelMergerNode :=
  do numberOfOutputChannels <- forEach (countInput n) (seq 0 (numberOfInputs n)) 0;
  do out <- deref (output n 0);
  let n1 := setOutput 0 (setNumberOfChannels numberOfOutputChannels out) n in
  let n2 := {| m_inputs := m_inputs n1; m_outputs := m_outputs n1;
               m_desiredNumberOfOutputChannels := numberOfOutputChannels |} in
  Ok (AudioNode_checkNumberOfChannelsForInput changed n2).

(** *** The loops *)

Lemma zero_silent (b : AudioBus) : Forall silent (channels (zero b)).
Proof.
  unfold zero, silent. simpl.
  induction (channels b) as [|c cs IH]; simpl; constructor; [|exact IH].
  clear. induction c; simpl; now constructor.
Qed.

Lemma zero_numberOfChannels (b : AudioBus) : numberOfChannels (zero b) = numberOfChannels b.
Proof. unfold numberOfChannels, zero. simpl. apply length_map. Qed.

Lemma input_in_range (n : ChannelMergerNode) (a k : nat) :
  a + S k <= numberOfInputs n ->
  exists source, input n a = Some source
    /\ take (S k) (drop a (m_inputs n)) = source :: take k (drop (S a) (m_inputs n)).
Proof.
  unfold numberOfInputs, input. intros H.
  destruct (m_inputs n !! a) as [source|] eqn:Hs.
  - exists source. split; [reflexivity|]. now rewrite (drop_S _ _ _ Hs).
  - apply lookup_ge_None in Hs. lia.
Qed.

(** The inner loop writes the source's channels [a .. a+k-1] over the [k]
    slots that follow the current output index. *)
Lemma mergeChannels_spec (source : AudioNodeInput) (k : nat) :
  forall a bus before old after,
    length old = k ->
    a + k <= numberOfChannels (inputBus source) ->
    channels bus = before ++ old ++ after ->
    forEach (mergeChannel source) (seq a k) (bus, length before) =
      Ok ({| channels := before ++ take k (drop a (channels (inputBus source))) ++ after;
             busLength := busLength bus |},
          length before + k).
Proof.
  unfold numberOfChannels.
  induction k as [|k IH]; intros a bus before old after Hold Ha Hbus.
  - destruct old; [|discriminate]. simpl in *. rewrite <- Hbus, Nat.add_0_r.
    now destruct bus.
  - destruct old as [|o old]; [discriminate|]. injection Hold as Hold.
    destruct (channels (inputBus source) !! a) as [c|] eqn:Hc;
      [|apply lookup_ge_None in Hc; lia].
    simpl. unfold channel at 1. rewrite Hc. simpl.
    unfold channel at 1. rewrite Hbus.
    rewrite lookup_app_r by lia. rewrite Nat.sub_diag. simpl.
    specialize (IH (S a)
      (setChannel (length before) (copyFrom o c) bus) (before ++ [c]) old after Hold).
    rewrite length_app in IH. simpl in IH.
    replace (length before + 1) with (S (length before)) in IH by lia.
    rewrite IH; [| lia |].
    + rewrite (drop_S _ _ _ Hc). simpl. rewrite <- app_assoc. simpl.
      do 2 f_equal. lia.
    + simpl. rewrite Hbus. rewrite insert_app_r_alt by lia.
      rewrite Nat.sub_diag. simpl. now rewrite <- app_assoc.
Qed.

(** The outer loop does so for every connected input in turn. *)
Lemma mergeInputs_spec (n : ChannelMergerNode) (k : nat) :
  forall a bus before old after,
    length old = length (connectedChannels (take k (drop a (m_inputs n)))) ->
    a + k <= numberOfInputs n ->
    channels bus = before ++ old ++ after ->
    forEach (mergeInput n) (seq a k) (bus, length before) =
      Ok ({| channels := before ++ connectedChannels (take k (drop a (m_inputs n))) ++ after;
             busLength := busLength bus |},
          length before + length old).
Proof.
  induction k as [|k IH]; intros a bus before old after Hold Ha Hbus.
  - simpl in Hold. destruct old; [|discriminate]. simpl in *.
    rewrite <- Hbus, Nat.add_0_r. now destruct bus.
  - destruct (input_in_range n a k Ha) as (source & Hsource & Htake).
    rewrite Htake in *. simpl seq. simpl forEach.
    unfold mergeInput at 1. rewrite Hsource. simpl.
    unfold connectedChannels in Hold |- *. simpl in Hold |- *.
    fold (connectedChannels (take k (drop (S a) (m_inputs n)))) in Hold |- *.
    destruct (isConnected source).
    + rewrite length_app in Hold.
      set (m := length (channels (inputBus source))) in *.
      change (numberOfChannels (inputBus source)) with m.
      rewrite (mergeChannels_spec source m 0 bus before (take m old) (drop m old ++ after)).
      * simpl. rewrite drop_0.
        replace (take m (channels (inputBus source))) with (channels (inputBus source))
          by (symmetry; apply take_ge; unfold m; lia).
        specialize (IH (S a)
          {| channels := before ++ channels (inputBus source) ++ drop m old ++ after;
             busLength := busLength bus |}
          (before ++ channels (inputBus source)) (drop m old) after).
        rewrite length_app in IH. fold m in IH.
        rewrite IH.
        -- simpl. rewrite length_drop. rewrite <- !app_assoc.
           do 2 f_equal. lia.
        -- rewrite length_drop. lia.
        -- lia.
        -- simpl. now rewrite <- !app_assoc.
      * rewrite length_take. lia.
      * unfold numberOfChannels. fold m. lia.
      * rewrite Hbus. f_equal. now rewrite app_assoc, take_drop.
    + simpl. apply IH; [exact Hold | lia | exact Hbus].
Qed.

Lemma countInputs_spec (n : ChannelMergerNode) (k : nat) :
  forall a total,
    a + k <= numberOfInputs n ->
    forEach (countInput n) (seq a k) total =
      Ok (total + length (connectedChannels (take k (drop a (m_inputs n))))).
Proof.
  induction k as [|k IH]; intros a total Ha.
  - simpl. now rewrite Nat.add_0_r.
  - destruct (input_in_range n a k Ha) as (source & Hsource & Htake).
    rewrite Htake. simpl seq. simpl forEach.
    unfold countInput at 1. rewrite Hsource. simpl.
    rewrite IH by lia. unfold connectedChannels. simpl.
    rewrite length_app. unfold numberOfChannels.
    destruct (isConnected source); simpl; f_equal; lia.
Qed.

Lemma ASSERT_holds (condition : bool) :
  assertionsEnabled = false \/ condition = true ->
  ASSERT assertionsEnabled condition = Ok tt.
Proof. unfold ASSERT. intros [-> | ->]; [reflexivity | now rewrite andb_false_r]. Qed.


(** *** When the merge does not fit *)

Lemma mergeChannel_shape (source : AudioNodeInput) st j st' :
  mergeChannel source st j = Ok st' ->
  numberOfChannels (fst st') = numberOfChannels (fst st)
  /\ busLength (fst st') = busLength (fst st).
Proof.
  clear. destruct st as [bus idx]. unfold mergeChannel.
  destruct (channel (inputBus source) j); simpl; try discriminate.
  destruct (channel bus idx); simpl; try discriminate.
  intros [= <-]. unfold numberOfChannels. simpl. now rewrite length_insert.
Qed.

Lemma mergeInput_shape (n : ChannelMergerNode) st i st' :
  mergeInput n st i = Ok st' ->
  numberOfChannels (fst st') = numberOfChannels (fst st)
  /\ busLength (fst st') = busLength (fst st).
Proof.
  clear. unfold mergeInput. destruct (deref (input n i)) as [source| | | |]; simpl;
    try discriminate.
  destruct (isConnected source); [|now intros [= <-]].
  intros Hrun.
  refine (forEach_preserves
            (fun s => numberOfChannels (fst s) = numberOfChannels (fst st)
                      /\ busLength (fst s) = busLength (fst st))
            (mergeChannel source) _ _ st st' (conj eq_refl eq_refl) Hrun).
  intros s j s' _ [Hc Hl] Hstep. apply mergeChannel_shape in Hstep as [Hc' Hl'].
  split; congruence.
Qed.

(** The inner loop runs out of output channels when the source has more
    channels left than the output bus has slots left. *)
Lemma mergeChannels_overflow (source : AudioNodeInput) (k : nat) :
  forall a bus idx,
    a + k <= numberOfChannels (inputBus source) ->
    idx <= numberOfChannels bus ->
    numberOfChannels bus < idx + k ->
    forEach (mergeChannel source) (seq a k) (bus, idx) = OutOfBounds.
Proof.
  clear. unfold numberOfChannels.
  induction k as [|k IH]; intros a bus idx Ha Hidx Hover; [lia|].
  destruct (channels (inputBus source) !! a) as [c|] eqn:Hc;
    [|apply lookup_ge_None in Hc; lia].
  simpl. unfold channel at 1. rewrite Hc. simpl. unfold channel at 1.
  destruct (channels bus !! idx) as [old|] eqn:Hold; simpl; [|reflexivity].
  apply lookup_lt_Some in Hold.
  apply IH; simpl; rewrite ?length_insert; lia.
Qed.

(** The inner loop on a source that fits. *)
Lemma mergeChannels_fits (source : AudioNodeInput) bus idx :
  idx + numberOfChannels (inputBus source) <= numberOfChannels bus ->
  exists bus',
    forEach (mergeChannel source) (seq 0 (numberOfChannels (inputBus source))) (bus, idx)
    = Ok (bus', idx + numberOfChannels (inputBus source))
    /\ numberOfChannels bus' = numberOfChannels bus.
Proof.
  clear. intros Hfit. set (m := numberOfChannels (inputBus source)) in *.
  unfold numberOfChannels in Hfit.
  pose proof (mergeChannels_spec source m 0 bus (take idx (channels bus))
                (take m (drop idx (channels bus))) (drop (idx + m) (channels bus))) as H.
  assert (Hidx : length (take idx (channels bus)) = idx) by (rewrite length_take; lia).
  rewrite !Hidx in H.
  eexists. split.
  - apply H.
    + rewrite length_take, length_drop. lia.
    + unfold m. lia.
    + rewrite <- drop_drop, take_drop, take_drop. reflexivity.
  - unfold numberOfChannels. simpl. rewrite !length_app, Hidx, length_take, !length_drop.
    unfold m, numberOfChannels in *. lia.
Qed.

(** The outer loop runs out of output channels when the connected inputs
    that are left have more channels than the output bus has slots left. *)
Lemma mergeInputs_overflow (n : ChannelMergerNode) (k : nat) :
  forall a bus idx,
    a + k <= numberOfInputs n ->
    idx <= numberOfChannels bus ->
    numberOfChannels bus < idx + length (connectedChannels (take k (drop a (m_inputs n)))) ->
    forEach (mergeInput n) (seq a k) (bus, idx) = OutOfBounds.
Proof.
  clear. induction k as [|k IH]; intros a bus idx Ha Hidx Hover; [simpl in Hover; lia|].
  destruct (input_in_range n a k Ha) as (source & Hsource & Htake).
  rewrite Htake in Hover. simpl seq. simpl forEach.
  unfold mergeInput at 1. rewrite Hsource. simpl.
  unfold connectedChannels in Hover. simpl in Hover.
  fold (connectedChannels (take k (drop (S a) (m_inputs n)))) in Hover.
  destruct (isConnected source).
  - rewrite length_app in Hover.
    change (length (channels (inputBus source)))
      with (numberOfChannels (inputBus source)) in Hover.
    destruct (Nat.le_gt_cases (idx + numberOfChannels (inputBus source))
                (numberOfChannels bus)) as [Hfit|Hnofit].
    + destruct (mergeChannels_fits source bus idx Hfit) as (bus' & -> & Hsame).
      simpl. apply IH; [lia | lia | lia].
    + rewrite mergeChannels_overflow; [reflexivity | lia | exact Hidx | exact Hnofit].
  - simpl. apply IH; [lia | exact Hidx | exact Hover].
Qed.

Lemma process_merge (n : ChannelMergerNode) (out : AudioNodeOutput) bufferSize offset count :
  output n 0 = Some out ->
  assertionsEnabled = false \/ bufferSize = Z.of_nat (busLength (outputBus out)) ->
  m_desiredNumberOfOutputChannels n = appliedNumberOfChannels out ->
  process n bufferSize offset count =
    do merged <- forEach (mergeInput n) (seq 0 (numberOfInputs n)) (outputBus out, 0);
    check ASSERT assertionsEnabled (snd merged =? appliedNumberOfChannels out)%nat;
    Ok (setOutput 0 (setOutputBus (fst merged) out) n).
Proof.
  clear. intros Hout Hlen Heq. unfold process. rewrite Hout. simpl.
  rewrite ASSERT_holds by (destruct Hlen as [?| ->]; [now left | right; apply Z.eqb_refl]).
  simpl. apply Nat.eqb_eq in Heq. now rewrite Heq.
Qed.

Lemma mergeInputs_all (n : ChannelMergerNode) (bus : AudioBus) :
  length (connectedChannels (m_inputs n)) <= numberOfChannels bus ->
  forEach (mergeInput n) (seq 0 (numberOfInputs n)) (bus, 0) =
    Ok ({| channels := connectedChannels (m_inputs n)
                       ++ drop (length (connectedChannels (m_inputs n))) (channels bus);
           busLength := busLength bus |},
        length (connectedChannels (m_inputs n))).
Proof.
  clear. intros Hfit. set (total := length (connectedChannels (m_inputs n))) in *.
  assert (Hall : take (numberOfInputs n) (drop 0 (m_inputs n)) = m_inputs n)
    by (rewrite drop_0; apply take_ge; unfold numberOfInputs; lia).
  assert (Htake : length (take total (channels bus)) = total)
    by (rewrite length_take; unfold numberOfChannels in Hfit; lia).
  pose proof (mergeInputs_spec n (numberOfInputs n) 0 bus []
                (take total (channels bus)) (drop total (channels bus))) as Hmerge.
  rewrite Hall in Hmerge.
  specialize (Hmerge Htake ltac:(lia) ltac:(simpl; now rewrite take_drop)).
  cbn [length app Nat.add] in Hmerge. rewrite Hmerge. now rewrite Htake.
Qed.

(** X8.  When [process] merges (the desired channel count is the applied
    one) and the connected inputs have more channels than the output bus,
    the merge asks the bus for a channel past its last one.  When they have
    fewer channels than the output was told to have, a build that keeps
    assertions stops on the closing [ASSERT].  A [bufferSize] other than the
    length of the output bus stops such a build on the opening one. *)
Theorem merge_fails_when_the_channel_counts_disagree
    (n : ChannelMergerNode) (out : AudioNodeOutput) bufferSize offset count :
  output n 0 = Some out ->
  let total := length (connectedChannels (m_inputs n)) in
  (assertionsEnabled = true -> bufferSize <> Z.of_nat (busLength (outputBus out)) ->
     process n bufferSize offset count = AssertionFailure)
  /\ (assertionsEnabled = false \/ bufferSize = Z.of_nat (busLength (outputBus out)) ->
      m_desiredNumberOfOutputChannels n = appliedNumberOfChannels out ->
      (numberOfChannels (outputBus out) < total ->
         process n bufferSize offset count = OutOfBounds)
      /\ (total <= numberOfChannels (outputBus out) ->
          assertionsEnabled = true -> total <> appliedNumberOfChannels out ->
          process n bufferSize offset count = AssertionFailure)).
Proof.
  clear. intros Hout total. split.
  - intros Hbuild Hne. unfold process. rewrite Hout. simpl. unfold ASSERT.
    rewrite Hbuild. apply Z.eqb_neq in Hne. now rewrite Hne.
  - intros Hlen Heq. rewrite (process_merge n out _ _ _ Hout Hlen Heq). split.
    + intros Hover. rewrite mergeInputs_overflow; [reflexivity | lia | lia |].
      rewrite drop_0, take_ge by (unfold numberOfInputs; lia). simpl. exact Hover.
    + intros Hfit Hbuild Hne. rewrite mergeInputs_all by exact Hfit. simpl.
      unfold ASSERT. rewrite Hbuild. fold total. apply Nat.eqb_neq in Hne.
      now rewrite Hne.
Qed.

(** X9.  [process] writes samples and nothing else: the inputs, the desired
    channel count, the outputs other than output 0, and of output 0 the
    applied channel count, the number of channels of its bus and the length
    of its bus are what they were. *)
Theorem process_writes_samples_only (n n' : ChannelMergerNode) bufferSize offset count :
  process n bufferSize offset count = Ok n' ->
  m_inputs n' = m_inputs n
  /\ m_desiredNumberOfOutputChannels n' = m_desiredNumberOfOutputChannels n
  /\ (forall i, i <> 0 -> output n' i = output n i)
  /\ exists out out',
       output n 0 = Some out /\ output n' 0 = Some out'
       /\ appliedNumberOfChannels out' = appliedNumberOfChannels out
       /\ numberOfChannels (outputBus out') = numberOfChannels (outputBus out)
       /\ busLength (outputBus out') = busLength (outputBus out).
Proof.
  clear. unfold process. destruct (output n 0) as [out|] eqn:Hout; simpl; [|discriminate].
  destruct (ASSERT _ _); simpl; try discriminate.
  assert (Hset : forall bus,
            numberOfChannels bus = numberOfChannels (outputBus out) ->
            busLength bus = busLength (outputBus out) ->
            let n' := setOutput 0 (setOutputBus bus out) n in
            m_inputs n' = m_inputs n
            /\ m_desiredNumberOfOutputChannels n' = m_desiredNumberOfOutputChannels n
            /\ (forall i, i <> 0 -> output n' i = output n i)
            /\ exists out0 out',
                 Some out = Some out0 /\ output n' 0 = Some out'
                 /\ appliedNumberOfChannels out' = appliedNumberOfChannels out0
                 /\ numberOfChannels (outputBus out') = numberOfChannels (outputBus out0)
                 /\ busLength (outputBus out') = busLength (outputBus out0)).
  { intros bus Hc Hl. simpl. split; [reflexivity|]. split; [reflexivity|]. split.
    - intros i Hi. unfold output. simpl. now apply list_lookup_insert_ne.
    - exists out, (setOutputBus bus out). split; [reflexivity|]. split.
      + unfold output in *. simpl. apply list_lookup_insert_eq.
        now apply lookup_lt_Some in Hout.
      + simpl. auto. }
  destruct (negb _).
  - intros [= <-]. apply Hset; [apply zero_numberOfChannels | reflexivity].
  - destruct (forEach (mergeInput n) _ _) as [merged| | | |] eqn:Hmerge; simpl;
      try discriminate.
    destruct (ASSERT _ _); simpl; try discriminate. intros [= <-].
    assert (Hshape : numberOfChannels (fst merged) = numberOfChannels (outputBus out)
                     /\ busLength (fst merged) = busLength (outputBus out)).
    { refine (forEach_preserves
                (fun s => numberOfChannels (fst s) = numberOfChannels (outputBus out)
                          /\ busLength (fst s) = busLength (outputBus out))
                (mergeInput n) _ _ (outputBus out, 0) merged (conj eq_refl eq_refl) Hmerge).
      intros s i s' _ [Hc Hl] Hstep. apply mergeInput_shape in Hstep as [Hc' Hl'].
      split; congruence. }
    now apply Hset.
Qed.

Lemma connectedChannels_updateInternalBus (inputs : list AudioNodeInput) (i : nat) :
  (forall source, isConnected (updateInternalBus source) = isConnected source
                  /\ channels (inputBus (updateInternalBus source))
                     = channels (inputBus source)) ->
  connectedChannels (alter updateInternalBus i inputs) = connectedChannels inputs.
Proof.
  intros Hupdate. unfold connectedChannels. revert i.
  induction inputs as [|source sources IH]; intros i; [reflexivity|].
  destruct i as [|i]; simpl.
  - destruct (Hupdate source) as [-> ->]. reflexivity.
  - f_equal. apply IH.
Qed.

(** X10.  Reconfigure, then render.  With ports that apply a new channel
    count at once, and whose bus update leaves an input's channels and
    connections as they are, [checkNumberOfChannelsForInput] followed by
    [process] leaves in the output bus exactly the channels of the connected
    inputs, in input order, nothing more: no stale channel, and no
    [ASSERT] that stops the build. *)
Theorem reconfigured_merger_outputs_the_connected_channels
    (n : ChannelMergerNode) (out : AudioNodeOutput) changed offset count :
  output n 0 = Some out ->
  (forall c o, appliedNumberOfChannels (setNumberOfChannels c o) = c
               /\ numberOfChannels (outputBus (setNumberOfChannels c o)) = c) ->
  (forall i, isConnected (updateInternalBus i) = isConnected i
             /\ channels (inputBus (updateInternalBus i)) = channels (inputBus i)) ->
  let total := length (connectedChannels (m_inputs n)) in
  exists n1 n2 out2,
    checkNumberOfChannelsForInput n changed = Ok n1
    /\ process n1 (Z.of_nat (busLength (outputBus (setNumberOfChannels total out))))
         offset count = Ok n2
    /\ output n2 0 = Some out2
    /\ channels (outputBus out2) = connectedChannels (m_inputs n)
    /\ m_desiredNumberOfOutputChannels n2 = total
    /\ appliedNumberOfChannels out2 = total.
Proof.
  intros Hout Hset Hupdate total.
  assert (Hlt : 0 < length (m_outputs n)) by (apply lookup_lt_Some in Hout; exact Hout).
  assert (Hall : take (numberOfInputs n) (drop 0 (m_inputs n)) = m_inputs n)
    by (rewrite drop_0; apply take_ge; unfold numberOfInputs; lia).
  unfold checkNumberOfChannelsForInput.
  rewrite countInputs_spec by lia. rewrite Hall. simpl. rewrite Hout. simpl.
  fold total. set (out1 := setNumberOfChannels total out).
  set (n1 := AudioNode_checkNumberOfChannelsForInput changed _).
  destruct (Hset total out) as [Happlied Hchannels]. fold out1 in Happlied, Hchannels.
  assert (Hout1 : output n1 0 = Some out1).
  { unfold n1, output. destruct changed; simpl; now apply list_lookup_insert_eq. }
  assert (Hdesired : m_desiredNumberOfOutputChannels n1 = total)
    by (unfold n1; now destruct changed).
  assert (Hinputs : connectedChannels (m_inputs n1) = connectedChannels (m_inputs n)).
  { unfold n1. destruct changed as [i|]; simpl; [|reflexivity].
    now apply connectedChannels_updateInternalBus. }
  exists n1. rewrite (process_merge n1 out1 _ _ _ Hout1 (or_intror eq_refl))
    by congruence.
  rewrite mergeInputs_all by (rewrite Hinputs; fold total; lia).
  rewrite Hinputs. fold total. cbn [bind fst snd].
  rewrite ASSERT_holds by (right; apply Nat.eqb_eq; congruence). cbn [bind].
  eexists. eexists. split; [reflexivity|]. split; [reflexivity|]. split.
  - unfold output. simpl. apply list_lookup_insert_eq.
    unfold n1. destruct changed; simpl; rewrite length_insert; exact Hlt.
  - simpl. split; [|split; [exact Hdesired | exact Happlied]].
    rewrite drop_ge by (unfold numberOfChannels in Hchannels; lia).
    apply app_nil_r.
Qed.

(** X11.  Until the output applies the new count.  With a port that only
    takes note of a new channel count, a reconfiguration that changes the
    count is followed by silence: [process] sees that the desired count is
    not the applied one, zeroes the output bus and merges nothing. *)
Theorem merger_is_silent_until_the_count_is_applied
    (n : ChannelMergerNode) (out : AudioNodeOutput) changed offset count :
  output n 0 = Some out ->
  (forall c o, appliedNumberOfChannels (setNumberOfChannels c o) = appliedNumberOfChannels o
               /\ outputBus (setNumberOfChannels c o) = outputBus o) ->
  length (connectedChannels (m_inputs n)) <> appliedNumberOfChannels out ->
  exists n1 n2 out2,
    checkNumberOfChannelsForInput n changed = Ok n1
    /\ m_desiredNumberOfOutputChannels n1 = length (connectedChannels (m_inputs n))
    /\ process n1 (Z.of_nat (busLength (outputBus out))) offset count = Ok n2
    /\ output n2 0 = Some out2
    /\ outputBus out2 = zero (outputBus out)
    /\ Forall silent (channels (outputBus out2)).
Proof.
  intros Hout Hset Hne.
  assert (Hlt : 0 < length (m_outputs n)) by (apply lookup_lt_Some in Hout; exact Hout).
  assert (Hall : take (numberOfInputs n) (drop 0 (m_inputs n)) = m_inputs n)
    by (rewrite drop_0; apply take_ge; unfold numberOfInputs; lia).
  unfold checkNumberOfChannelsForInput.
  rewrite countInputs_spec by lia. rewrite Hall. simpl. rewrite Hout. simpl.
  set (total := length (connectedChannels (m_inputs n))) in *.
  set (out1 := setNumberOfChannels total out).
  set (n1 := AudioNode_checkNumberOfChannelsForInput changed _).
  destruct (Hset total out) as [Happlied Hbus]. fold out1 in Happlied, Hbus.
  assert (Hout1 : output n1 0 = Some out1).
  { unfold n1, output. destruct changed; simpl; now apply list_lookup_insert_eq. }
  assert (Hdesired : m_desiredNumberOfOutputChannels n1 = total)
    by (unfold n1; now destruct changed).
  exists n1. unfold process. rewrite Hout1. cbn [deref bind].
  rewrite ASSERT_holds by (right; rewrite Hbus; apply Z.eqb_refl). cbn [bind].
  rewrite Hdesired, Happlied. apply Nat.eqb_neq in Hne. rewrite Hne. cbn [negb].
  eexists. eexists. split; [reflexivity|]. split; [reflexivity|].
  split; [reflexivity|]. split.
  - unfold output. simpl. apply list_lookup_insert_eq.
    unfold n1. destruct changed; simpl; rewrite length_insert; exact Hlt.
  - simpl. rewrite Hbus. split; [reflexivity | apply zero_silent].
Qed.

End Node.

(** *** The merger on the spec's example: inputs of 2, 1 and 3 channels *)

Definition tone (x : float) : AudioChannel := [x; x].

Definition stereoInput : AudioNodeInput :=
  {| connectedOutputs := [1%N];
     inputBus := {| channels := [tone 1; tone 2]; busLength := 2 |} |}.
Definition monoInput : AudioNodeInput :=
  {| connectedOutputs := [2%N];
     inputBus := {| channels := [tone 3]; busLength := 2 |} |}.
Definition unconnectedInput : AudioNodeInput :=
  {| connectedOutputs := [];
     inputBus := {| channels := [tone 9]; busLength := 2 |} |}.
Definition threeChannelInput : AudioNodeInput :=
  {| connectedOutputs := [3%N; 4%N];
     inputBus := {| channels := [tone 4; tone 5; tone 6]; busLength := 2 |} |}.

Definition sixChannelOutput : AudioNodeOutput :=
  {| appliedNumberOfChannels := 6;
     outputBus := {| channels := repeat (tone 0) 6; busLength := 2 |} |}.

Definition merger (desired : nat) : ChannelMergerNode :=
  {| m_inputs := [stereoInput; monoInput; unconnectedInput; threeChannelInput];
     m_outputs := [sixChannelOutput];
     m_desiredNumberOfOutputChannels := desired |}.

(** A merger whose output still has the four channels of an earlier
    configuration. *)
Definition fourChannelOutput : AudioNodeOutput :=
  {| appliedNumberOfChannels := 4;
     outputBus := {| channels := repeat (tone 7) 4; busLength := 2 |} |}.

Definition staleMerger : ChannelMergerNode :=
  {| m_inputs := [stereoInput; monoInput; unconnectedInput; threeChannelInput];
     m_outputs := [fourChannelOutput];
     m_desiredNumberOfOutputChannels := 4 |}.

(** A port layer that takes note of a new channel count and applies it
    later. *)
Definition resizeLater (count : nat) (o : AudioNodeOutput) : AudioNodeOutput := o.

(** A port layer that applies a new channel count at once. *)
Definition resizeNow (count : nat) (o : AudioNodeOutput) : AudioNodeOutput :=
  {| appliedNumberOfChannels := count;
     outputBus := {| channels := repeat (repeat 0%float (busLength (outputBus o))) count;
                     busLength := busLength (outputBus o) |} |}.

Example merger_settles_on_six_channels :
  (do n <- checkNumberOfChannelsForInput resizeNow (fun i => i) (merger 1) (Some 0);
   Ok (m_desiredNumberOfOutputChannels n, appliedNumberOfChannels <$> output n 0))
  = Ok (6, Some 6).
Proof. reflexivity. Qed.

Example merger_in_input_order :
  (do n <- process true (merger 6) 2 0 2;
   Ok (channels <$> (outputBus <$> output n 0)))
  = Ok (Some [tone 1; tone 2; tone 3; tone 4; tone 5; tone 6]).
Proof. reflexivity. Qed.

Example merger_silent_until_applied :
  (do n <- process true (merger 4) 2 0 2;
   Ok (channels <$> (outputBus <$> output n 0)))
  = Ok (Some (repeat (tone 0) 6)).
Proof. reflexivity. Qed.


Lemma merge_fails_when_the_channel_counts_disagree_witness :
  process true staleMerger 2 0 2 = OutOfBounds.
Proof.
  destruct (merge_fails_when_the_channel_counts_disagree true staleMerger
              fourChannelOutput 2%Z 0%Z 2%Z eq_refl) as (_ & H).
  destruct (H (or_intror eq_refl) eq_refl) as (Hover & _).
  apply Hover. vm_compute. lia.
Defined.

Lemma process_writes_samples_only_witness :
  exists n', process true (merger 6) 2 0 2 = Ok n' /\ m_inputs n' = m_inputs (merger 6).
Proof.
  eexists. split; [reflexivity|].
  exact (proj1 (process_writes_samples_only true (merger 6) _ 2%Z 0%Z 2%Z eq_refl)).
Defined.

Lemma reconfigured_merger_outputs_the_connected_channels_witness :
  exists n1 n2 out2,
    checkNumberOfChannelsForInput resizeNow (fun i => i) staleMerger (Some 0) = Ok n1
    /\ process true n1 2 0 2 = Ok n2
    /\ output n2 0 = Some out2
    /\ channels (outputBus out2) = [tone 1; tone 2; tone 3; tone 4; tone 5; tone 6].
Proof.
  destruct (reconfigured_merger_outputs_the_connected_channels true resizeNow
              (fun i => i) staleMerger fourChannelOutput (Some 0) 0%Z 2%Z eq_refl)
    as (n1 & n2 & out2 & Hcheck & Hprocess & Hout & Hchannels & _).
  - intros c o. split; [reflexivity|].
    unfold numberOfChannels. simpl. apply List.repeat_length.
  - intros i. split; reflexivity.
  - exists n1, n2, out2. split; [exact Hcheck|]. split; [exact Hprocess|].
    split; [exact Hout | exact Hchannels].
Defined.

Lemma merger_is_silent_until_the_count_is_applied_witness :
  exists n1 n2 out2,
    checkNumberOfChannelsForInput resizeLater (fun i => i) staleMerger (Some 0) = Ok n1
    /\ m_desiredNumberOfOutputChannels n1 = 6
    /\ process true n1 2 0 2 = Ok n2
    /\ output n2 0 = Some out2
    /\ channels (outputBus out2) = repeat (tone 0) 4.
Proof.
  destruct (merger_is_silent_until_the_count_is_applied true resizeLater
              (fun i => i) staleMerger fourChannelOutput (Some 0) 0%Z 2%Z eq_refl)
    as (n1 & n2 & out2 & Hcheck & Hdesired & Hprocess & Hout & Hbus & _).
  - intros c o. split; reflexivity.
  - vm_compute. lia.
  - exists n1, n2, out2. split; [exact Hcheck|]. split; [exact Hdesired|].
    split; [exact Hprocess|]. split; [exact Hout|]. now rewrite Hbus.
Defined.

End ChannelMergerNode.

(** ** Modules/webaudio/AudioNode.cpp *)

Module AudioNode.

(** *** Data *)

(** [enum NodeType] of [AudioNode.h]; only the kinds this file tells apart
    are named. *)
Inductive NodeType : Type :=
| NodeTypeUnknown
| NodeTypeConvolver
| NodeTypeDelay
| NodeTypeOther (kind : nat).

(** [enum RefType { RefTypeNormal, RefTypeConnection }] *)
Inductive RefType : Type := RefTypeNormal | RefTypeConnection.

Inductive ExceptionCode : Type := INDEX_SIZE_ERR | SYNTAX_ERR.

(** A node is addressed by its index in the graph's arena, a port by its
    node and its slot in the node's port array. *)
Abbreviation NodeRef := nat (only parsing).
Abbreviation PortRef := (nat * nat)%type (only parsing).

Definition PortRef_eqb (a b : PortRef) : bool :=
  (fst a =? fst b)%nat && (snd a =? snd b)%nat.

(** Modelled from the spec: [class AudioNodeOutput] is absent from the
    sources.  An Output has a "fan-out set of connected Inputs", an
    "enabled/dormant flag" and a cached buffer, of which the scheduler reads
    and writes the silent flag. *)
Record AudioNodeOutput : Type := mkAudioNodeOutput {
  out_inputs : list PortRef;
  out_isEnabled : bool;
  out_busIsSilent : bool
}.

(** Modelled from the spec: [class AudioNodeInput] is absent from the
    sources.  An Input has an "ordered set of connected Outputs" and "a
    merged internal buffer view", of which the scheduler reads the silent
    flag. *)
Record AudioNodeInput : Type := mkAudioNodeInput {
  in_outputs : list PortRef;
  in_busIsSilent : bool
}.

(** The members of [class AudioNode]; the two counters are [int]s.
    [latencyTime()] and [tailTime()] are virtual and constant per node. *)
Record AudioNode : Type := mkAudioNode {
  m_isInitialized : bool;
  m_nodeType : NodeType;
  m_sampleRate : float;
  m_lastProcessingTime : float;
  m_lastNonSilentTime : float;
  m_normalRefCount : Z;
  m_connectionRefCount : Z;
  m_isMarkedForDeletion : bool;
  m_isDisabled : bool;
  m_inputCount : nat;
  m_outputCount : nat;
  m_inputs : list (option AudioNodeInput);
  m_outputs : list (option AudioNodeOutput);
  latencyTime : float;
  tailTime : float
}.

Definition set_m_isInitialized (v : bool) (node : AudioNode) : AudioNode :=
  {| m_isInitialized := v;
     m_nodeType := m_nodeType node;
     m_sampleRate := m_sampleRate node;
     m_lastProcessingTime := m_lastProcessingTime node;
     m_lastNonSilentTime := m_lastNonSilentTime node;
     m_normalRefCount := m_normalRefCount node;
     m_connectionRefCount := m_connectionRefCount node;
     m_isMarkedForDeletion := m_isMarkedForDeletion node;
     m_isDisabled := m_isDisabled node;
     m_inputCount := m_inputCount node;
     m_outputCount := m_outputCount node;
     m_inputs := m_inputs node;
     m_outputs := m_outputs node;
     latencyTime := latencyTime node;
     tailTime := tailTime node |}.

Definition set_m_nodeType (v : NodeType) (node : AudioNode) : AudioNode :=
  {| m_isInitialized := m_isInitialized node;
     m_nodeType := v;
     m_sampleRate := m_sampleRate node;
     m_lastProcessingTime := m_lastProcessingTime node;
     m_lastNonSilentTime := m_lastNonSilentTime node;
     m_normalRefCount := m_normalRefCount node;
     m_connectionRefCount := m_connectionRefCount node;
     m_isMarkedForDeletion := m_isMarkedForDeletion node;
     m_isDisabled := m_isDisabled node;
     m_inputCount := m_inputCount node;
     m_outputCount := m_outputCount node;
     m_inputs := m_inputs node;
     m_outputs := m_outputs node;
     latencyTime := latencyTime node;
     tailTime := tailTime node |}.

Definition set_m_lastProcessingTime (v : float) (node : AudioNode) : AudioNode :=
  {| m_isInitialized := m_isInitialized node;
     m_nodeType := m_nodeType node;
     m_sampleRate := m_sampleRate node;
     m_lastProcessingTime := v;
     m_lastNonSilentTime := m_lastNonSilentTime node;
     m_normalRefCount := m_normalRefCount node;
     m_connectionRefCount := m_connectionRefCount node;
     m_isMarkedForDeletion := m_isMarkedForDeletion node;
     m_isDisabled := m_isDisabled node;
     m_inputCount := m_inputCount node;
     m_outputCount := m_outputCount node;
     m_inputs := m_inputs node;
     m_outputs := m_outputs node;
     latencyTime := latencyTime node;
     tailTime := tailTime node |}.

Definition set_m_lastNonSilentTime (v : float) (node : AudioNode) : AudioNode :=
  {| m_isInitialized := m_isInitialized node;
     m_nodeType := m_nodeType node;
     m_sampleRate := m_sampleRate node;
     m_lastProcessingTime := m_lastProcessingTime node;
     m_lastNonSilentTime := v;
     m_normalRefCount := m_normalRefCount node;
     m_connectionRefCount := m_connectionRefCount node;
     m_isMarkedForDeletion := m_isMarkedForDeletion node;
     m_isDisabled := m_isDisabled node;
     m_inputCount := m_inputCount node;
     m_outputCount := m_outputCount node;
     m_inputs := m_inputs node;
     m_outputs := m_outputs node;
     latencyTime := latencyTime node;
     tailTime := tailTime node |}.

Definition set_m_normalRefCount (v : Z) (node : AudioNode) : AudioNode :=
  {| m_isInitialized := m_isInitialized node;
     m_nodeType := m_nodeType node;
     m_sampleRate := m_sampleRate node;
     m_lastProcessingTime := m_lastProcessingTime node;
     m_lastNonSilentTime := m_lastNonSilentTime node;
     m_normalRefCount := v;
     m_connectionRefCount := m_connectionRefCount node;
     m_isMarkedForDeletion := m_isMarkedForDeletion node;
     m_isDisabled := m_isDisabled node;
     m_inputCount := m_inputCount node;
     m_outputCount := m_outputCount node;
     m_inputs := m_inputs node;
     m_outputs := m_outputs node;
     latencyTime := latencyTime node;
     tailTime := tailTime node |}.

Definition set_m_connectionRefCount (v : Z) (node : AudioNode) : AudioNode :=
  {| m_isInitialized := m_isInitialized node;
     m_nodeType := m_nodeType node;
     m_sampleRate := m_sampleRate node;
     m_lastProcessingTime := m_lastProcessingTime node;
     m_lastNonSilentTime := m_lastNonSilentTime node;
     m_normalRefCount := m_normalRefCount node;
     m_connectionRefCount := v;
     m_isMarkedForDeletion := m_isMarkedForDeletion node;
     m_isDisabled := m_isDisabled node;
     m_inputCount := m_inputCount node;
     m_outputCount := m_outputCount node;
     m_inputs := m_inputs node;
     m_outputs := m_outputs node;
     latencyTime := latencyTime node;
     tailTime := tailTime node |}.

Definition set_m_isMarkedForDeletion (v : bool) (node : AudioNode) : AudioNode :=
  {| m_isInitialized := m_isInitialized node;
     m_nodeType := m_nodeType node;
     m_sampleRate := m_sampleRate node;
     m_lastProcessingTime := m_lastProcessingTime node;
     m_lastNonSilentTime := m_lastNonSilentTime node;
     m_normalRefCount := m_normalRefCount node;
     m_connectionRefCount := m_connectionRefCount node;
     m_isMarkedForDeletion := v;
     m_isDisabled := m_isDisabled node;
     m_inputCount := m_inputCount node;
     m_outputCount := m_outputCount node;
     m_inputs := m_inputs node;
     m_outputs := m_outputs node;
     latencyTime := latencyTime node;
     tailTime := tailTime node |}.

Definition set_m_isDisabled (v : bool) (node : AudioNode) : AudioNode :=
  {| m_isInitialized := m_isInitialized node;
     m_nodeType := m_nodeType node;
     m_sampleRate := m_sampleRate node;
     m_lastProcessingTime := m_lastProcessingTime node;
     m_lastNonSilentTime := m_lastNonSilentTime node;
     m_normalRefCount := m_normalRefCount node;
     m_connectionRefCount := m_connectionRefCount node;
     m_isMarkedForDeletion := m_isMarkedForDeletion node;
     m_isDisabled := v;
     m_inputCount := m_inputCount node;
     m_outputCount := m_outputCount node;
     m_inputs := m_inputs node;
     m_outputs := m_outputs node;
     latencyTime := latencyTime node;
     tailTime := tailTime node |}.

Definition set_m_inputCount (v : nat) (node : AudioNode) : AudioNode :=
  {| m_isInitialized := m_isInitialized node;
     m_nodeType := m_nodeType node;
     m_sampleRate := m_sampleRate node;
     m_lastProcessingTime := m_lastProcessingTime node;
     m_lastNonSilentTime := m_lastNonSilentTime node;
     m_normalRefCount := m_normalRefCount node;
     m_connectionRefCount := m_connectionRefCount node;
     m_isMarkedForDeletion := m_isMarkedForDeletion node;
     m_isDisabled := m_isDisabled node;
     m_inputCount := v;
     m_outputCount := m_outputCount node;
     m_inputs := m_inputs node;
     m_outputs := m_outputs node;
     latencyTime := latencyTime node;
     tailTime := tailTime node |}.

Definition set_m_outputCount (v : nat) (node : AudioNode) : AudioNode :=
  {| m_isInitialized := m_isInitialized node;
     m_nodeType := m_nodeType node;
     m_sampleRate := m_sampleRate node;
     m_lastProcessingTime := m_lastProcessingTime node;
     m_lastNonSilentTime := m_lastNonSilentTime node;
     m_normalRefCount := m_normalRefCount node;
     m_connectionRefCount := m_connectionRefCount node;
     m_isMarkedForDeletion := m_isMarkedForDeletion node;
     m_isDisabled := m_isDisabled node;
     m_inputCount := m_inputCount node;
     m_outputCount := v;
     m_inputs := m_inputs node;
     m_outputs := m_outputs node;
     latencyTime := latencyTime node;
     tailTime := tailTime node |}.

Definition set_m_inputs (v : list (option AudioNodeInput)) (node : AudioNode) : AudioNode :=
  {| m_isInitialized := m_isInitialized node;
     m_nodeType := m_nodeType node;
     m_sampleRate := m_sampleRate node;
     m_lastProcessingTime := m_lastProcessingTime node;
     m_lastNonSilentTime := m_lastNonSilentTime node;
     m_normalRefCount := m_normalRefCount node;
     m_connectionRefCount := m_connectionRefCount node;
     m_isMarkedForDeletion := m_isMarkedForDeletion node;
     m_isDisabled := m_isDisabled node;
     m_inputCount := m_inputCount node;
     m_outputCount := m_outputCount node;
     m_inputs := v;
     m_outputs := m_outputs node;
     latencyTime := latencyTime node;
     tailTime := tailTime node |}.

Definition set_m_outputs (v : list (option AudioNodeOutput)) (node : AudioNode) : AudioNode :=
  {| m_isInitialized := m_isInitialized node;
     m_nodeType := m_nodeType node;
     m_sampleRate := m_sampleRate node;
     m_lastProcessingTime := m_lastProcessingTime node;
     m_lastNonSilentTime := m_lastNonSilentTime node;
     m_normalRefCount := m_normalRefCount node;
     m_connectionRefCount := m_connectionRefCount node;
     m_isMarkedForDeletion := m_isMarkedForDeletion node;
     m_isDisabled := m_isDisabled node;
     m_inputCount := m_inputCount node;
     m_outputCount := m_outputCount node;
     m_inputs := m_inputs node;
     m_outputs := v;
     latencyTime := latencyTime node;
     tailTime := tailTime node |}.

(** [AudioContext], as far as this file asks it: the time of the quantum
    being rendered, in seconds and in sample frames ([size_t]). *)
Record AudioContext : Type := mkAudioContext {
  currentTime : float;
  currentSampleFrame : Z
}.

(** [ContextRenderLock]: [r.context()] is the context or null. *)
Definition ContextRenderLock := option AudioContext.

(** The graph: the arena of nodes, and the nodes whose [process] ran, oldest
    first. *)
Record Graph : Type := mkGraph {
  nodes : list AudioNode;
  processCalls : list NodeRef
}.

Definition getNode (w : Graph) (n : NodeRef) : result AudioNode :=
  match nodes w !! n with Some node => Ok node | None => NullDereference end.

Definition updateNode (n : NodeRef) (f : AudioNode -> AudioNode) (w : Graph) : Graph :=
  {| nodes := alter f n (nodes w); processCalls := processCalls w |}.

Definition setNode (n : NodeRef) (node : AudioNode) (w : Graph) : Graph :=
  updateNode n (fun _ => node) w.

(** [int] arithmetic: [atomicIncrement] and [atomicDecrement] of
    [WTF/Atomics.h] wrap around in 32 bits. *)
Definition INT_MAX : Z := 2147483647.
Definition wrap32 (z : Z) : Z := ((z + 2147483648) mod 4294967296 - 2147483648)%Z.
Definition atomicIncrement (x : Z) : Z := wrap32 (x + 1).
Definition atomicDecrement (x : Z) : Z := wrap32 (x - 1).

(** [size_t] arithmetic wraps around in 64 bits; the conversion to [double]
    rounds to the nearest binary64 value. *)
Definition wrap64 (z : Z) : Z := (z mod 18446744073709551616)%Z.
Definition toDouble (z : Z) : float :=
  FloatOps.SF2Prim (SpecFloat.binary_normalize 53 1024 z 0 false).

Definition initialize : AudioNode -> AudioNode := set_m_isInitialized true.
Definition uninitialize : AudioNode -> AudioNode := set_m_isInitialized false.
Definition setNodeType : NodeType -> AudioNode -> AudioNode := set_m_nodeType.
Definition isInitialized : AudioNode -> bool := m_isInitialized.
Definition nodeType : AudioNode -> NodeType := m_nodeType.
Definition numberOfInputs : AudioNode -> nat := m_inputCount.
Definition numberOfOutputs : AudioNode -> nat := m_outputCount.

Definition lazyInitialize (node : AudioNode) : AudioNode :=
  if negb (isInitialized node) then initialize node else node.

Definition isTailNode (t : NodeType) : bool :=
  match t with NodeTypeConvolver | NodeTypeDelay => true | _ => false end.

Section Engine.

(** The engine-wide constants of [AudioNode.h] and the kind of build. *)
Variable AUDIONODE_MAXINPUTS : nat.
Variable AUDIONODE_MAXOUTPUTS : nat.
Variable assertionsEnabled : bool.

(** [AudioContext::connect(input, output)] and
    [AudioContext::disconnect(output)] are the context's. *)
Variable AudioContext_connect : PortRef -> PortRef -> Graph -> Graph.
Variable AudioContext_disconnect : PortRef -> Graph -> Graph.

(** A proof depends on the parameters of the engine that its statement
    names, and on no other. *)
Ltac only_stated :=
  try clear AudioContext_connect; try clear AudioContext_disconnect;
  try clear assertionsEnabled;
  try clear AUDIONODE_MAXINPUTS; try clear AUDIONODE_MAXOUTPUTS.

(** [AudioNode::AudioNode(sampleRate)]: both port arrays hold null pointers
    only.  [latency] and [tail] are what the node kind's [latencyTime()] and
    [tailTime()] return. *)
Definition newAudioNode (sampleRate latency tail : float) : AudioNode :=
  {| m_isInitialized := false; m_nodeType := NodeTypeUnknown;
     m_sampleRate := sampleRate;
     m_lastProcessingTime := (-1)%float; m_lastNonSilentTime := (-1)%float;
     m_normalRefCount := 1; m_connectionRefCount := 0;
     m_isMarkedForDeletion := false; m_isDisabled := false;
     m_inputCount := 0; m_outputCount := 0;
     m_inputs := repeat None AUDIONODE_MAXINPUTS;
     m_outputs := repeat None AUDIONODE_MAXOUTPUTS;
     latencyTime := latency; tailTime := tail |}.

(** [AudioNode::addInput] *)
Definition addInput (port : AudioNodeInput) (node : AudioNode) : result AudioNode :=
  if (m_inputCount node <? AUDIONODE_MAXINPUTS)%nat
  then Ok (set_m_inputCount (S (m_inputCount node))
             (set_m_inputs (<[m_inputCount node := Some port]> (m_inputs node)) node))
  else check ASSERT assertionsEnabled false; Ok node.

(** [AudioNode::addOutput] *)
Definition addOutput (port : AudioNodeOutput) (node : AudioNode) : result AudioNode :=
  if (m_outputCount node <? AUDIONODE_MAXOUTPUTS)%nat
  then Ok (set_m_outputCount (S (m_outputCount node))
             (set_m_outputs (<[m_outputCount node := Some port]> (m_outputs node)) node))
  else check ASSERT assertionsEnabled false; Ok node.

(** [AudioNode::input(i)] and [AudioNode::output(i)]: the slot's pointer,
    null for an empty slot and for an index past the array. *)
Definition input (node : AudioNode) (i : nat) : option AudioNodeInput :=
  if (i <? AUDIONODE_MAXINPUTS)%nat then mjoin (m_inputs node !! i) else None.

Definition output (node : AudioNode) (i : nat) : option AudioNodeOutput :=
  if (i <? AUDIONODE_MAXOUTPUTS)%nat then mjoin (m_outputs node !! i) else None.

(** Using a port through a pointer: a null one cannot be used. *)
Definition getInput (w : Graph) (p : PortRef) : result AudioNodeInput :=
  do node <- getNode w (fst p);
  match input node (snd p) with Some port => Ok port | None => NullDereference end.

Definition getOutput (w : Graph) (p : PortRef) : result AudioNodeOutput :=
  do node <- getNode w (fst p);
  match output node (snd p) with Some port => Ok port | None => NullDereference end.

Definition updateInput (p : PortRef) (f : AudioNodeInput -> AudioNodeInput) (w : Graph)
  : Graph :=
  updateNode (fst p)
    (fun node => set_m_inputs (alter (fmap f) (snd p) (m_inputs node)) node) w.

Definition updateOutput (p : PortRef) (f : AudioNodeOutput -> AudioNodeOutput) (w : Graph)
  : Graph :=
  updateNode (fst p)
    (fun node => set_m_outputs (alter (fmap f) (snd p) (m_outputs node)) node) w.

(** An operation on a port reached through the pointer [p]. *)
Definition onOutput (p : PortRef) (f : AudioNodeOutput -> AudioNodeOutput) (w : Graph)
  : result Graph :=
  check getOutput w p; Ok (updateOutput p f w).

Definition onInput (p : PortRef) (f : AudioNodeInput -> AudioNodeInput) (w : Graph)
  : result Graph :=
  check getInput w p; Ok (updateInput p f w).

(** Modelled from the spec: [AudioBus::zero()] is absent from the sources;
    it is the spec's "substitute silence into the outputs". *)
Definition AudioBus_zero (o : AudioNodeOutput) : AudioNodeOutput :=
  {| out_inputs := out_inputs o; out_isEnabled := out_isEnabled o; out_busIsSilent := true |}.

(** Modelled from the spec: [AudioBus::clearSilentFlag()] is absent from the
    sources; it is the spec's "mark outputs as not-silent". *)
Definition AudioBus_clearSilentFlag (o : AudioNodeOutput) : AudioNodeOutput :=
  {| out_inputs := out_inputs o; out_isEnabled := out_isEnabled o; out_busIsSilent := false |}.

(** Modelled from the spec: [AudioNodeOutput::enable] is absent from the
    sources; it "re-enables previously dormant outputs". *)
Definition AudioNodeOutput_enable (o : AudioNodeOutput) : AudioNodeOutput :=
  {| out_inputs := out_inputs o; out_isEnabled := true; out_busIsSilent := out_busIsSilent o |}.

(** Modelled from the spec: [AudioNodeOutput::disable] is absent from the
    sources.  A disabled output is in "a dormant state": it stays "logically
    present" (its connections stay) but stops "propagating signal". *)
Definition AudioNodeOutput_disable (o : AudioNodeOutput) : AudioNodeOutput :=
  {| out_inputs := out_inputs o; out_isEnabled := false; out_busIsSilent := out_busIsSilent o |}.

(** The loop [for (i < AUDIONODE_MAXOUTPUTS) if (auto out = output(i)) ...]
    of the node [this], with the node read afresh at every turn. *)
Definition forEachOutput (body : PortRef -> Graph -> result Graph) (this : NodeRef)
    (w : Graph) : result Graph :=
  forEach (fun w i =>
             do node <- getNode w this;
             match output node i with
             | Some _ => body (this, i) w
             | None => Ok w
             end)
          (seq 0 AUDIONODE_MAXOUTPUTS) w.

Definition forEachInput (body : PortRef -> Graph -> result Graph) (this : NodeRef)
    (w : Graph) : result Graph :=
  forEach (fun w i =>
             do node <- getNode w this;
             match input node i with
             | Some _ => body (this, i) w
             | None => Ok w
             end)
          (seq 0 AUDIONODE_MAXINPUTS) w.

(** [AudioNode::silenceOutputs] and [AudioNode::unsilenceOutputs] *)
Definition silenceOutputs : NodeRef -> Graph -> result Graph :=
  forEachOutput (fun p => onOutput p AudioBus_zero).

Definition unsilenceOutputs : NodeRef -> Graph -> result Graph :=
  forEachOutput (fun p => onOutput p AudioBus_clearSilentFlag).

(** [AudioNode::enableOutputsIfNecessary] *)
Definition enableOutputsIfNecessary (this : NodeRef) (w : Graph) : result Graph :=
  do node <- getNode w this;
  if m_isDisabled node && (0 <? m_connectionRefCount node)%Z
  then forEachOutput (fun p => onOutput p AudioNodeOutput_enable) this
         (updateNode this (set_m_isDisabled false) w)
  else Ok w.

(** [AudioNode::disableOutputsIfNecessary] *)
Definition disableOutputsIfNecessary (this : NodeRef) (w : Graph) : result Graph :=
  do node <- getNode w this;
  if (m_connectionRefCount node <=? 1)%Z && negb (m_isDisabled node)
  then
    if negb (isTailNode (nodeType node))
    then forEachOutput (fun p => onOutput p AudioNodeOutput_disable) this
           (updateNode this (set_m_isDisabled true) w)
    else Ok w
  else Ok w.

(** [AudioNode::ref] *)
Definition ref (refType : RefType) (this : NodeRef) (w : Graph) : result Graph :=
  do node <- getNode w this;
  match refType with
  | RefTypeNormal =>
      Ok (setNode this (set_m_normalRefCount (atomicIncrement (m_normalRefCount node)) node) w)
  | RefTypeConnection =>
      enableOutputsIfNecessary this
        (setNode this
           (set_m_connectionRefCount (atomicIncrement (m_connectionRefCount node)) node) w)
  end.

(** The [switch] of [AudioNode::deref]. *)
Definition decrementRefCount (refType : RefType) (node : AudioNode) : result AudioNode :=
  match refType with
  | RefTypeNormal =>
      check ASSERT assertionsEnabled (0 <? m_normalRefCount node)%Z;
      Ok (set_m_normalRefCount (atomicDecrement (m_normalRefCount node)) node)
  | RefTypeConnection =>
      check ASSERT assertionsEnabled (0 <? m_connectionRefCount node)%Z;
      Ok (set_m_connectionRefCount (atomicDecrement (m_connectionRefCount node)) node)
  end.

(** Taking the connection between the output [o] and the input [i] out of
    both ports. *)
Definition removeConnection (o i : PortRef) (w : Graph) : Graph :=
  updateInput i
    (fun port => {| in_outputs := List.filter (fun x => negb (PortRef_eqb x o)) (in_outputs port);
                    in_busIsSilent := in_busIsSilent port |})
    (updateOutput o
       (fun port => {| out_inputs := List.filter (fun x => negb (PortRef_eqb x i)) (out_inputs port);
                       out_isEnabled := out_isEnabled port;
                       out_busIsSilent := out_busIsSilent port |}) w).

Definition isConnectedTo (w : Graph) (o i : PortRef) : bool :=
  match getOutput w o with
  | Ok port => existsb (PortRef_eqb i) (out_inputs port)
  | _ => false
  end.

(** Modelled from the spec: [AudioNodeOutput::disconnectAll] is absent from
    the sources.  It is the "disconnection of all its outputs (which in turn
    derefs downstream nodes)": every input in the fan-out that is still
    connected when its turn comes is disconnected, and the node that owns it
    loses a connection reference.  [derefConnection] is
    [deref(g, RefTypeConnection)] on that node. *)
Definition AudioNodeOutput_disconnectAll
    (derefConnection : NodeRef -> Graph -> result Graph) (o : PortRef) (w : Graph)
  : result Graph :=
  do port <- getOutput w o;
  forEach (fun w i =>
             if isConnectedTo w o i
             then derefConnection (fst i) (removeConnection o i w)
             else Ok w)
          (out_inputs port) w.

(** [AudioNode::deref].  One unit of fuel per nested [deref]. *)
Fixpoint deref (fuel : nat) (refType : RefType) (this : NodeRef) (w : Graph)
  : result Graph :=
  match fuel with
  | O => OutOfFuel
  | S fuel' =>
      do node0 <- getNode w this;
      do node <- decrementRefCount refType node0;
      let w1 := setNode this node w in
      if (m_connectionRefCount node =? 0)%Z
      then
        if (m_normalRefCount node =? 0)%Z
        then
          if negb (m_isMarkedForDeletion node)
          then
            do w2 <- forEachOutput
                       (AudioNodeOutput_disconnectAll (deref fuel' RefTypeConnection))
                       this w1;
            Ok (updateNode this (set_m_isMarkedForDeletion true) w2)
          else Ok w1
        else
          match refType with
          | RefTypeConnection => disableOutputsIfNecessary this w1
          | RefTypeNormal => Ok w1
          end
      else Ok w1
  end.

(** [AudioNode::connect(context, destination, outputIndex, inputIndex, ec)]:
    the graph afterwards and what was written to [ec], if anything. *)
Definition connect (context : option AudioContext) (destination : option NodeRef)
    (outputIndex inputIndex : nat) (this : NodeRef) (w : Graph)
  : result (Graph * option ExceptionCode) :=
  match context with
  | None => Ok (w, Some SYNTAX_ERR)
  | Some _ =>
      match destination with
      | None => Ok (w, Some SYNTAX_ERR)
      | Some dest =>
          do node <- getNode w this;
          if (numberOfOutputs node <=? outputIndex)%nat
          then Ok (w, Some INDEX_SIZE_ERR)
          else
            do destNode <- getNode w dest;
            if (numberOfInputs destNode <=? inputIndex)%nat
            then Ok (w, Some INDEX_SIZE_ERR)
            else Ok (AudioContext_connect (dest, inputIndex) (this, outputIndex) w, None)
      end
  end.

(** [AudioNode::disconnect(context, outputIndex, ec)] *)
Definition disconnect (context : option AudioContext) (outputIndex : nat)
    (this : NodeRef) (w : Graph) : result (Graph * option ExceptionCode) :=
  do node <- getNode w this;
  if (numberOfOutputs node <=? outputIndex)%nat
  then Ok (w, Some INDEX_SIZE_ERR)
  else
    match context with
    | None => NullDereference
    | Some _ => Ok (AudioContext_disconnect (this, outputIndex) w, None)
    end.

(** [AudioNode::propagatesSilence(now)] *)
Definition propagatesSilence (node : AudioNode) (now : float) : bool :=
  PrimFloat.ltb
    (PrimFloat.add (PrimFloat.add (m_lastNonSilentTime node) (latencyTime node))
       (tailTime node))
    now.

(** [AudioNode::inputsAreSilent] *)
Definition inputsAreSilent (node : AudioNode) : bool :=
  forallb (fun i => match input node i with
                    | Some port => in_busIsSilent port
                    | None => true
                    end)
          (seq 0 AUDIONODE_MAXINPUTS).

(** [process(r, framesToProcess)] is pure virtual: the signal computation of
    a concrete node kind.  What the scheduler can tell of it is that it ran;
    the run is recorded. *)
Definition process (this : NodeRef) (w : Graph) : Graph :=
  {| nodes := nodes w; processCalls := processCalls w ++ [this] |}.

(** An output an input hears: enabled and not silent. *)
Definition isAudible (w : Graph) (o : PortRef) : bool :=
  match getOutput w o with
  | Ok port => out_isEnabled port && negb (out_busIsSilent port)
  | _ => false
  end.

(** Modelled from the spec: [AudioNodeInput::pull] is absent from the
    sources.  The scheduler is to "recursively pull every connected input
    (depth-first through the graph)", an Input "aggregates zero or more
    upstream Outputs into one internal buffer view", and a dormant output
    has stopped "propagating signal": the node of every enabled connected
    output is processed, in connection order, and the input's bus is silent
    when none of them has anything to say.  [processNode] is
    [processIfNecessary(r, framesToProcess)] on that node. *)
Definition AudioNodeInput_pull (processNode : NodeRef -> Graph -> result Graph)
    (p : PortRef) (w : Graph) : result Graph :=
  do port <- getInput w p;
  do w1 <- forEach (fun w o =>
                      do out <- getOutput w o;
                      if out_isEnabled out then processNode (fst o) w else Ok w)
                   (in_outputs port) w;
  onInput p (fun port' => {| in_outputs := in_outputs port';
                             in_busIsSilent := negb (existsb (isAudible w1) (in_outputs port)) |})
          w1.

(** [AudioNode::pullInputs] *)
Definition pullInputs (processNode : NodeRef -> Graph -> result Graph)
    (r : ContextRenderLock) (this : NodeRef) (w : Graph) : result Graph :=
  check ASSERT assertionsEnabled (bool_decide (is_Some r));
  forEachInput (AudioNodeInput_pull processNode) this w.

(** [(ac->currentSampleFrame() + framesToProcess) / static_cast<double>(m_sampleRate)] *)
Definition endOfQuantum (ac : AudioContext) (framesToProcess : Z) (node : AudioNode) : float :=
  PrimFloat.div (toDouble (wrap64 (currentSampleFrame ac + framesToProcess)))
    (m_sampleRate node).

(** What [processIfNecessary] does after [pullInputs] in a quantum it has
    not seen yet. *)
Definition renderQuantum (ac : AudioContext) (framesToProcess : Z) (this : NodeRef)
    (w2 : Graph) : result Graph :=
  do node2 <- getNode w2 this;
  let silentInputs := inputsAreSilent node2 in
  let w3 := if negb silentInputs
            then updateNode this
                   (set_m_lastNonSilentTime (endOfQuantum ac framesToProcess node2)) w2
            else w2 in
  do node3 <- getNode w3 this;
  let ps := propagatesSilence node3 (currentTime ac) in
  if silentInputs && ps
  then silenceOutputs this w3
  else unsilenceOutputs this (process this w3).

(** [AudioNode::processIfNecessary].  One unit of fuel per nested
    [processIfNecessary]. *)
Fixpoint processIfNecessary (fuel : nat) (r : ContextRenderLock) (framesToProcess : Z)
    (this : NodeRef) (w : Graph) : result Graph :=
  match fuel with
  | O => OutOfFuel
  | S fuel' =>
      match r with
      | None => Ok w
      | Some ac =>
          do node <- getNode w this;
          if negb (isInitialized node) then Ok w
          else
            if negb (PrimFloat.eqb (m_lastProcessingTime node) (currentTime ac))
            then
              let w1 := updateNode this (set_m_lastProcessingTime (currentTime ac)) w in
              do w2 <- pullInputs (processIfNecessary fuel' r framesToProcess) r this w1;
              renderQuantum ac framesToProcess this w2
            else Ok w
      end
  end.

(** [f] applied to the registered output ports in the slots below [bound];
    everything else of the node as it was. *)
Definition mapOutputsBelow (bound : nat) (f : AudioNodeOutput -> AudioNodeOutput)
    (node : AudioNode) : AudioNode :=
  set_m_outputs
    (imap (fun i o => if (i <? bound)%nat then f <$> o else o) (m_outputs node)) node.

Definition mapOutputs : (AudioNodeOutput -> AudioNodeOutput) -> AudioNode -> AudioNode :=
  mapOutputsBelow AUDIONODE_MAXOUTPUTS.

(** The inputs an output slot of a node is connected to, and the same for a
    port of the graph; none where there is no port. *)
Definition outFanout (node : AudioNode) (j : nat) : list (nat * nat) :=
  match output node j with Some port => out_inputs port | None => [] end.

Definition fanout (w : Graph) (o : nat * nat) : list (nat * nat) :=
  match nodes w !! fst o with Some node => outFanout node (snd o) | None => [] end.

(** Every connection of the graph, as (output, input). *)
Definition connections (w : Graph) : list ((nat * nat) * (nat * nat)) :=
  flat_map
    (fun n => flat_map (fun j => map (fun i => ((n, j), i)) (fanout w (n, j)))
                (seq 0 AUDIONODE_MAXOUTPUTS))
    (seq 0 (length (nodes w))).

(** What the passing of time does to a node while references are dropped:
    outputs lose connections and never gain any, and a node marked for
    deletion stays marked. *)
Definition Node_later (before after : AudioNode) : Prop :=
  (forall j x, In x (outFanout after j) -> In x (outFanout before j))
  /\ (m_isMarkedForDeletion before = true -> m_isMarkedForDeletion after = true).

Definition Graph_later (before after : Graph) : Prop :=
  Forall2 Node_later (nodes before) (nodes after).

(** The counters of a node are [int]s that are not negative. *)
Definition countsAreNatural (node : AudioNode) : Prop :=
  (0 <= m_normalRefCount node <= INT_MAX)%Z
  /\ (0 <= m_connectionRefCount node <= INT_MAX)%Z.

(** The counter a reference of the given type is counted in. *)
Definition refCount (refType : RefType) (node : AudioNode) : Z :=
  match refType with
  | RefTypeNormal => m_normalRefCount node
  | RefTypeConnection => m_connectionRefCount node
  end.

(** A node that a [processIfNecessary] of the quantum of [ac] passes by:
    it is not initialized, or it has this quantum's timestamp. *)
Definition settled (ac : AudioContext) (node : AudioNode) : bool :=
  negb (isInitialized node)
  || PrimFloat.eqb (m_lastProcessingTime node) (currentTime ac).

(** How often the processing step of the node [k] has run. *)
Definition timesProcessed (w : Graph) (k : nat) : nat :=
  count_occ Nat.eq_dec (processCalls w) k.

(** What rendering does to the graph as far as memoization goes: the nodes
    that were settled are as they were, and their processing step has not
    run again. *)
Definition Memoized (ac : AudioContext) (before after : Graph) : Prop :=
  length (nodes after) = length (nodes before)
  /\ forall k node,
       nodes before !! k = Some node -> settled ac node = true ->
       nodes after !! k = Some node
       /\ timesProcessed after k = timesProcessed before k.

(** The ports of a node are registered in order: both port arrays have
    their full size, the slots below the port counts hold ports and the
    slots from there on are empty. *)
Definition portsInOrder (node : AudioNode) : Prop :=
  length (m_inputs node) = AUDIONODE_MAXINPUTS
  /\ length (m_outputs node) = AUDIONODE_MAXOUTPUTS
  /\ (forall i, is_Some (input node i) <-> i < numberOfInputs node)
  /\ (forall i, is_Some (output node i) <-> i < numberOfOutputs node).

(** [AudioNode::connect(param, outputIndex, ec)], the overload that feeds an
    output into a parameter.  [AudioParam::connect(param, output)] is the
    parameter's; a parameter is addressed by a number. *)
Section ToParam.

Variable AudioParam_connect : nat -> PortRef -> Graph -> Graph.

Definition connectToParam (param : option nat) (outputIndex : nat) (this : NodeRef)
    (w : Graph) : result (Graph * option ExceptionCode) :=
  match param with
  | None => Ok (w, Some SYNTAX_ERR)
  | Some p =>
      do node <- getNode w this;
      if (numberOfOutputs node <=? outputIndex)%nat
      then Ok (w, Some INDEX_SIZE_ERR)
      else Ok (AudioParam_connect p (this, outputIndex) w, None)
  end.

End ToParam.

(** [m_inputs[i].get()]: the address of the port in slot [i] of the node
    [this], null for an empty slot. *)
Definition inputPointer (this : NodeRef) (node : AudioNode) (i : nat) : option PortRef :=
  match mjoin (m_inputs node !! i) with
  | Some _ => Some (this, i)
  | None => None
  end.

(** [AudioNode::checkNumberOfChannelsForInput(r, input)]: the loop stops at
    the first slot whose pointer is [input] and updates the internal bus
    through [input].  [AudioNodeInput::updateInternalBus] is the port's. *)
Section InternalBus.

Variable AudioNodeInput_updateInternalBus : AudioNodeInput -> AudioNodeInput.

Definition checkNumberOfChannelsForInput (r : ContextRenderLock)
    (inputPtr : option PortRef) (this : NodeRef) (w : Graph) : result Graph :=
  check ASSERT assertionsEnabled (bool_decide (is_Some r));
  do node <- getNode w this;
  match List.find (fun i => bool_decide (inputPointer this node i = inputPtr))
          (seq 0 AUDIONODE_MAXINPUTS) with
  | Some _ =>
      match inputPtr with
      | Some p => onInput p AudioNodeInput_updateInternalBus w
      | None => NullDereference
      end
  | None => Ok w
  end.

End InternalBus.

(** What the graph lock guards of a node: the counters, the flags of its
    life cycle, its kind, and how its ports are registered and wired. *)
Definition lifecycleOf (node : AudioNode)
  : Z * Z * bool * bool * NodeType * (nat * nat)
    * list (option (list (nat * nat))) * list (option (list (nat * nat) * bool)) :=
  (m_normalRefCount node, m_connectionRefCount node,
   m_isMarkedForDeletion node, m_isDisabled node, m_nodeType node,
   (m_inputCount node, m_outputCount node),
   map (fmap in_outputs) (m_inputs node),
   map (fmap (fun port => (out_inputs port, out_isEnabled port))) (m_outputs node)).

(** The connections that end at an input of the node [m]. *)
Definition incoming (w : Graph) (m : nat) : nat :=
  length (List.filter (fun c => (fst (snd c) =? m)%nat) (connections w)).

(** The counters account for the connections: every connection ends at a
    node that exists, and a node's connection count is an [int] that is at
    least the number of connections that end at its inputs, plus one for
    the [debtor], a node that is about to give back a connection reference
    whose connection is gone already. *)
Definition accounted (debtor : option nat) (w : Graph) : Prop :=
  (forall m node,
     nodes w !! m = Some node ->
     countsAreNatural node
     /\ (Z.of_nat (incoming w m) + (if decide (debtor = Some m) then 1 else 0)
         <= m_connectionRefCount node)%Z)
  /\ (forall o i, In (o, i) (connections w) -> fst i < length (nodes w)).

(** Who gives back a connection reference in [deref(refType)] on [this]. *)
Definition debtorOf (refType : RefType) (this : nat) : option nat :=
  match refType with
  | RefTypeConnection => Some this
  | RefTypeNormal => None
  end.

(** Every connection that an input records leads to an output that
    exists. *)
Definition inputsAreWired (w : Graph) : Prop :=
  forall p port o,
    getInput w p = Ok port -> In o (in_outputs port) ->
    exists out, getOutput w o = Ok out.

(** What rendering works on: whether the node is initialized, its
    timestamps and the silent flags of its buses. *)
Definition renderingOf (node : AudioNode)
  : bool * float * float * float * list (option bool) * list (option bool) :=
  (m_isInitialized node, m_sampleRate node,
   m_lastProcessingTime node, m_lastNonSilentTime node,
   map (fmap in_busIsSilent) (m_inputs node),
   map (fmap out_busIsSilent) (m_outputs node)).

(** *** The arena *)

Lemma getNode_Ok w n node : getNode w n = Ok node <-> nodes w !! n = Some node.
Proof.
  only_stated.
  unfold getNode. destruct (nodes w !! n); split; intros H;
    try discriminate; now inversion H.
Qed.

Lemma getNode_updateNode_eq w n f node :
  getNode w n = Ok node -> getNode (updateNode n f w) n = Ok (f node).
Proof.
  only_stated.
  rewrite !getNode_Ok. intros H. simpl. now rewrite list_lookup_alter_eq, H.
Qed.


Lemma updateNode_updateNode w n f g :
  updateNode n f (updateNode n g w) = updateNode n (fun node => f (g node)) w.
Proof. only_stated. unfold updateNode. simpl. f_equal. apply list_alter_alter_eq. Qed.

Lemma updateNode_ext w n f g node :
  getNode w n = Ok node -> f node = g node -> updateNode n f w = updateNode n g w.
Proof.
  only_stated.
  rewrite getNode_Ok. intros H Hfg. unfold updateNode. f_equal.
  apply list_alter_ext; [|reflexivity]. intros x Hx. congruence.
Qed.

Lemma setNode_same w n node : getNode w n = Ok node -> setNode n node w = w.
Proof.
  only_stated.
  rewrite getNode_Ok. intros H. unfold setNode, updateNode.
  rewrite <- list_insert_alter, list_insert_id by exact H. now destruct w.
Qed.

Lemma updateNode_setNode w n f node :
  getNode w n = Ok node -> updateNode n f w = setNode n (f node) w.
Proof. only_stated. intros H. unfold setNode. now apply updateNode_ext with node. Qed.

(** *** Loops over the ports *)


Lemma output_out_of_range node i : AUDIONODE_MAXOUTPUTS <= i -> output node i = None.
Proof. only_stated. intros H. unfold output. apply Nat.ltb_ge in H. now rewrite H. Qed.

Lemma output_mapOutputsBelow bound f node i :
  i < AUDIONODE_MAXOUTPUTS ->
  output (mapOutputsBelow bound f node) i =
    if (i <? bound)%nat then f <$> output node i else output node i.
Proof.
  only_stated.
  intros Hi. unfold output, mapOutputsBelow. simpl.
  apply Nat.ltb_lt in Hi. rewrite Hi, list_lookup_imap.
  destruct (m_outputs node !! i) as [o|]; simpl;
    destruct (i <? bound)%nat; reflexivity.
Qed.

Lemma output_mapOutputs f node i : output (mapOutputs f node) i = f <$> output node i.
Proof.
  only_stated.
  destruct (Nat.lt_ge_cases i AUDIONODE_MAXOUTPUTS) as [Hi|Hi].
  - unfold mapOutputs. rewrite output_mapOutputsBelow by exact Hi.
    apply Nat.ltb_lt in Hi. now rewrite Hi.
  - now rewrite !output_out_of_range.
Qed.

Lemma mapOutputsBelow_0 f node : mapOutputsBelow 0 f node = node.
Proof.
  only_stated.
  unfold mapOutputsBelow.
  replace (imap (fun i o => if (i <? 0)%nat then f <$> o else o) (m_outputs node))
    with (m_outputs node); [now destruct node|].
  apply list_eq. intros i. rewrite list_lookup_imap.
  now destruct (m_outputs node !! i).
Qed.

Lemma mapOutputsBelow_S_registered k f node :
  set_m_outputs (alter (fmap f) k (m_outputs (mapOutputsBelow k f node)))
    (mapOutputsBelow k f node)
  = mapOutputsBelow (S k) f node.
Proof.
  only_stated.
  unfold mapOutputsBelow. simpl. unfold set_m_outputs. simpl. f_equal.
  apply list_eq. intros i. rewrite list_lookup_alter, !list_lookup_imap.
  destruct (decide (k = i)) as [<-|Hne].
  - assert (H1 : (k <? k)%nat = false) by (apply Nat.ltb_ge; lia).
    assert (H2 : (k <? S k)%nat = true) by (apply Nat.ltb_lt; lia).
    rewrite H1, H2. now destruct (m_outputs node !! k).
  - destruct (m_outputs node !! i); simpl; [|reflexivity].
    destruct (i <? k)%nat eqn:H1, (i <? S k)%nat eqn:H2; try reflexivity.
    + apply Nat.ltb_lt in H1. apply Nat.ltb_ge in H2. lia.
    + apply Nat.ltb_ge in H1. apply Nat.ltb_lt in H2. lia.
Qed.

Lemma mapOutputsBelow_S_empty k f node :
  mjoin (m_outputs node !! k) = None ->
  mapOutputsBelow (S k) f node = mapOutputsBelow k f node.
Proof.
  only_stated.
  intros Hk. unfold mapOutputsBelow. f_equal.
  apply list_eq. intros i. rewrite !list_lookup_imap.
  destruct (m_outputs node !! i) as [o|] eqn:Ho; simpl; [|reflexivity].
  destruct (decide (i = k)) as [->|Hne].
  - rewrite Ho in Hk. simpl in Hk. subst o.
    now destruct (k <? S k)%nat, (k <? k)%nat.
  - destruct (i <? k)%nat eqn:H1, (i <? S k)%nat eqn:H2; try reflexivity.
    + apply Nat.ltb_lt in H1. apply Nat.ltb_ge in H2. lia.
    + apply Nat.ltb_ge in H1. apply Nat.ltb_lt in H2. lia.
Qed.

(** A loop that applies [f] to every registered output of [this] ends well
    and has applied [f] to exactly those; empty slots are passed over. *)
Lemma forEachOutput_onOutput f this w node :
  getNode w this = Ok node ->
  forEachOutput (fun p => onOutput p f) this w = Ok (setNode this (mapOutputs f node) w).
Proof.
  only_stated.
  intros Hnode. unfold forEachOutput, mapOutputs.
  assert (H : forall k, k <= AUDIONODE_MAXOUTPUTS ->
    forEach (fun w i =>
               do node <- getNode w this;
               match output node i with
               | Some _ => onOutput (this, i) f w
               | None => Ok w
               end) (seq 0 k) w
    = Ok (setNode this (mapOutputsBelow k f node) w)).
  { induction k as [|k IH]; intros Hk.
    - simpl. now rewrite mapOutputsBelow_0, setNode_same.
    - rewrite seq_S, forEach_app, IH by lia. simpl.
      unfold setNode at 1. rewrite (getNode_updateNode_eq _ _ _ _ Hnode). simpl.
      rewrite output_mapOutputsBelow by lia.
      assert (Hkk : (k <? k)%nat = false) by (apply Nat.ltb_ge; lia). rewrite Hkk.
      destruct (output node k) as [port|] eqn:Hport.
      + unfold onOutput, getOutput. simpl.
        unfold setNode at 1. rewrite (getNode_updateNode_eq _ _ _ _ Hnode). simpl.
        rewrite output_mapOutputsBelow by lia. rewrite Hkk, Hport. simpl.
        unfold updateOutput, setNode. simpl. rewrite updateNode_updateNode.
        f_equal. apply updateNode_ext with node; [exact Hnode|].
        apply mapOutputsBelow_S_registered.
      + simpl. f_equal. unfold setNode.
        apply updateNode_ext with node; [exact Hnode|].
        symmetry. apply mapOutputsBelow_S_empty.
        unfold output in Hport.
        assert (Hlt : (k <? AUDIONODE_MAXOUTPUTS)%nat = true) by (apply Nat.ltb_lt; lia).
        now rewrite Hlt in Hport. }
  apply H. lia.
Qed.

(** A loop over the ports calls its body on registered ports only: a body
    that refuses to run on an empty slot is never refused. *)
Lemma forEachOutput_registered_only body this w :
  forEachOutput body this w
  = forEachOutput (fun p w' => check getOutput w' p; body p w') this w.
Proof.
  only_stated.
  unfold forEachOutput. generalize (seq 0 AUDIONODE_MAXOUTPUTS). intros l.
  revert w. induction l as [|i l IH]; intros w; simpl; [reflexivity|].
  destruct (getNode w this) as [node| | | |] eqn:Hnode; simpl; try reflexivity.
  destruct (output node i) as [port|] eqn:Hport.
  - unfold getOutput at 1. simpl. rewrite Hnode. simpl. rewrite Hport. simpl.
    destruct (body (this, i) w); simpl; auto.
  - simpl. apply IH.
Qed.



(** *** Dormant outputs *)

Lemma setNode_updateNode w n f node : setNode n node (updateNode n f w) = setNode n node w.
Proof. only_stated. unfold setNode. now rewrite updateNode_updateNode. Qed.

Lemma setNode_setNode w n node node' : setNode n node (setNode n node' w) = setNode n node w.
Proof. only_stated. unfold setNode. now rewrite updateNode_updateNode. Qed.

Lemma getNode_setNode_eq w n node0 node :
  getNode w n = Ok node0 -> getNode (setNode n node w) n = Ok node.
Proof. only_stated. intros H. unfold setNode. now rewrite (getNode_updateNode_eq _ _ _ _ H). Qed.

Lemma disableOutputsIfNecessary_tail this w node :
  getNode w this = Ok node -> isTailNode (nodeType node) = true ->
  disableOutputsIfNecessary this w = Ok w.
Proof.
  only_stated.
  intros Hnode Htail. unfold disableOutputsIfNecessary. rewrite Hnode. simpl.
  rewrite Htail. simpl. now destruct (_ && _).
Qed.

(** C5.  A [deref(RefTypeConnection)] that takes the connection count from
    one to zero on a node that is still referenced normally and is not
    disabled: the node becomes disabled and every one of its outputs is put
    in the dormant state, unless the node is a convolver or a delay, which
    only loses the reference.  [disableOutputsIfNecessary] never disables a
    convolver or a delay. *)
Theorem connection_deref_makes_outputs_dormant fuel this w node0 :
  getNode w this = Ok node0 ->
  m_connectionRefCount node0 = 1%Z ->
  (0 < m_normalRefCount node0)%Z ->
  m_isDisabled node0 = false ->
  let node1 := set_m_connectionRefCount 0 node0 in
  let dormant := mapOutputs AudioNodeOutput_disable (set_m_isDisabled true node1) in
  (isTailNode (nodeType node0) = false ->
     deref (S fuel) RefTypeConnection this w = Ok (setNode this dormant w)
     /\ m_isDisabled dormant = true
     /\ (forall i, output dormant i = AudioNodeOutput_disable <$> output node0 i)
     /\ (forall i port, output dormant i = Some port -> out_isEnabled port = false))
  /\ (isTailNode (nodeType node0) = true ->
     deref (S fuel) RefTypeConnection this w = Ok (setNode this node1 w)
     /\ m_isDisabled node1 = false
     /\ (forall i, output node1 i = output node0 i))
  /\ (forall w' node,
     getNode w' this = Ok node -> isTailNode (nodeType node) = true ->
     disableOutputsIfNecessary this w' = Ok w').
Proof.
  only_stated.
  intros Hnode Hconn Hnormal Hdisabled node1 dormant.
  assert (Hderef : deref (S fuel) RefTypeConnection this w
                   = disableOutputsIfNecessary this (setNode this node1 w)).
  { simpl. rewrite Hnode. simpl. unfold ASSERT. rewrite Hconn. simpl.
    rewrite andb_false_r. simpl.
    assert (Hn : (m_normalRefCount node0 =? 0)%Z = false) by (apply Z.eqb_neq; lia).
    rewrite Hn. reflexivity. }
  assert (Hnode1 : getNode (setNode this node1 w) this = Ok node1)
    by (eapply getNode_setNode_eq; eauto).
  split; [|split].
  - intros Htail. split; [|split; [reflexivity|split]].
    + rewrite Hderef. unfold disableOutputsIfNecessary. rewrite Hnode1. simpl.
      rewrite Hdisabled. unfold nodeType in *. simpl. rewrite Htail. simpl.
      rewrite (forEachOutput_onOutput _ _ _ (set_m_isDisabled true node1)).
      * now rewrite setNode_updateNode, setNode_setNode.
      * now apply getNode_updateNode_eq.
    + intros i. unfold dormant. now rewrite output_mapOutputs.
    + intros i port. unfold dormant. rewrite output_mapOutputs.
      change (output (set_m_isDisabled true node1) i) with (output node0 i).
      destruct (output node0 i); simpl; intros H; inversion H. reflexivity.
  - intros Htail. split; [|split; [exact Hdisabled | reflexivity]].
    rewrite Hderef. now apply disableOutputsIfNecessary_tail with node1.
  - intros w' node. apply disableOutputsIfNecessary_tail.
Qed.

(** *** One quantum of one node *)

Lemma renderQuantum_spec ac framesToProcess this w2 node2 :
  getNode w2 this = Ok node2 ->
  let silentInputs := inputsAreSilent node2 in
  let quiet := silentInputs && propagatesSilence node2 (currentTime ac) in
  let node3 := if silentInputs then node2
               else set_m_lastNonSilentTime (endOfQuantum ac framesToProcess node2) node2 in
  renderQuantum ac framesToProcess this w2 =
    Ok (if quiet
        then setNode this (mapOutputs AudioBus_zero node3) w2
        else setNode this (mapOutputs AudioBus_clearSilentFlag node3) (process this w2)).
Proof.
  only_stated.
  intros Hnode silentInputs quiet node3. unfold renderQuantum. rewrite Hnode. simpl.
  fold silentInputs. unfold quiet, node3. destruct silentInputs; simpl.
  - rewrite Hnode. simpl. destruct (propagatesSilence node2 (currentTime ac)).
    + unfold silenceOutputs. now rewrite (forEachOutput_onOutput _ _ _ _ Hnode).
    + unfold unsilenceOutputs. now rewrite (forEachOutput_onOutput _ _ _ node2).
  - rewrite (getNode_updateNode_eq _ _ _ _ Hnode). simpl.
    unfold unsilenceOutputs.
    rewrite (forEachOutput_onOutput _ _ _
               (set_m_lastNonSilentTime (endOfQuantum ac framesToProcess node2) node2)).
    + unfold setNode, process, updateNode. simpl. now rewrite list_alter_alter_eq.
    + unfold process, getNode. simpl. rewrite list_lookup_alter_eq.
      apply getNode_Ok in Hnode. now rewrite Hnode.
Qed.


(** *** Dropping references *)

Lemma PortRef_eqb_eq (a b : nat * nat) : PortRef_eqb a b = true <-> a = b.
Proof.
  only_stated.
  unfold PortRef_eqb. rewrite andb_true_iff, !Nat.eqb_eq.
  destruct a, b; simpl. split; [intros [-> ->]; reflexivity | intros H; now inversion H].
Qed.

Lemma getOutput_fanout w o port : getOutput w o = Ok port -> fanout w o = out_inputs port.
Proof.
  only_stated.
  unfold getOutput, fanout, getNode, outFanout.
  destruct (nodes w !! fst o) as [node|]; simpl; [|discriminate].
  destruct (output node (snd o)); intros H; now inversion H.
Qed.

Lemma fanout_getOutput w o x :
  In x (fanout w o) -> exists port, getOutput w o = Ok port /\ In x (out_inputs port).
Proof.
  only_stated.
  unfold getOutput, fanout, getNode, outFanout.
  destruct (nodes w !! fst o) as [node|]; simpl; [|tauto].
  destruct (output node (snd o)) as [port|]; simpl; [eauto|tauto].
Qed.

Lemma isConnectedTo_fanout w o i : isConnectedTo w o i = true <-> In i (fanout w o).
Proof.
  only_stated.
  unfold isConnectedTo. split.
  - destruct (getOutput w o) as [port| | | |] eqn:Hport; try discriminate.
    rewrite (getOutput_fanout _ _ _ Hport), existsb_exists.
    intros (x & Hx & Heq). apply PortRef_eqb_eq in Heq. now subst.
  - intros H. destruct (fanout_getOutput _ _ _ H) as (port & -> & Hin).
    apply existsb_exists. exists i. split; [exact Hin | now apply PortRef_eqb_eq].
Qed.

Lemma connections_spec w o i : In (o, i) (connections w) <-> In i (fanout w o).
Proof.
  only_stated.
  unfold connections. rewrite in_flat_map. split.
  - intros (n & _ & H). apply in_flat_map in H as (j & _ & H).
    apply in_map_iff in H as (x & Heq & Hx). now inversion Heq; subst.
  - intros H. destruct o as [n j]. exists n.
    assert (Hn : n < length (nodes w)).
    { unfold fanout in H. simpl in H.
      destruct (nodes w !! n) eqn:E; [|contradiction]. now apply lookup_lt_Some in E. }
    assert (Hj : j < AUDIONODE_MAXOUTPUTS).
    { unfold fanout, outFanout in H. simpl in H.
      destruct (nodes w !! n); [|contradiction].
      destruct (Nat.lt_ge_cases j AUDIONODE_MAXOUTPUTS) as [?|Hge]; [assumption|].
      rewrite (output_out_of_range _ _ Hge) in H. contradiction. }
    split; [apply in_seq; lia|]. apply in_flat_map. exists j.
    split; [apply in_seq; lia|]. apply in_map_iff. eauto.
Qed.

Lemma Node_later_refl node : Node_later node node.
Proof. only_stated. split; auto. Qed.

Lemma Node_later_trans a b c : Node_later a b -> Node_later b c -> Node_later a c.
Proof. only_stated. intros [H1 H2] [H3 H4]. split; auto. Qed.

Lemma Graph_later_refl w : Graph_later w w.
Proof. only_stated. apply Forall_Forall2_diag, Forall_forall. intros. apply Node_later_refl. Qed.

Lemma Graph_later_trans a b c : Graph_later a b -> Graph_later b c -> Graph_later a c.
Proof.
  only_stated.
  unfold Graph_later. intros H1 H2.
  eapply Forall2_trans; [|exact H1|exact H2].
  intros x y z. apply Node_later_trans.
Qed.

Lemma Graph_later_updateNode w0 w n f :
  (forall node, nodes w !! n = Some node -> Node_later node (f node)) ->
  Graph_later w0 w -> Graph_later w0 (updateNode n f w).
Proof.
  only_stated.
  intros Hf H. unfold Graph_later, updateNode. simpl.
  apply Forall2_alter_r; [exact H|].
  intros x y _ Hy Hxy. eapply Node_later_trans; [exact Hxy|]. now apply Hf.
Qed.

Lemma Graph_later_fanout w0 w o x :
  Graph_later w0 w -> In x (fanout w o) -> In x (fanout w0 o).
Proof.
  only_stated.
  unfold Graph_later, fanout. intros H Hx.
  destruct (nodes w !! fst o) as [node|] eqn:Hnode; [|contradiction].
  destruct (Forall2_lookup_r _ _ _ _ _ H Hnode) as (node0 & -> & [Hf _]). auto.
Qed.

Lemma Graph_later_length w0 w : Graph_later w0 w -> length (nodes w) = length (nodes w0).
Proof. only_stated. intros H. symmetry. exact (Forall2_length _ _ _ H). Qed.


(** The node-level steps of [deref] and of what it calls. *)
Lemma decrementRefCount_later refType node0 node :
  decrementRefCount refType node0 = Ok node -> Node_later node0 node.
Proof.
  only_stated.
  unfold decrementRefCount. destruct refType;
    destruct (ASSERT _ _); simpl; intros H; inversion H; now split.
Qed.

Lemma outFanout_alter f j node k :
  outFanout (set_m_outputs (alter (fmap f) j (m_outputs node)) node) k
  = if decide (j = k)
    then match output node k with Some port => out_inputs (f port) | None => [] end
    else outFanout node k.
Proof.
  only_stated.
  unfold outFanout, output. simpl.
  destruct (k <? AUDIONODE_MAXOUTPUTS)%nat; [|now destruct (decide (j = k))].
  rewrite list_lookup_alter. destruct (decide (j = k)) as [->|Hne]; [|reflexivity].
  destruct (m_outputs node !! k) as [[port|]|]; reflexivity.
Qed.

Lemma outFanout_mapOutputs f node k :
  (forall port, out_inputs (f port) = out_inputs port) ->
  outFanout (mapOutputs f node) k = outFanout node k.
Proof.
  only_stated.
  intros Hf. unfold outFanout. rewrite output_mapOutputs.
  destruct (output node k); simpl; auto.
Qed.

Lemma removeConnection_later w0 o i w :
  Graph_later w0 w -> Graph_later w0 (removeConnection o i w).
Proof.
  only_stated.
  intros H. unfold removeConnection, updateInput, updateOutput.
  apply Graph_later_updateNode; [intros node _; now split|].
  apply Graph_later_updateNode; [|exact H].
  intros node _. split; [|auto]. intros k x. rewrite outFanout_alter.
  destruct (decide (snd o = k)) as [<-|]; [|auto].
  unfold outFanout. destruct (output node (snd o)); simpl; [|auto].
  rewrite filter_In. tauto.
Qed.

Lemma fanout_updateNode n f w o :
  fanout (updateNode n f w) o
  = if decide (n = fst o)
    then match nodes w !! n with Some node => outFanout (f node) (snd o) | None => [] end
    else fanout w o.
Proof.
  only_stated.
  unfold fanout. simpl. rewrite list_lookup_alter.
  destruct (decide (n = fst o)) as [->|]; [|reflexivity].
  now destruct (nodes w !! fst o).
Qed.

Lemma fanout_updateInput i g w o : fanout (updateInput i g w) o = fanout w o.
Proof.
  only_stated.
  unfold updateInput. rewrite fanout_updateNode.
  destruct (decide (fst i = fst o)) as [->|]; reflexivity.
Qed.

Lemma removeConnection_fanout o i w :
  ~ In i (fanout (removeConnection o i w) o).
Proof.
  only_stated.
  unfold removeConnection. rewrite fanout_updateInput.
  unfold updateOutput. rewrite fanout_updateNode.
  destruct (decide (fst o = fst o)); [|congruence].
  destruct (nodes w !! fst o) as [node|]; [|tauto].
  rewrite outFanout_alter. destruct (decide (snd o = snd o)); [|congruence].
  destruct (output node (snd o)); simpl; [|tauto].
  rewrite filter_In, negb_true_iff. intros [_ H].
  apply not_true_iff_false in H. apply H. now apply PortRef_eqb_eq.
Qed.

Lemma disableOutputsIfNecessary_cases this w w' :
  disableOutputsIfNecessary this w = Ok w' ->
  w' = w
  \/ exists node, getNode w this = Ok node
       /\ w' = setNode this
                 (mapOutputs AudioNodeOutput_disable (set_m_isDisabled true node)) w.
Proof.
  only_stated.
  unfold disableOutputsIfNecessary.
  destruct (getNode w this) as [node| | | |] eqn:Hnode; simpl; try discriminate.
  destruct (_ && _); [|intros H; inversion H; now left].
  destruct (negb _); [|intros H; inversion H; now left].
  rewrite (forEachOutput_onOutput _ _ _ (set_m_isDisabled true node))
    by (now apply getNode_updateNode_eq).
  rewrite setNode_updateNode. intros H. inversion H. right. eauto.
Qed.

Lemma disableOutputsIfNecessary_later w0 this w w' :
  disableOutputsIfNecessary this w = Ok w' -> Graph_later w0 w -> Graph_later w0 w'.
Proof.
  only_stated.
  intros H Hw. destruct (disableOutputsIfNecessary_cases _ _ _ H)
    as [->|(node & Hnode & ->)]; [exact Hw|].
  apply Graph_later_updateNode; [|exact Hw].
  intros node' Hnode'. apply getNode_Ok in Hnode.
  replace node' with node by congruence.
  split; [|auto]. intros k x.
  now rewrite outFanout_mapOutputs by reflexivity.
Qed.

(** A property that the steps of [deref] keep is kept by [deref], however
    far the disconnections cascade. *)
Section DerefKeeps.

Variable P : Graph -> Prop.

Hypothesis P_decrement : forall refType this w node0 node,
  getNode w this = Ok node0 -> decrementRefCount refType node0 = Ok node ->
  P w -> P (setNode this node w).
Hypothesis P_removeConnection : forall o i w,
  isConnectedTo w o i = true -> P w -> P (removeConnection o i w).
Hypothesis P_mark : forall this w,
  P w -> P (updateNode this (set_m_isMarkedForDeletion true) w).
Hypothesis P_disable : forall this w w',
  disableOutputsIfNecessary this w = Ok w' -> P w -> P w'.

Lemma forEachOutput_keeps body this :
  (forall i w w', body (this, i) w = Ok w' -> P w -> P w') ->
  forall w w', forEachOutput body this w = Ok w' -> P w -> P w'.
Proof.
  only_stated.
  intros Hbody w w' Hrun Hw. unfold forEachOutput in Hrun.
  eapply (forEach_preserves P); [|exact Hw|exact Hrun].
  intros s i s' _ Hs. cbv beta.
  destruct (getNode s this) as [node| | | |]; simpl; try discriminate.
  destruct (output node i); intros Hstep; [eapply Hbody; eauto | now inversion Hstep; subst].
Qed.

Lemma disconnectAll_keeps derefConnection o :
  (forall n w w', derefConnection n w = Ok w' -> P w -> P w') ->
  forall w w', AudioNodeOutput_disconnectAll derefConnection o w = Ok w' -> P w -> P w'.
Proof.
  only_stated.
  intros Hrec w w' Hrun Hw. unfold AudioNodeOutput_disconnectAll in Hrun.
  destruct (getOutput w o); simpl in Hrun; try discriminate.
  eapply (forEach_preserves P); [|exact Hw|exact Hrun].
  intros s i s' _ Hs. cbv beta.
  destruct (isConnectedTo s o i) eqn:Hconn; intros Hstep; [|now inversion Hstep; subst].
  eapply Hrec; [exact Hstep|]. now apply P_removeConnection.
Qed.

Lemma deref_keeps fuel :
  forall refType this w w', deref fuel refType this w = Ok w' -> P w -> P w'.
Proof.
  only_stated.
  induction fuel as [|fuel IH]; intros refType this w w' Hrun Hw; [discriminate|].
  simpl in Hrun.
  destruct (getNode w this) as [node0| | | |] eqn:Hnode0; simpl in Hrun; try discriminate.
  destruct (decrementRefCount refType node0) as [node| | | |] eqn:Hdec;
    simpl in Hrun; try discriminate.
  pose proof (P_decrement _ _ _ _ _ Hnode0 Hdec Hw) as Hw1.
  destruct (m_connectionRefCount node =? 0)%Z; [|now inversion Hrun; subst].
  destruct (m_normalRefCount node =? 0)%Z.
  - destruct (negb (m_isMarkedForDeletion node)); [|now inversion Hrun; subst].
    destruct (forEachOutput _ this _) as [w2| | | |] eqn:Hloop;
      simpl in Hrun; try discriminate.
    inversion Hrun; subst. apply P_mark.
    eapply forEachOutput_keeps; [|exact Hloop|exact Hw1].
    intros p. apply disconnectAll_keeps. intros n. apply IH.
  - destruct refType; [now inversion Hrun; subst|]. eapply P_disable; eauto.
Qed.

End DerefKeeps.

Lemma deref_later fuel refType this w w' :
  deref fuel refType this w = Ok w' -> Graph_later w w'.
Proof.
  only_stated.
  intros H. apply (deref_keeps (Graph_later w)) with fuel refType this w;
    [| | | |exact H|apply Graph_later_refl].
  - intros rt n w1 node0 node Hnode0 Hdec Hw1.
    apply Graph_later_updateNode; [|exact Hw1].
    intros node1 Hnode1. apply getNode_Ok in Hnode0.
    replace node1 with node0 by congruence.
    now apply decrementRefCount_later with rt.
  - intros o i w1 _. apply removeConnection_later.
  - intros n w1. apply Graph_later_updateNode. intros node _.
    split; [auto | reflexivity].
  - intros n w1 w2. apply disableOutputsIfNecessary_later.
Qed.

Lemma getNode_finishes w n : getNode w n <> OutOfFuel.
Proof. only_stated. unfold getNode. destruct (nodes w !! n); discriminate. Qed.

Lemma getOutput_finishes w o : getOutput w o <> OutOfFuel.
Proof.
  only_stated.
  unfold getOutput, getNode. destruct (nodes w !! fst o) as [node|]; simpl; [|discriminate].
  destruct (output node (snd o)); discriminate.
Qed.

Lemma decrementRefCount_finishes refType node :
  decrementRefCount refType node <> OutOfFuel.
Proof.
  only_stated.
  unfold decrementRefCount, ASSERT.
  destruct refType; destruct (_ && _); simpl; discriminate.
Qed.

Lemma disableOutputsIfNecessary_finishes this w :
  disableOutputsIfNecessary this w <> OutOfFuel.
Proof.
  only_stated.
  unfold disableOutputsIfNecessary.
  destruct (getNode w this) as [node| | | |] eqn:Hnode; simpl; try discriminate;
    [|now apply getNode_finishes in Hnode].
  destruct (_ && _); [|discriminate]. destruct (negb _); [|discriminate].
  rewrite (forEachOutput_onOutput _ _ _ (set_m_isDisabled true node))
    by (now apply getNode_updateNode_eq).
  discriminate.
Qed.

(** [deref] ends: every nested [deref] comes after a connection was taken
    out, so a unit of fuel per connection will do. *)
Lemma deref_finishes_within fuel :
  forall (live : gset ((nat * nat) * (nat * nat))) refType this w,
    (forall o i, In i (fanout w o) -> (o, i) ∈ live) ->
    size live < fuel ->
    deref fuel refType this w <> OutOfFuel.
Proof.
  only_stated.
  induction fuel as [|fuel IH]; intros live refType this w Hlive Hsize; [lia|].
  simpl.
  destruct (getNode w this) as [node0| | | |] eqn:Hnode0; simpl; try discriminate;
    [|now apply getNode_finishes in Hnode0].
  destruct (decrementRefCount refType node0) as [node| | | |] eqn:Hdec;
    simpl; try discriminate; [|now apply decrementRefCount_finishes in Hdec].
  destruct (m_connectionRefCount node =? 0)%Z; [|discriminate].
  destruct (m_normalRefCount node =? 0)%Z;
    [|destruct refType; [discriminate | apply disableOutputsIfNecessary_finishes]].
  destruct (negb (m_isMarkedForDeletion node)); [|discriminate].
  set (covered := fun s : Graph => forall o i, In i (fanout s o) -> (o, i) ∈ live).
  assert (Hw1 : covered (setNode this node w)).
  { intros o i Hi. apply Hlive. revert Hi. apply Graph_later_fanout.
    apply Graph_later_updateNode; [|apply Graph_later_refl].
    intros node1 Hnode1. apply getNode_Ok in Hnode0.
    replace node1 with node0 by congruence.
    now apply decrementRefCount_later with refType. }
  assert (Hloop : forEachOutput
                    (AudioNodeOutput_disconnectAll (deref fuel RefTypeConnection))
                    this (setNode this node w) <> OutOfFuel).
  { unfold forEachOutput. apply (forEach_finishes covered); [|exact Hw1].
    intros s j _ Hs. cbv beta.
    destruct (getNode s this) as [nodeS| | | |] eqn:HnodeS; simpl;
      try solve [split; [discriminate | intros ? [=]]];
      [|now apply getNode_finishes in HnodeS].
    destruct (output nodeS j); [|split; [discriminate | now intros s' [= <-]]].
    unfold AudioNodeOutput_disconnectAll.
    destruct (getOutput s (this, j)) as [port| | | |] eqn:Hport; simpl;
      try solve [split; [discriminate | intros ? [=]]];
      [|now apply getOutput_finishes in Hport].
    split.
    - apply (forEach_finishes covered); [|exact Hs].
      intros s1 x _ Hs1. cbv beta.
      destruct (isConnectedTo s1 (this, j) x) eqn:Hconn;
        [|split; [discriminate | now intros s' [= <-]]].
      assert (Hrc : Graph_later s1 (removeConnection (this, j) x s1))
        by (apply removeConnection_later, Graph_later_refl).
      split.
      + apply (IH (live ∖ {[ ((this, j), x) ]})).
        * intros o i Hi. apply elem_of_difference. split.
          -- apply Hs1. revert Hi. now apply Graph_later_fanout.
          -- rewrite elem_of_singleton. intros [= -> ->].
             now apply removeConnection_fanout in Hi.
        * apply isConnectedTo_fanout, Hs1 in Hconn.
          rewrite size_difference by (now apply singleton_subseteq_l).
          rewrite size_singleton.
          assert (size live <> 0)
            by (intros Hz; apply size_empty_inv in Hz; set_solver).
          lia.
      + intros s' Hs' o i Hi. apply Hs1. revert Hi. apply Graph_later_fanout.
        eapply Graph_later_trans; [exact Hrc|]. eapply deref_later; eauto.
    - intros s'. apply (forEach_preserves covered); [|exact Hs].
      intros s1 x s2 _ Hs1. cbv beta.
      destruct (isConnectedTo s1 (this, j) x); [|now intros [= <-]].
      intros Hs2 o i Hi. apply Hs1. revert Hi. apply Graph_later_fanout.
      eapply Graph_later_trans; [|eapply deref_later; eauto].
      apply removeConnection_later, Graph_later_refl. }
  destruct (forEachOutput _ this _); simpl; try discriminate. congruence.
Qed.

Lemma deref_finishes fuel refType this w :
  length (connections w) < fuel -> deref fuel refType this w <> OutOfFuel.
Proof.
  only_stated.
  intros Hfuel.
  apply (deref_finishes_within fuel (list_to_set (connections w))).
  - intros o i Hi. apply elem_of_list_to_set, list_elem_of_In. now apply connections_spec.
  - eapply Nat.le_lt_trans; [|exact Hfuel].
    apply submseteq_length, NoDup_submseteq; [apply NoDup_elements|].
    intros x. now rewrite elem_of_elements, elem_of_list_to_set.
Qed.




Lemma enableOutputsIfNecessary_cases this w w' :
  enableOutputsIfNecessary this w = Ok w' ->
  w' = w
  \/ exists node, getNode w this = Ok node
       /\ w' = setNode this
                 (mapOutputs AudioNodeOutput_enable (set_m_isDisabled false node)) w.
Proof.
  only_stated.
  unfold enableOutputsIfNecessary.
  destruct (getNode w this) as [node| | | |] eqn:Hnode; simpl; try discriminate.
  destruct (_ && _); [|intros H; inversion H; now left].
  rewrite (forEachOutput_onOutput _ _ _ (set_m_isDisabled false node))
    by (now apply getNode_updateNode_eq).
  rewrite setNode_updateNode. intros H. inversion H. right. eauto.
Qed.





(** *** The counters *)

Lemma wrap32_int z : (- 2147483648 <= z <= INT_MAX)%Z -> wrap32 z = z.
Proof. only_stated. unfold wrap32, INT_MAX. intros H. rewrite Z.mod_small; lia. Qed.







(** *** Rendering a quantum through the graph *)

Lemma forEachInput_keeps (P : Graph -> Prop) body this :
  (forall i w w', body (this, i) w = Ok w' -> P w -> P w') ->
  forall w w', forEachInput body this w = Ok w' -> P w -> P w'.
Proof.
  only_stated.
  intros Hbody w w' Hrun Hw. unfold forEachInput in Hrun.
  eapply (forEach_preserves P); [|exact Hw|exact Hrun].
  intros s i s' _ Hs. cbv beta.
  destruct (getNode s this) as [node| | | |]; simpl; try discriminate.
  destruct (input node i); intros Hstep; [eapply Hbody; eauto | now inversion Hstep; subst].
Qed.

(** A property that nested processing and the update of this node's input
    buses keep is kept by [pullInputs]. *)
Lemma pullInputs_keeps (P : Graph -> Prop) processNode r this :
  (forall n w w', processNode n w = Ok w' -> P w -> P w') ->
  (forall i f w, P w -> P (updateInput (this, i) f w)) ->
  forall w w', pullInputs processNode r this w = Ok w' -> P w -> P w'.
Proof.
  only_stated.
  intros Hrec Hagg w w' Hrun Hw. unfold pullInputs in Hrun.
  destruct (ASSERT _ _); simpl in Hrun; try discriminate.
  eapply (forEachInput_keeps P); [|exact Hrun|exact Hw].
  intros i s s' Hpull Hs. unfold AudioNodeInput_pull in Hpull.
  destruct (getInput s (this, i)) as [port| | | |]; simpl in Hpull; try discriminate.
  destruct (forEach _ (in_outputs port) s) as [s1| | | |] eqn:Hloop;
    simpl in Hpull; try discriminate.
  unfold onInput in Hpull.
  destruct (getInput s1 (this, i)); simpl in Hpull; try discriminate.
  injection Hpull as <-. apply Hagg.
  eapply (forEach_preserves P); [|exact Hs|exact Hloop].
  intros s2 o s3 _ Hs2. cbv beta.
  destruct (getOutput s2 o) as [out| | | |]; simpl; try discriminate.
  destruct (out_isEnabled out); [intros H; eapply Hrec; eauto | now intros [= <-]].
Qed.

Lemma Memoized_refl ac w : Memoized ac w w.
Proof. only_stated. split; [reflexivity | now intros k node Hk _]. Qed.

Lemma Memoized_trans ac a b c : Memoized ac a b -> Memoized ac b c -> Memoized ac a c.
Proof.
  only_stated.
  intros [Hl1 H1] [Hl2 H2]. split; [congruence|].
  intros k node Hk Hs. destruct (H1 k node Hk Hs) as [Hb Hcb].
  destruct (H2 k node Hb Hs) as [Hc Hcc]. split; [exact Hc | congruence].
Qed.

(** Changing a node that was not settled at the start, or running its
    processing step, is invisible to the nodes that were. *)
Lemma Memoized_updateNode ac w s this node f :
  nodes w !! this = Some node -> settled ac node = false ->
  Memoized ac w s -> Memoized ac w (updateNode this f s).
Proof.
  only_stated.
  intros Hthis Hunsettled [Hl H]. split; [simpl; now rewrite length_alter|].
  intros k nodeK Hk Hs. destruct (H k nodeK Hk Hs) as [Hsk Hck].
  assert (Hne : this <> k) by (intros ->; congruence).
  split; [simpl; now rewrite list_lookup_alter_ne | exact Hck].
Qed.

Lemma Memoized_process ac w s this node :
  nodes w !! this = Some node -> settled ac node = false ->
  Memoized ac w s -> Memoized ac w (process this s).
Proof.
  only_stated.
  intros Hthis Hunsettled [Hl H]. split; [exact Hl|].
  intros k nodeK Hk Hs. destruct (H k nodeK Hk Hs) as [Hsk Hck].
  assert (Hne : this <> k) by (intros ->; congruence).
  split; [exact Hsk|]. unfold timesProcessed, process in *. simpl.
  rewrite count_occ_app. simpl. destruct (Nat.eq_dec this k); [contradiction|lia].
Qed.

Lemma renderQuantum_Memoized ac framesToProcess w s s' this node :
  nodes w !! this = Some node -> settled ac node = false ->
  renderQuantum ac framesToProcess this s = Ok s' ->
  Memoized ac w s -> Memoized ac w s'.
Proof.
  only_stated.
  intros Hthis Hunsettled Hrun Hs.
  destruct (getNode s this) as [node2| | | |] eqn:Hnode2;
    try (unfold renderQuantum in Hrun; rewrite Hnode2 in Hrun; discriminate).
  rewrite (renderQuantum_spec _ _ _ _ _ Hnode2) in Hrun. injection Hrun as <-.
  destruct (_ && _); unfold setNode.
  - now apply Memoized_updateNode with node.
  - apply Memoized_updateNode with node; [assumption..|].
    now apply Memoized_process with node.
Qed.

(** Memoization: [processIfNecessary] leaves every settled node alone. *)
Lemma processIfNecessary_Memoized ac framesToProcess fuel :
  forall this w w',
    processIfNecessary fuel (Some ac) framesToProcess this w = Ok w' ->
    Memoized ac w w'.
Proof.
  only_stated.
  induction fuel as [|fuel IH]; intros this w w' Hrun; [discriminate|].
  simpl in Hrun.
  destruct (getNode w this) as [node| | | |] eqn:Hnode; simpl in Hrun; try discriminate.
  destruct (negb (isInitialized node)) eqn:Hinit;
    [injection Hrun as <-; apply Memoized_refl|].
  destruct (negb (PrimFloat.eqb (m_lastProcessingTime node) (currentTime ac))) eqn:Hstale;
    [|injection Hrun as <-; apply Memoized_refl].
  assert (Hunsettled : settled ac node = false).
  { unfold settled. rewrite Hinit. simpl. now apply negb_true_iff in Hstale. }
  apply getNode_Ok in Hnode.
  destruct (pullInputs _ _ _ _) as [w2| | | |] eqn:Hpull; simpl in Hrun; try discriminate.
  apply (renderQuantum_Memoized _ _ _ _ _ _ _ Hnode Hunsettled Hrun).
  eapply (pullInputs_keeps (Memoized ac w)); [| |exact Hpull|].
  - intros n s s' Hn Hs. eapply Memoized_trans; [exact Hs|]. now apply IH with n.
  - intros i f s. unfold updateInput. now apply Memoized_updateNode with node.
  - apply Memoized_updateNode with node; [assumption..|]. apply Memoized_refl.
Qed.


Lemma Memoized_unsettled ac s s' k node' :
  Memoized ac s s' -> nodes s' !! k = Some node' -> settled ac node' = false ->
  exists node, nodes s !! k = Some node /\ settled ac node = false.
Proof.
  only_stated.
  intros [Hl H] Hk Hunsettled.
  destruct (nodes s !! k) as [node|] eqn:Hnode.
  - exists node. split; [reflexivity|].
    destruct (settled ac node) eqn:Hs; [|reflexivity].
    destruct (H k node Hnode Hs) as [Hsame _]. congruence.
  - apply lookup_ge_None in Hnode. apply lookup_lt_Some in Hk. lia.
Qed.

Lemma getInput_finishes w p : getInput w p <> OutOfFuel.
Proof.
  only_stated.
  unfold getInput, getNode. destruct (nodes w !! fst p) as [node|]; simpl; [|discriminate].
  destruct (input node (snd p)); discriminate.
Qed.

Lemma renderQuantum_finishes ac framesToProcess this w :
  renderQuantum ac framesToProcess this w <> OutOfFuel.
Proof.
  only_stated.
  destruct (getNode w this) as [node| | | |] eqn:Hnode.
  - now rewrite (renderQuantum_spec _ _ _ _ _ Hnode).
  - unfold renderQuantum. now rewrite Hnode.
  - unfold renderQuantum. now rewrite Hnode.
  - unfold renderQuantum. now rewrite Hnode.
  - now apply getNode_finishes in Hnode.
Qed.

(** [processIfNecessary] ends, cycles or not: every nested call that does
    more than return at once has first stamped a node that was not settled,
    and a stamped node is settled. *)
Lemma processIfNecessary_finishes_within ac framesToProcess fuel :
  PrimFloat.eqb (currentTime ac) (currentTime ac) = true ->
  forall (unsettled : gset nat) this w,
    (forall k node, nodes w !! k = Some node -> settled ac node = false -> k ∈ unsettled) ->
    size unsettled < fuel ->
    processIfNecessary fuel (Some ac) framesToProcess this w <> OutOfFuel.
Proof.
  only_stated.
  intros Hnumber.
  induction fuel as [|fuel IH]; intros unsettled this w Hcover Hsize; [lia|].
  simpl.
  destruct (getNode w this) as [node| | | |] eqn:Hnode; simpl; try discriminate;
    [|now apply getNode_finishes in Hnode].
  destruct (negb (isInitialized node)) eqn:Hinit; [discriminate|].
  destruct (negb (PrimFloat.eqb (m_lastProcessingTime node) (currentTime ac))) eqn:Hstale;
    [|discriminate].
  assert (Hunsettled : settled ac node = false).
  { unfold settled. rewrite Hinit. simpl. now apply negb_true_iff in Hstale. }
  apply getNode_Ok in Hnode.
  pose proof (Hcover _ _ Hnode Hunsettled) as Hthis.
  set (rest := unsettled ∖ {[ this ]}).
  assert (Hrest : size rest < fuel).
  { unfold rest. rewrite size_difference by (now apply singleton_subseteq_l).
    rewrite size_singleton.
    assert (size unsettled <> 0) by (intros Hz; apply size_empty_inv in Hz; set_solver).
    lia. }
  set (covered := fun s : Graph =>
         forall k nodeK, nodes s !! k = Some nodeK -> settled ac nodeK = false -> k ∈ rest).
  assert (Hw1 : covered (updateNode this (set_m_lastProcessingTime (currentTime ac)) w)).
  { intros k nodeK Hk HsK. simpl in Hk. rewrite list_lookup_alter in Hk.
    destruct (decide (this = k)) as [<-|Hne].
    - rewrite Hnode in Hk. injection Hk as <-.
      unfold settled in HsK. simpl in HsK. rewrite Hnumber, orb_true_r in HsK.
      discriminate.
    - apply elem_of_difference. split; [now apply Hcover with nodeK | set_solver]. }
  assert (Hagg : forall p f s, covered s -> covered (updateInput p f s)).
  { intros p f s Hs k nodeK Hk HsK. unfold updateInput in Hk. simpl in Hk.
    rewrite list_lookup_alter in Hk. destruct (decide (fst p = k)) as [<-|Hne].
    - destruct (nodes s !! fst p) as [nodeP|] eqn:HnodeP; [|discriminate].
      injection Hk as <-. now apply Hs with nodeP.
    - now apply Hs with nodeK. }
  assert (Hrec : forall n s s',
            processIfNecessary fuel (Some ac) framesToProcess n s = Ok s' ->
            covered s -> covered s').
  { intros n s s' Hn Hs k nodeK Hk HsK.
    destruct (Memoized_unsettled _ _ _ _ _
                (processIfNecessary_Memoized _ _ _ _ _ _ Hn) Hk HsK) as (node0 & ? & ?).
    now apply Hs with node0. }
  assert (Hpull : pullInputs (processIfNecessary fuel (Some ac) framesToProcess)
                    (Some ac) this
                    (updateNode this (set_m_lastProcessingTime (currentTime ac)) w)
                  <> OutOfFuel).
  { unfold pullInputs. destruct (ASSERT _ _) eqn:Hassert; simpl; try discriminate;
      [|unfold ASSERT in Hassert; destruct (_ && _); discriminate].
    unfold forEachInput. apply (forEach_finishes covered); [|exact Hw1].
    intros s i _ Hs. cbv beta.
    destruct (getNode s this) as [nodeS| | | |] eqn:HnodeS; simpl;
      try solve [split; [discriminate | intros ? [=]]];
      [|now apply getNode_finishes in HnodeS].
    destruct (input nodeS i); [|split; [discriminate | now intros s' [= <-]]].
    unfold AudioNodeInput_pull.
    destruct (getInput s (this, i)) as [port| | | |] eqn:Hport; simpl;
      try solve [split; [discriminate | intros ? [=]]];
      [|now apply getInput_finishes in Hport].
    assert (Hturn : forall s2 o, covered s2 ->
              (do out <- getOutput s2 o;
               if out_isEnabled out
               then processIfNecessary fuel (Some ac) framesToProcess (fst o) s2
               else Ok s2) <> OutOfFuel
              /\ forall s3,
                   (do out <- getOutput s2 o;
                    if out_isEnabled out
                    then processIfNecessary fuel (Some ac) framesToProcess (fst o) s2
                    else Ok s2) = Ok s3 -> covered s3).
    { intros s2 o Hs2.
      destruct (getOutput s2 o) as [out| | | |] eqn:Hout; simpl;
        try solve [split; [discriminate | intros ? [=]]];
        [|now apply getOutput_finishes in Hout].
      destruct (out_isEnabled out); [|split; [discriminate | now intros s3 [= <-]]].
      split; [now apply (IH rest) | intros s3 H3; now apply Hrec with (fst o) s2]. }
    destruct (forEach _ (in_outputs port) s) as [s1| | | |] eqn:Hloop; simpl;
      try solve [split; [discriminate | intros ? [=]]].
    - assert (Hs1 : covered s1).
      { eapply (forEach_preserves covered); [|exact Hs|exact Hloop].
        intros s2 o s3 _ Hs2. apply (Hturn s2 o Hs2). }
      unfold onInput.
      destruct (getInput s1 (this, i)) as [port1| | | |] eqn:Hport1; simpl;
        try solve [split; [discriminate | intros ? [=]]];
        [|now apply getInput_finishes in Hport1].
      split; [discriminate|]. intros s' Heq. injection Heq as <-.
      apply Hagg. exact Hs1.
    - exfalso. revert Hloop. apply (forEach_finishes covered); [|exact Hs].
      intros s2 o _ Hs2. apply (Hturn s2 o Hs2). }
  destruct (pullInputs _ _ _ _) as [w2| | | |]; simpl; try discriminate; [|congruence].
  apply renderQuantum_finishes.
Qed.

Lemma processIfNecessary_finishes ac framesToProcess fuel this w :
  PrimFloat.eqb (currentTime ac) (currentTime ac) = true ->
  length (nodes w) < fuel ->
  processIfNecessary fuel (Some ac) framesToProcess this w <> OutOfFuel.
Proof.
  only_stated.
  intros Hnumber Hfuel.
  apply (processIfNecessary_finishes_within _ _ _ Hnumber
           (set_seq 0 (length (nodes w)))).
  - intros k node Hk _. apply elem_of_set_seq. apply lookup_lt_Some in Hk. lia.
  - now rewrite size_set_seq.
Qed.




(** *** Invalid arguments *)

(** What [connect] and [disconnect] do with arguments they cannot use.
    [connect] reports a missing context or destination as a syntax error
    and an index past the ports as an index-size error, and leaves the graph
    alone; so does [disconnect] for its index.  [disconnect] does not look
    at its context before calling through it. *)
Lemma invalid_arguments_of_connect_and_disconnect :
  (forall destination outputIndex inputIndex this w,
     connect None destination outputIndex inputIndex this w = Ok (w, Some SYNTAX_ERR))
  /\ (forall ac outputIndex inputIndex this w,
        connect (Some ac) None outputIndex inputIndex this w = Ok (w, Some SYNTAX_ERR))
  /\ (forall ac dest outputIndex inputIndex this w node,
        getNode w this = Ok node -> numberOfOutputs node <= outputIndex ->
        connect (Some ac) (Some dest) outputIndex inputIndex this w
        = Ok (w, Some INDEX_SIZE_ERR))
  /\ (forall ac dest outputIndex inputIndex this w node destNode,
        getNode w this = Ok node -> getNode w dest = Ok destNode ->
        numberOfInputs destNode <= inputIndex ->
        connect (Some ac) (Some dest) outputIndex inputIndex this w
        = Ok (w, Some INDEX_SIZE_ERR))
  /\ (forall context outputIndex this w node,
        getNode w this = Ok node -> numberOfOutputs node <= outputIndex ->
        disconnect context outputIndex this w = Ok (w, Some INDEX_SIZE_ERR))
  /\ (forall outputIndex this w node,
        getNode w this = Ok node -> outputIndex < numberOfOutputs node ->
        disconnect None outputIndex this w = NullDereference).
Proof.
  only_stated.
  repeat split.
  - intros ac dest outputIndex inputIndex this w node Hnode Hout.
    unfold connect. rewrite Hnode. simpl.
    apply Nat.leb_le in Hout. now rewrite Hout.
  - intros ac dest outputIndex inputIndex this w node destNode Hnode Hdest Hin.
    unfold connect. rewrite Hnode. simpl.
    destruct (numberOfOutputs node <=? outputIndex)%nat; [reflexivity|].
    rewrite Hdest. simpl. apply Nat.leb_le in Hin. now rewrite Hin.
  - intros context outputIndex this w node Hnode Hout.
    unfold disconnect. rewrite Hnode. simpl.
    apply Nat.leb_le in Hout. now rewrite Hout.
  - intros outputIndex this w node Hnode Hout.
    unfold disconnect. rewrite Hnode. simpl.
    apply Nat.leb_gt in Hout. now rewrite Hout.
Qed.

(** *** Registering ports *)

Lemma portsInOrder_new sampleRate latency tail :
  portsInOrder (newAudioNode sampleRate latency tail).
Proof.
  only_stated.
  unfold portsInOrder, input, output. simpl. rewrite !repeat_length.
  split; [reflexivity|]. split; [reflexivity|].
  split; intros i; (split; [|lia]); intros [port Hport]; exfalso;
    destruct (_ <? _)%nat; try discriminate;
    destruct (repeat None _ !! i) as [[port'|]|] eqn:Hslot; try discriminate;
    apply list_elem_of_lookup_2, list_elem_of_In, repeat_spec in Hslot; discriminate.
Qed.

Lemma addInput_in_order port node node' :
  portsInOrder node -> addInput port node = Ok node' ->
  portsInOrder node'
  /\ (numberOfInputs node < AUDIONODE_MAXINPUTS ->
      numberOfInputs node' = S (numberOfInputs node)
      /\ input node' (numberOfInputs node) = Some port
      /\ forall i, i <> numberOfInputs node -> input node' i = input node i)
  /\ (AUDIONODE_MAXINPUTS <= numberOfInputs node -> node' = node)
  /\ (forall i, output node' i = output node i).
Proof.
  only_stated.
  intros (Hlin & Hlout & Hin & Hout). unfold addInput, numberOfInputs in *.
  destruct (m_inputCount node <? AUDIONODE_MAXINPUTS)%nat eqn:Hroom.
  - apply Nat.ltb_lt in Hroom. intros [= <-].
    assert (Hnew : input (set_m_inputCount (S (m_inputCount node))
                            (set_m_inputs (<[m_inputCount node := Some port]> (m_inputs node))
                               node)) (m_inputCount node) = Some port).
    { unfold input. simpl. apply Nat.ltb_lt in Hroom. rewrite Hroom.
      apply Nat.ltb_lt in Hroom. rewrite list_lookup_insert_eq by lia. reflexivity. }
    assert (Hold : forall i, i <> m_inputCount node ->
              input (set_m_inputCount (S (m_inputCount node))
                       (set_m_inputs (<[m_inputCount node := Some port]> (m_inputs node))
                          node)) i = input node i).
    { intros i Hi. unfold input. simpl. now rewrite list_lookup_insert_ne by auto. }
    split; [|split; [|split]].
    + split; [simpl; now rewrite length_insert|]. split; [exact Hlout|].
      split; [|exact Hout]. intros i. simpl.
      destruct (decide (i = m_inputCount node)) as [->|Hi].
      * rewrite Hnew. split; [lia | eauto].
      * rewrite (Hold i Hi), Hin. lia.
    + intros _. split; [reflexivity|]. split; [exact Hnew | exact Hold].
    + lia.
    + reflexivity.
  - apply Nat.ltb_ge in Hroom. unfold ASSERT.
    destruct assertionsEnabled; simpl; [discriminate|]. intros [= <-].
    split; [exact (conj Hlin (conj Hlout (conj Hin Hout)))|].
    split; [lia|]. split; reflexivity.
Qed.

Lemma addOutput_in_order port node node' :
  portsInOrder node -> addOutput port node = Ok node' ->
  portsInOrder node'
  /\ (numberOfOutputs node < AUDIONODE_MAXOUTPUTS ->
      numberOfOutputs node' = S (numberOfOutputs node)
      /\ output node' (numberOfOutputs node) = Some port
      /\ forall i, i <> numberOfOutputs node -> output node' i = output node i)
  /\ (AUDIONODE_MAXOUTPUTS <= numberOfOutputs node -> node' = node)
  /\ (forall i, input node' i = input node i).
Proof.
  only_stated.
  intros (Hlin & Hlout & Hin & Hout). unfold addOutput, numberOfOutputs in *.
  destruct (m_outputCount node <? AUDIONODE_MAXOUTPUTS)%nat eqn:Hroom.
  - apply Nat.ltb_lt in Hroom. intros [= <-].
    assert (Hnew : output (set_m_outputCount (S (m_outputCount node))
                             (set_m_outputs
                                (<[m_outputCount node := Some port]> (m_outputs node))
                                node)) (m_outputCount node) = Some port).
    { unfold output. simpl. apply Nat.ltb_lt in Hroom. rewrite Hroom.
      apply Nat.ltb_lt in Hroom. rewrite list_lookup_insert_eq by lia. reflexivity. }
    assert (Hold : forall i, i <> m_outputCount node ->
              output (set_m_outputCount (S (m_outputCount node))
                        (set_m_outputs
                           (<[m_outputCount node := Some port]> (m_outputs node))
                           node)) i = output node i).
    { intros i Hi. unfold output. simpl. now rewrite list_lookup_insert_ne by auto. }
    split; [|split; [|split]].
    + split; [exact Hlin|]. split; [simpl; now rewrite length_insert|].
      split; [exact Hin|]. intros i. simpl.
      destruct (decide (i = m_outputCount node)) as [->|Hi].
      * rewrite Hnew. split; [lia | eauto].
      * rewrite (Hold i Hi), Hout. lia.
    + intros _. split; [reflexivity|]. split; [exact Hnew | exact Hold].
    + lia.
    + reflexivity.
  - apply Nat.ltb_ge in Hroom. unfold ASSERT.
    destruct assertionsEnabled; simpl; [discriminate|]. intros [= <-].
    split; [exact (conj Hlin (conj Hlout (conj Hin Hout)))|].
    split; [lia|]. split; reflexivity.
Qed.

(** X12.  The ports of a node sit in its port arrays in the order in which
    they were added, without gaps.  A new node has none.  [addInput] puts
    the port in the first free slot and counts it, so that
    [numberOfInputs()] is the number of slots that hold a port and [input(i)]
    is null exactly from there on; the other ports stay where they are.
    With every slot taken, [addInput] stops a build that keeps assertions
    and, in any other build, drops the port and changes nothing.  The same
    holds of [addOutput]. *)
Theorem ports_fill_the_slots_in_order :
  (forall sampleRate latency tail, portsInOrder (newAudioNode sampleRate latency tail))
  /\ (forall port node node',
        portsInOrder node -> addInput port node = Ok node' ->
        portsInOrder node'
        /\ (numberOfInputs node < AUDIONODE_MAXINPUTS ->
            numberOfInputs node' = S (numberOfInputs node)
            /\ input node' (numberOfInputs node) = Some port
            /\ forall i, i <> numberOfInputs node -> input node' i = input node i)
        /\ (AUDIONODE_MAXINPUTS <= numberOfInputs node -> node' = node)
        /\ (forall i, output node' i = output node i))
  /\ (forall port node node',
        portsInOrder node -> addOutput port node = Ok node' ->
        portsInOrder node'
        /\ (numberOfOutputs node < AUDIONODE_MAXOUTPUTS ->
            numberOfOutputs node' = S (numberOfOutputs node)
            /\ output node' (numberOfOutputs node) = Some port
            /\ forall i, i <> numberOfOutputs node -> output node' i = output node i)
        /\ (AUDIONODE_MAXOUTPUTS <= numberOfOutputs node -> node' = node)
        /\ (forall i, input node' i = input node i))
  /\ (forall port node,
        assertionsEnabled = true ->
        (AUDIONODE_MAXINPUTS <= numberOfInputs node ->
           addInput port node = AssertionFailure)
        /\ (numberOfInputs node < AUDIONODE_MAXINPUTS ->
            exists node', addInput port node = Ok node'))
  /\ (forall port node,
        assertionsEnabled = true ->
        (AUDIONODE_MAXOUTPUTS <= numberOfOutputs node ->
           addOutput port node = AssertionFailure)
        /\ (numberOfOutputs node < AUDIONODE_MAXOUTPUTS ->
            exists node', addOutput port node = Ok node')).
Proof.
  only_stated.
  split; [exact portsInOrder_new|]. split; [exact addInput_in_order|].
  split; [exact addOutput_in_order|].
  split; intros port node Hbuild;
    unfold addInput, addOutput, numberOfInputs, numberOfOutputs;
    (split; intros Hcount;
     [apply Nat.ltb_ge in Hcount | apply Nat.ltb_lt in Hcount]; rewrite Hcount;
     [now rewrite Hbuild | eauto]).
Qed.

(** *** Connecting *)

Lemma registered_output w this node outputIndex :
  getNode w this = Ok node -> portsInOrder node ->
  outputIndex < numberOfOutputs node ->
  exists port, getOutput w (this, outputIndex) = Ok port.
Proof.
  only_stated.
  intros Hnode (_ & _ & _ & Hout) Hindex. apply Hout in Hindex as [port Hport].
  exists port. unfold getOutput. simpl. rewrite Hnode. simpl. now rewrite Hport.
Qed.

Lemma registered_input w this node inputIndex :
  getNode w this = Ok node -> portsInOrder node ->
  inputIndex < numberOfInputs node ->
  exists port, getInput w (this, inputIndex) = Ok port.
Proof.
  only_stated.
  intros Hnode (_ & _ & Hin & _) Hindex. apply Hin in Hindex as [port Hport].
  exists port. unfold getInput. simpl. rewrite Hnode. simpl. now rewrite Hport.
Qed.

(** X13.  In a graph whose nodes have their ports in order, [connect] (to a
    node or to a parameter) and [disconnect] either report an error and
    leave the graph alone, or report none and hand ports that exist to the
    context or the parameter: an index that passes the check against
    [numberOfOutputs()] or [numberOfInputs()] is the index of a slot that
    holds a port, so no null port leaves the node.  A missing parameter is a
    syntax error whatever the index. *)
Theorem connecting_hands_over_ports_that_exist
    (AudioParam_connect : nat -> PortRef -> Graph -> Graph) this w :
  Forall portsInOrder (nodes w) ->
  (forall context destination outputIndex inputIndex w' ec,
     connect context destination outputIndex inputIndex this w = Ok (w', ec) ->
     (ec <> None -> w' = w)
     /\ (ec = None ->
         exists dest outputPort inputPort,
           destination = Some dest
           /\ getOutput w (this, outputIndex) = Ok outputPort
           /\ getInput w (dest, inputIndex) = Ok inputPort
           /\ w' = AudioContext_connect (dest, inputIndex) (this, outputIndex) w))
  /\ (forall param outputIndex w' ec,
        connectToParam AudioParam_connect param outputIndex this w = Ok (w', ec) ->
        (param = None -> ec = Some SYNTAX_ERR)
        /\ (ec <> None -> w' = w)
        /\ (ec = None ->
            exists p outputPort,
              param = Some p
              /\ getOutput w (this, outputIndex) = Ok outputPort
              /\ w' = AudioParam_connect p (this, outputIndex) w))
  /\ (forall context outputIndex w' ec,
        disconnect context outputIndex this w = Ok (w', ec) ->
        (ec <> None -> w' = w)
        /\ (ec = None ->
            exists outputPort,
              getOutput w (this, outputIndex) = Ok outputPort
              /\ w' = AudioContext_disconnect (this, outputIndex) w)).
Proof.
  only_stated.
  intros Hw.
  assert (Hordered : forall n node, getNode w n = Ok node -> portsInOrder node).
  { intros n node Hn. apply getNode_Ok in Hn. eapply Forall_lookup_1; eauto. }
  split; [|split].
  - intros context destination outputIndex inputIndex w' ec. unfold connect.
    destruct context as [ac|]; [|intros [= <- <-]; split; [reflexivity | discriminate]].
    destruct destination as [dest|];
      [|intros [= <- <-]; split; [reflexivity | discriminate]].
    destruct (getNode w this) as [node| | | |] eqn:Hnode; simpl; try discriminate.
    destruct (numberOfOutputs node <=? outputIndex)%nat eqn:Hout;
      [intros [= <- <-]; split; [reflexivity | discriminate]|].
    destruct (getNode w dest) as [destNode| | | |] eqn:Hdest; simpl; try discriminate.
    destruct (numberOfInputs destNode <=? inputIndex)%nat eqn:Hin;
      intros [= <- <-]; (split; [try reflexivity; intros H; now elim H|]);
      [discriminate|].
    intros _. apply Nat.leb_gt in Hout, Hin.
    destruct (registered_output w this node outputIndex Hnode (Hordered _ _ Hnode) Hout)
      as [output Houtput].
    destruct (registered_input w dest destNode inputIndex Hdest (Hordered _ _ Hdest) Hin)
      as [input Hinput].
    exists dest, output, input. repeat split; assumption.
  - intros param outputIndex w' ec. unfold connectToParam.
    destruct param as [p|];
      [|intros [= <- <-]; split; [reflexivity|]; split; [reflexivity | discriminate]].
    destruct (getNode w this) as [node| | | |] eqn:Hnode; simpl; try discriminate.
    destruct (numberOfOutputs node <=? outputIndex)%nat eqn:Hout;
      intros [= <- <-]; (split; [discriminate|]);
      (split; [try reflexivity; intros H; now elim H|]); [discriminate|].
    intros _. apply Nat.leb_gt in Hout.
    destruct (registered_output w this node outputIndex Hnode (Hordered _ _ Hnode) Hout)
      as [output Houtput].
    exists p, output. repeat split; assumption.
  - intros context outputIndex w' ec. unfold disconnect.
    destruct (getNode w this) as [node| | | |] eqn:Hnode; simpl; try discriminate.
    destruct (numberOfOutputs node <=? outputIndex)%nat eqn:Hout;
      [intros [= <- <-]; split; [reflexivity | discriminate]|].
    destruct context as [ac|]; [|discriminate].
    intros [= <- <-]. split; [intros H; now elim H|]. intros _.
    apply Nat.leb_gt in Hout.
    destruct (registered_output w this node outputIndex Hnode (Hordered _ _ Hnode) Hout)
      as [output Houtput].
    exists output. split; [assumption | reflexivity].
Qed.

(** *** References taken and given back *)

Lemma set_m_normalRefCount_back node x :
  set_m_normalRefCount (m_normalRefCount node) (set_m_normalRefCount x node) = node.
Proof. only_stated. now destruct node. Qed.

Lemma set_m_connectionRefCount_back node x :
  set_m_connectionRefCount (m_connectionRefCount node) (set_m_connectionRefCount x node)
  = node.
Proof. only_stated. now destruct node. Qed.

(** X14.  A reference that is taken and given back leaves no trace.  On a
    node that is referenced already in the same way (and, for a connection
    reference, is not disabled), [ref] followed by [deref] of the same type
    ends with the graph exactly as it was: the counter is back, no output
    was disabled, nothing was disconnected or marked. *)
Theorem deref_undoes_ref fuel refType this w node :
  getNode w this = Ok node ->
  (0 < refCount refType node < INT_MAX)%Z ->
  (refType = RefTypeConnection -> m_isDisabled node = false) ->
  exists w1 node1,
    ref refType this w = Ok w1
    /\ getNode w1 this = Ok node1
    /\ refCount refType node1 = (refCount refType node + 1)%Z
    /\ deref (S fuel) refType this w1 = Ok w.
Proof.
  only_stated.
  intros Hnode Hcount Henabled. unfold ref. rewrite Hnode. simpl.
  destruct refType; simpl in Hcount.
  - set (node1 := set_m_normalRefCount (atomicIncrement (m_normalRefCount node)) node).
    assert (Hup : atomicIncrement (m_normalRefCount node) = (m_normalRefCount node + 1)%Z)
      by (unfold atomicIncrement; apply wrap32_int; unfold INT_MAX in *; lia).
    assert (Hnode1 : getNode (setNode this node1 w) this = Ok node1)
      by (now apply getNode_setNode_eq with node).
    exists (setNode this node1 w), node1. split; [reflexivity|]. split; [exact Hnode1|].
    split; [exact Hup|].
    simpl. rewrite Hnode1. simpl. unfold ASSERT. simpl. rewrite Hup.
    assert (Hpos : (0 <? m_normalRefCount node + 1)%Z = true) by (apply Z.ltb_lt; lia).
    rewrite Hpos, andb_false_r. simpl.
    assert (Hdown : atomicDecrement (m_normalRefCount node + 1) = m_normalRefCount node)
      by (unfold atomicDecrement; rewrite wrap32_int; unfold INT_MAX in *; lia).
    rewrite Hdown. unfold node1. rewrite set_m_normalRefCount_back.
    rewrite setNode_setNode, (setNode_same _ _ _ Hnode).
    assert (Hn : (m_normalRefCount node =? 0)%Z = false) by (apply Z.eqb_neq; lia).
    rewrite Hn. now destruct (m_connectionRefCount node =? 0)%Z.
  - set (node1 := set_m_connectionRefCount
                    (atomicIncrement (m_connectionRefCount node)) node).
    assert (Hup : atomicIncrement (m_connectionRefCount node)
                  = (m_connectionRefCount node + 1)%Z)
      by (unfold atomicIncrement; apply wrap32_int; unfold INT_MAX in *; lia).
    assert (Hnode1 : getNode (setNode this node1 w) this = Ok node1)
      by (now apply getNode_setNode_eq with node).
    exists (setNode this node1 w), node1.
    assert (Hawake : enableOutputsIfNecessary this (setNode this node1 w)
                     = Ok (setNode this node1 w)).
    { unfold enableOutputsIfNecessary. rewrite Hnode1. simpl.
      now rewrite (Henabled eq_refl). }
    split; [exact Hawake|]. split; [exact Hnode1|]. split; [exact Hup|].
    simpl. rewrite Hnode1. simpl. unfold ASSERT. simpl. rewrite Hup.
    assert (Hpos : (0 <? m_connectionRefCount node + 1)%Z = true)
      by (apply Z.ltb_lt; lia).
    rewrite Hpos, andb_false_r. simpl.
    assert (Hdown : atomicDecrement (m_connectionRefCount node + 1)
                    = m_connectionRefCount node)
      by (unfold atomicDecrement; rewrite wrap32_int; unfold INT_MAX in *; lia).
    rewrite Hdown. unfold node1. rewrite set_m_connectionRefCount_back.
    rewrite setNode_setNode, (setNode_same _ _ _ Hnode).
    assert (Hc : (m_connectionRefCount node =? 0)%Z = false) by (apply Z.eqb_neq; lia).
    now rewrite Hc.
Qed.

Lemma imap_imap_same {A : Type} (f g : nat -> A -> A) (l : list A) :
  (forall i x, l !! i = Some x -> f i (g i x) = x) -> imap f (imap g l) = l.
Proof.
  only_stated.
  intros H. apply list_eq. intros i. rewrite !list_lookup_imap.
  destruct (l !! i) as [x|] eqn:Hx; simpl; [|reflexivity]. now rewrite (H i x Hx).
Qed.

(** A node whose outputs were all enabled is itself again after its outputs
    were disabled and enabled. *)
Lemma enable_disable node :
  m_isDisabled node = false ->
  (forall i port, output node i = Some port -> out_isEnabled port = true) ->
  mapOutputs AudioNodeOutput_enable
    (set_m_isDisabled false
       (mapOutputs AudioNodeOutput_disable (set_m_isDisabled true node)))
  = node.
Proof.
  only_stated.
  intros Hflag Hports. unfold mapOutputs, mapOutputsBelow. simpl.
  rewrite imap_imap_same.
  - destruct node. simpl in *. now subst.
  - intros i o Ho. destruct (i <? AUDIONODE_MAXOUTPUTS)%nat eqn:Hi; [|reflexivity].
    destruct o as [port|]; [|reflexivity]. simpl.
    specialize (Hports i port). unfold output in Hports. rewrite Hi, Ho in Hports.
    specialize (Hports eq_refl). destruct port. simpl in *. now subst.
Qed.

(** X15.  Disconnecting the last connection of a node and connecting it
    again.  The [deref] that takes the connection count from one to zero
    puts the node to sleep (unless it is a convolver or a delay), and the
    [ref] that takes the count back to one wakes it: its disabled flag is
    cleared and every output enabled again.  When the outputs were all
    enabled to begin with, the graph is as it was before the two calls. *)
Theorem reconnecting_wakes_a_dormant_node fuel this w node :
  getNode w this = Ok node ->
  m_connectionRefCount node = 1%Z ->
  (0 < m_normalRefCount node)%Z ->
  m_isDisabled node = false ->
  (forall i port, output node i = Some port -> out_isEnabled port = true) ->
  exists w1 asleep,
    deref (S fuel) RefTypeConnection this w = Ok w1
    /\ getNode w1 this = Ok asleep
    /\ m_connectionRefCount asleep = 0%Z
    /\ m_isDisabled asleep = negb (isTailNode (nodeType node))
    /\ (forall i port, output asleep i = Some port ->
          out_isEnabled port = isTailNode (nodeType node))
    /\ ref RefTypeConnection this w1 = Ok w.
Proof.
  only_stated.
  intros Hnode Hconn Hnormal Hflag Hports.
  set (node1 := set_m_connectionRefCount 0 node).
  assert (Hderef : deref (S fuel) RefTypeConnection this w
                   = disableOutputsIfNecessary this (setNode this node1 w)).
  { simpl. rewrite Hnode. simpl. unfold ASSERT. rewrite Hconn. simpl.
    rewrite andb_false_r. simpl.
    assert (Hn : (m_normalRefCount node =? 0)%Z = false) by (apply Z.eqb_neq; lia).
    rewrite Hn. reflexivity. }
  assert (Hnode1 : getNode (setNode this node1 w) this = Ok node1)
    by (eapply getNode_setNode_eq; eauto).
  assert (Hone : atomicIncrement 0 = 1%Z) by reflexivity.
  assert (Hback : set_m_connectionRefCount 1 node1 = node).
  { unfold node1. rewrite <- Hconn at 1. apply set_m_connectionRefCount_back. }
  rewrite Hderef. destruct (isTailNode (nodeType node)) eqn:Htail.
  - exists (setNode this node1 w), node1.
    split; [now apply disableOutputsIfNecessary_tail with node1|].
    split; [exact Hnode1|]. split; [reflexivity|]. split; [exact Hflag|].
    split; [exact Hports|].
    unfold ref. rewrite Hnode1. simpl. rewrite Hone, Hback, setNode_setNode.
    unfold enableOutputsIfNecessary.
    rewrite (getNode_setNode_eq _ _ _ _ Hnode). simpl. rewrite Hflag. simpl.
    now rewrite (setNode_same _ _ _ Hnode).
  - set (asleep := mapOutputs AudioNodeOutput_disable (set_m_isDisabled true node1)).
    exists (setNode this asleep w), asleep.
    assert (Hasleep : getNode (setNode this asleep w) this = Ok asleep)
      by (eapply getNode_setNode_eq; eauto).
    split.
    { unfold disableOutputsIfNecessary. rewrite Hnode1. simpl.
      rewrite Hflag. unfold nodeType in *. simpl. rewrite Htail. simpl.
      rewrite (forEachOutput_onOutput _ _ _ (set_m_isDisabled true node1)).
      - now rewrite setNode_updateNode, setNode_setNode.
      - now apply getNode_updateNode_eq. }
    split; [exact Hasleep|]. split; [reflexivity|]. split; [reflexivity|].
    split.
    { intros i port. unfold asleep. rewrite output_mapOutputs.
      change (output (set_m_isDisabled true node1) i) with (output node i).
      destruct (output node i); simpl; intros H; inversion H. reflexivity. }
    unfold ref. rewrite Hasleep. simpl. rewrite Hone, setNode_setNode.
    set (counted := set_m_connectionRefCount 1 asleep).
    assert (Hcounted : getNode (setNode this counted w) this = Ok counted)
      by (eapply getNode_setNode_eq; eauto).
    unfold enableOutputsIfNecessary. rewrite Hcounted. simpl.
    rewrite (forEachOutput_onOutput _ _ _ (set_m_isDisabled false counted))
      by (now apply getNode_updateNode_eq).
    rewrite setNode_updateNode, setNode_setNode.
    replace (mapOutputs AudioNodeOutput_enable (set_m_isDisabled false counted))
      with node; [now rewrite (setNode_same _ _ _ Hnode)|].
    rewrite <- (enable_disable node Hflag Hports) at 1.
    unfold counted, asleep, node1, mapOutputs, mapOutputsBelow. simpl.
    destruct node. simpl in *. now subst.
Qed.

(** *** What the two locks guard *)

Lemma map_alter_same {A B : Type} (g : A -> B) (f : A -> A) (n : nat) (l : list A) :
  (forall x, l !! n = Some x -> g (f x) = g x) ->
  map g (alter f n l) = map g l.
Proof.
  only_stated.
  revert n. induction l as [|x l IH]; intros n H; [reflexivity|].
  destruct n as [|n]; simpl.
  - f_equal. now apply H.
  - f_equal. apply IH. intros y Hy. now apply H.
Qed.

Lemma map_imap_same {A B : Type} (g : A -> B) (h : nat -> A -> A) (l : list A) :
  (forall i x, g (h i x) = g x) -> map g (imap h l) = map g l.
Proof.
  only_stated.
  revert h. induction l as [|x l IH]; intros h H; [reflexivity|].
  simpl. f_equal; [apply H|]. apply IH. intros i y. apply H.
Qed.

Lemma lifecycleOf_updateNode n f w :
  (forall node, nodes w !! n = Some node -> lifecycleOf (f node) = lifecycleOf node) ->
  map lifecycleOf (nodes (updateNode n f w)) = map lifecycleOf (nodes w).
Proof. only_stated. intros H. simpl. now apply map_alter_same. Qed.

Lemma renderingOf_updateNode n f w :
  (forall node, nodes w !! n = Some node -> renderingOf (f node) = renderingOf node) ->
  map renderingOf (nodes (updateNode n f w)) = map renderingOf (nodes w).
Proof. only_stated. intros H. simpl. now apply map_alter_same. Qed.

Lemma lifecycleOf_mapOutputs f node :
  (forall port, out_inputs (f port) = out_inputs port
                /\ out_isEnabled (f port) = out_isEnabled port) ->
  lifecycleOf (mapOutputs f node) = lifecycleOf node.
Proof.
  only_stated.
  intros Hf. unfold lifecycleOf, mapOutputs, mapOutputsBelow. simpl. f_equal.
  apply map_imap_same. intros i [port|]; destruct (i <? _)%nat; simpl; try reflexivity.
  now destruct (Hf port) as [-> ->].
Qed.

Lemma renderingOf_mapOutputs f node :
  (forall port, out_busIsSilent (f port) = out_busIsSilent port) ->
  renderingOf (mapOutputs f node) = renderingOf node.
Proof.
  only_stated.
  intros Hf. unfold renderingOf, mapOutputs, mapOutputsBelow. simpl. f_equal.
  apply map_imap_same. intros i [port|]; destruct (i <? _)%nat; simpl; try reflexivity.
  now rewrite Hf.
Qed.

(** A property that nested processing and the writing of the silent flag of
    this node's input buses keep is kept by [pullInputs]. *)
Lemma pullInputs_keeps_wiring (P : Graph -> Prop) processNode r this :
  (forall n w w', processNode n w = Ok w' -> P w -> P w') ->
  (forall i flag w,
     P w ->
     P (updateInput (this, i)
          (fun port => {| in_outputs := in_outputs port; in_busIsSilent := flag |}) w)) ->
  forall w w', pullInputs processNode r this w = Ok w' -> P w -> P w'.
Proof.
  only_stated.
  intros Hrec Hagg w w' Hrun Hw. unfold pullInputs in Hrun.
  destruct (ASSERT _ _); simpl in Hrun; try discriminate.
  eapply (forEachInput_keeps P); [|exact Hrun|exact Hw].
  intros i s s' Hpull Hs. unfold AudioNodeInput_pull in Hpull.
  destruct (getInput s (this, i)) as [port| | | |]; simpl in Hpull; try discriminate.
  destruct (forEach _ (in_outputs port) s) as [s1| | | |] eqn:Hloop;
    simpl in Hpull; try discriminate.
  unfold onInput in Hpull.
  destruct (getInput s1 (this, i)); simpl in Hpull; try discriminate.
  injection Hpull as <-. apply Hagg.
  eapply (forEach_preserves P); [|exact Hs|exact Hloop].
  intros s2 o s3 _ Hs2. cbv beta.
  destruct (getOutput s2 o) as [out| | | |]; simpl; try discriminate.
  destruct (out_isEnabled out); [intros H; eapply Hrec; eauto | now intros [= <-]].
Qed.

(** X16.  Rendering leaves alone what the graph lock guards.  Whatever part
    of the graph a [processIfNecessary] walks through, afterwards every node
    has the reference counts, the marked-for-deletion and disabled flags,
    the kind, the ports and the connections it had: rendering writes
    timestamps and buses and nothing else. *)
Theorem rendering_keeps_the_life_cycle fuel r framesToProcess this w w' :
  processIfNecessary fuel r framesToProcess this w = Ok w' ->
  map lifecycleOf (nodes w') = map lifecycleOf (nodes w).
Proof.
  only_stated.
  revert this w w'. induction fuel as [|fuel IH]; intros this w w' Hrun; [discriminate|].
  simpl in Hrun. destruct r as [ac|]; [|now injection Hrun as <-].
  destruct (getNode w this) as [node| | | |] eqn:Hnode; simpl in Hrun; try discriminate.
  destruct (negb (isInitialized node)); [now injection Hrun as <-|].
  destruct (negb (PrimFloat.eqb _ _)); [|now injection Hrun as <-].
  destruct (pullInputs _ _ _ _) as [w2| | | |] eqn:Hpull; simpl in Hrun; try discriminate.
  assert (Hw2 : map lifecycleOf (nodes w2) = map lifecycleOf (nodes w)).
  { eapply (pullInputs_keeps_wiring
              (fun s => map lifecycleOf (nodes s) = map lifecycleOf (nodes w)));
      [| |exact Hpull|].
    - intros n s s' Hn Hs. rewrite <- Hs. now apply IH with n.
    - intros i flag s Hs. rewrite <- Hs. unfold updateInput.
      apply lifecycleOf_updateNode. intros nodeS _.
      unfold lifecycleOf. simpl. do 2 f_equal.
      apply map_alter_same. now intros [port|] _.
    - now apply lifecycleOf_updateNode. }
  destruct (getNode w2 this) as [node2| | | |] eqn:Hnode2;
    try (unfold renderQuantum in Hrun; rewrite Hnode2 in Hrun; discriminate).
  rewrite (renderQuantum_spec _ _ _ _ _ Hnode2) in Hrun. injection Hrun as <-.
  rewrite <- Hw2. apply getNode_Ok in Hnode2.
  assert (Hnode3 : lifecycleOf
                     (if inputsAreSilent node2 then node2
                      else set_m_lastNonSilentTime
                             (endOfQuantum ac framesToProcess node2) node2)
                   = lifecycleOf node2) by (now destruct (inputsAreSilent node2)).
  destruct (_ && _); unfold setNode;
    [|change (map lifecycleOf (nodes w2))
        with (map lifecycleOf (nodes (process this w2)))];
    apply lifecycleOf_updateNode; intros node' Hnode';
    (replace node' with node2 by (simpl in Hnode'; congruence));
    rewrite lifecycleOf_mapOutputs by (intros port; split; reflexivity);
    exact Hnode3.
Qed.

(** X17.  Taking and dropping references leaves alone what rendering works
    on.  A [ref] or a [deref], however far its disconnections cascade, runs
    no processing step and leaves every node's initialized flag, timestamps
    and silent flags as they were: the memoization of the quantum that is
    being rendered is not disturbed. *)
Theorem references_keep_the_rendering_state refType this w :
  (forall fuel w',
     deref fuel refType this w = Ok w' ->
     processCalls w' = processCalls w
     /\ map renderingOf (nodes w') = map renderingOf (nodes w))
  /\ (forall w',
        ref refType this w = Ok w' ->
        processCalls w' = processCalls w
        /\ map renderingOf (nodes w') = map renderingOf (nodes w)).
Proof.
  only_stated.
  set (P := fun s : Graph =>
              processCalls s = processCalls w
              /\ map renderingOf (nodes s) = map renderingOf (nodes w)).
  assert (Hupdate : forall n f s,
            (forall node, nodes s !! n = Some node ->
                          renderingOf (f node) = renderingOf node) ->
            P s -> P (updateNode n f s)).
  { intros n f s Hf [Hcalls Hnodes]. split; [exact Hcalls|].
    rewrite <- Hnodes. now apply renderingOf_updateNode. }
  split.
  - intros fuel w' Hrun.
    apply (deref_keeps P) with fuel refType this w; [| | | |exact Hrun|now split].
    + intros rt n s node0 node Hnode0 Hdec. apply Hupdate. intros node1 Hnode1.
      apply getNode_Ok in Hnode0. replace node1 with node0 by congruence.
      unfold decrementRefCount in Hdec.
      destruct rt; destruct (ASSERT _ _); simpl in Hdec; try discriminate;
        now injection Hdec as <-.
    + intros o i s _ Hs. unfold removeConnection, updateInput, updateOutput.
      apply Hupdate; [|apply Hupdate; [|exact Hs]]; intros node _;
        unfold renderingOf; simpl; [do 2 f_equal | f_equal];
        apply map_alter_same; now intros [port|] _.
    + intros n s. now apply Hupdate.
    + intros n s s' Hdis Hs.
      destruct (disableOutputsIfNecessary_cases _ _ _ Hdis) as [->|(node & Hnode & ->)];
        [exact Hs|].
      apply Hupdate; [|exact Hs]. intros node1 Hnode1.
      apply getNode_Ok in Hnode. replace node1 with node by congruence.
      now rewrite renderingOf_mapOutputs.
  - intros w'. unfold ref.
    destruct (getNode w this) as [node| | | |] eqn:Hnode; simpl; try discriminate.
    assert (Hcount : forall node1,
              renderingOf node1 = renderingOf node -> P (setNode this node1 w)).
    { intros node1 H1. apply Hupdate; [|now split]. intros node0 Hnode0.
      apply getNode_Ok in Hnode. congruence. }
    destruct refType; [intros [= <-]; now apply Hcount|].
    intros Hrun.
    destruct (enableOutputsIfNecessary_cases _ _ _ Hrun) as [->|(node2 & Hnode2 & ->)];
      [now apply Hcount|].
    apply Hupdate; [|now apply Hcount]. intros node3 Hnode3.
    apply getNode_Ok in Hnode2. replace node3 with node2 by congruence.
    now rewrite renderingOf_mapOutputs.
Qed.

(** *** Rendering that ends well *)

Lemma lookup_map {A B : Type} (g : A -> B) (l : list A) (i : nat) :
  map g l !! i = g <$> (l !! i).
Proof.
  only_stated.
  revert i. induction l as [|x l IH]; intros [|i]; simpl; auto.
Qed.

Lemma lifecycle_getNode a b n nodeA :
  map lifecycleOf (nodes a) = map lifecycleOf (nodes b) ->
  getNode a n = Ok nodeA ->
  exists nodeB, getNode b n = Ok nodeB /\ lifecycleOf nodeB = lifecycleOf nodeA.
Proof.
  only_stated.
  intros Hsame Ha. apply getNode_Ok in Ha.
  assert (H : map lifecycleOf (nodes b) !! n = Some (lifecycleOf nodeA))
    by (rewrite <- Hsame, lookup_map, Ha; reflexivity).
  rewrite lookup_map in H. destruct (nodes b !! n) as [nodeB|] eqn:Hb; [|discriminate].
  exists nodeB. split; [now apply getNode_Ok|]. simpl in H. congruence.
Qed.

Lemma lifecycle_output nodeA nodeB i portA :
  lifecycleOf nodeB = lifecycleOf nodeA ->
  output nodeA i = Some portA ->
  exists portB, output nodeB i = Some portB.
Proof.
  only_stated.
  intros Hsame. unfold output. destruct (i <? AUDIONODE_MAXOUTPUTS)%nat; [|discriminate].
  assert (H : map (fmap (fun port => (out_inputs port, out_isEnabled port)))
                (m_outputs nodeB) !! i
              = map (fmap (fun port => (out_inputs port, out_isEnabled port)))
                  (m_outputs nodeA) !! i)
    by (unfold lifecycleOf in Hsame; now injection Hsame as _ _ _ _ _ _ _ _ ->).
  rewrite !lookup_map in H.
  destruct (m_outputs nodeA !! i) as [[pa|]|]; try discriminate. intros _.
  destruct (m_outputs nodeB !! i) as [[pb|]|]; try discriminate. eauto.
Qed.

Lemma lifecycle_input nodeA nodeB i portA :
  lifecycleOf nodeB = lifecycleOf nodeA ->
  input nodeA i = Some portA ->
  exists portB, input nodeB i = Some portB /\ in_outputs portB = in_outputs portA.
Proof.
  only_stated.
  intros Hsame. unfold input. destruct (i <? AUDIONODE_MAXINPUTS)%nat; [|discriminate].
  assert (H : map (fmap in_outputs) (m_inputs nodeB) !! i
              = map (fmap in_outputs) (m_inputs nodeA) !! i)
    by (unfold lifecycleOf in Hsame; now injection Hsame as _ _ _ _ _ _ _ -> _).
  rewrite !lookup_map in H.
  destruct (m_inputs nodeA !! i) as [[pa|]|]; try discriminate. intros [= <-].
  destruct (m_inputs nodeB !! i) as [[pb|]|]; try discriminate.
  simpl in H. exists pb. split; [reflexivity | congruence].
Qed.

Lemma lifecycle_getOutput a b o portA :
  map lifecycleOf (nodes a) = map lifecycleOf (nodes b) ->
  getOutput a o = Ok portA -> exists portB, getOutput b o = Ok portB.
Proof.
  only_stated.
  intros Hsame. unfold getOutput.
  destruct (getNode a (fst o)) as [nodeA| | | |] eqn:Ha; simpl; try discriminate.
  destruct (lifecycle_getNode _ _ _ _ Hsame Ha) as (nodeB & -> & HB). simpl.
  destruct (output nodeA (snd o)) as [pa|] eqn:Hpa; [|discriminate]. intros _.
  destruct (lifecycle_output _ _ _ _ HB Hpa) as (pb & ->). eauto.
Qed.

Lemma lifecycle_getInput a b p portA :
  map lifecycleOf (nodes a) = map lifecycleOf (nodes b) ->
  getInput a p = Ok portA ->
  exists portB, getInput b p = Ok portB /\ in_outputs portB = in_outputs portA.
Proof.
  only_stated.
  intros Hsame. unfold getInput.
  destruct (getNode a (fst p)) as [nodeA| | | |] eqn:Ha; simpl; try discriminate.
  destruct (lifecycle_getNode _ _ _ _ Hsame Ha) as (nodeB & -> & HB). simpl.
  destruct (input nodeA (snd p)) as [pa|] eqn:Hpa; [|discriminate]. intros [= <-].
  destruct (lifecycle_input _ _ _ _ HB Hpa) as (pb & -> & Hpb). eauto.
Qed.

Lemma lifecycle_wired a b :
  map lifecycleOf (nodes a) = map lifecycleOf (nodes b) ->
  inputsAreWired a -> inputsAreWired b.
Proof.
  only_stated.
  intros Hsame Ha p port o Hport Ho.
  destruct (lifecycle_getInput b a p port (eq_sym Hsame) Hport) as (portA & HportA & Heq).
  destruct (Ha p portA o HportA ltac:(congruence)) as (out & Hout).
  now apply lifecycle_getOutput with a out.
Qed.

(** On a wired graph [processIfNecessary] goes well, and what it leaves has
    the life cycle it found. *)
Lemma processIfNecessary_safely ac framesToProcess fuel :
  forall this w node,
    inputsAreWired w -> getNode w this = Ok node ->
    safely (fun w' => map lifecycleOf (nodes w') = map lifecycleOf (nodes w))
      (processIfNecessary fuel (Some ac) framesToProcess this w).
Proof.
  only_stated.
  induction fuel as [|fuel IH]; intros this w node Hwired Hnode; [exact I|].
  simpl. rewrite Hnode. simpl.
  destruct (negb (isInitialized node)); [reflexivity|].
  destruct (negb (PrimFloat.eqb _ _)); [|reflexivity].
  set (Q := fun s : Graph => map lifecycleOf (nodes s) = map lifecycleOf (nodes w)).
  assert (Hthis : forall s, Q s -> exists nodeS, getNode s this = Ok nodeS).
  { intros s Hs. destruct (lifecycle_getNode w s this node (eq_sym Hs) Hnode)
      as (nodeS & ? & _). eauto. }
  apply safely_bind with Q.
  - unfold pullInputs, ASSERT. rewrite bool_decide_eq_true_2 by eauto.
    rewrite andb_false_r. simpl. unfold forEachInput.
    apply (safely_forEach Q);
      [|apply lifecycleOf_updateNode; now intros nodeW _].
    intros s i _ Hs. destruct (Hthis s Hs) as (nodeS & HnodeS). rewrite HnodeS. simpl.
    destruct (input nodeS i) as [portS|] eqn:HportS; [|exact Hs].
    assert (Hget : getInput s (this, i) = Ok portS)
      by (unfold getInput; simpl; rewrite HnodeS; simpl; now rewrite HportS).
    unfold AudioNodeInput_pull. rewrite Hget. simpl.
    apply safely_bind with Q.
    + apply (safely_forEach Q); [|exact Hs]. intros s2 o Ho Hs2.
      destruct (lifecycle_wired w s (eq_sym Hs) Hwired _ _ _ Hget Ho) as (out & Hout).
      destruct (lifecycle_getOutput s s2 o out ltac:(unfold Q in *; congruence) Hout)
        as (out2 & Hout2).
      rewrite Hout2. simpl. destruct (out_isEnabled out2); [|exact Hs2].
      assert (Hpeer : exists peer, getNode s2 (fst o) = Ok peer).
      { unfold getOutput in Hout2.
        destruct (getNode s2 (fst o)); simpl in Hout2; try discriminate. eauto. }
      destruct Hpeer as (peer & Hpeer).
      apply safely_impl
        with (fun w' => map lifecycleOf (nodes w') = map lifecycleOf (nodes s2)).
      * apply IH with peer; [|exact Hpeer].
        now apply lifecycle_wired with w.
      * intros w' Hw'. unfold Q in *. congruence.
    + intros s1 _ Hs1. unfold onInput.
      destruct (lifecycle_getInput s s1 (this, i) portS
                  ltac:(unfold Q in *; congruence) Hget) as (port1 & -> & _).
      simpl. unfold Q. rewrite <- Hs1. unfold updateInput.
      apply lifecycleOf_updateNode. intros nodeS1 _.
      unfold lifecycleOf. simpl. do 2 f_equal.
      apply map_alter_same. now intros [port|] _.
  - intros w2 _ Hw2. destruct (Hthis w2 Hw2) as (node2 & Hnode2).
    rewrite (renderQuantum_spec _ _ _ _ _ Hnode2). simpl.
    unfold Q in *. rewrite <- Hw2. apply getNode_Ok in Hnode2.
    assert (Hnode3 : lifecycleOf
                       (if inputsAreSilent node2 then node2
                        else set_m_lastNonSilentTime
                               (endOfQuantum ac framesToProcess node2) node2)
                     = lifecycleOf node2) by (now destruct (inputsAreSilent node2)).
    destruct (_ && _); unfold setNode;
      [|change (map lifecycleOf (nodes w2))
          with (map lifecycleOf (nodes (process this w2)))];
      apply lifecycleOf_updateNode; intros node' Hnode';
      (replace node' with node2 by (simpl in Hnode'; congruence));
      rewrite lifecycleOf_mapOutputs by (intros port; split; reflexivity);
      exact Hnode3.
Qed.

(** X18.  Rendering a wired graph ends well.  When every connection that an
    input records leads to an output that exists, and the timestamp is a
    number, [processIfNecessary] on a node of the graph returns: it stops on
    no [ASSERT] (the one in [pullInputs] cannot fail, the context having
    been looked at before), dereferences no null port or node, and needs no
    more nesting than the graph has nodes.  The graph it leaves is wired
    again. *)
Theorem rendering_a_wired_graph_ends_well ac framesToProcess fuel this w node :
  PrimFloat.eqb (currentTime ac) (currentTime ac) = true ->
  inputsAreWired w ->
  getNode w this = Ok node ->
  length (nodes w) < fuel ->
  exists w',
    processIfNecessary fuel (Some ac) framesToProcess this w = Ok w'
    /\ inputsAreWired w'
    /\ length (nodes w') = length (nodes w).
Proof.
  only_stated.
  intros Hnumber Hwired Hnode Hfuel.
  destruct (safely_Ok _ _
              (processIfNecessary_safely ac framesToProcess fuel this w node Hwired Hnode)
              (processIfNecessary_finishes _ _ _ _ _ Hnumber Hfuel))
    as (w' & Hrun & Hsame).
  exists w'. split; [exact Hrun|]. split; [now apply lifecycle_wired with w|].
  rewrite <- (length_map lifecycleOf (nodes w')), Hsame. apply length_map.
Qed.

(** *** Dropping references that are accounted for *)

Lemma connections_ext a b :
  length (nodes a) = length (nodes b) ->
  (forall o, fanout a o = fanout b o) ->
  connections a = connections b.
Proof.
  only_stated.
  intros Hlen Hfan. unfold connections. rewrite Hlen.
  apply flat_map_ext. intros n. apply flat_map_ext. intros j. now rewrite Hfan.
Qed.

Lemma connections_updateNode n f w :
  (forall node j, nodes w !! n = Some node -> outFanout (f node) j = outFanout node j) ->
  connections (updateNode n f w) = connections w.
Proof.
  only_stated.
  intros Hf. apply connections_ext; [simpl; apply length_alter|].
  intros o. rewrite fanout_updateNode. destruct (decide (n = fst o)) as [->|]; [|reflexivity].
  unfold fanout. destruct (nodes w !! fst o) eqn:Hnode; [|reflexivity]. now apply Hf.
Qed.

Lemma fanout_removeConnection o i w o' :
  fanout (removeConnection o i w) o'
  = if decide (o' = o)
    then List.filter (fun x => negb (PortRef_eqb x i)) (fanout w o)
    else fanout w o'.
Proof.
  only_stated.
  unfold removeConnection. rewrite fanout_updateInput.
  unfold updateOutput. rewrite fanout_updateNode.
  destruct o as [n j], o' as [n' j']. simpl.
  destruct (decide (n = n')) as [<-|Hn].
  - unfold fanout. simpl. destruct (nodes w !! n) as [node|].
    + rewrite outFanout_alter. destruct (decide (j = j')) as [<-|Hj].
      * destruct (decide ((n, j) = (n, j))); [|congruence].
        unfold outFanout. now destruct (output node j).
      * destruct (decide ((n, j') = (n, j))); [congruence | reflexivity].
    + now destruct (decide ((n, j') = (n, j))).
  - destruct (decide ((n', j') = (n, j))); [congruence | reflexivity].
Qed.

Lemma filter_flat_map {A B : Type} (p : B -> bool) (f : A -> list B) (l : list A) :
  List.filter p (flat_map f l) = flat_map (fun x => List.filter p (f x)) l.
Proof.
  only_stated.
  induction l as [|x l IH]; simpl; [reflexivity|]. now rewrite List.filter_app, IH.
Qed.

Lemma filter_map_pair {A B : Type} (p : A * B -> bool) (a : A) (l : list B) :
  List.filter p (map (pair a) l) = map (pair a) (List.filter (fun x => p (a, x)) l).
Proof.
  only_stated.
  induction l as [|x l IH]; simpl; [reflexivity|].
  destruct (p (a, x)); simpl; now rewrite IH.
Qed.

Lemma filter_true {A : Type} (p : A -> bool) (l : list A) :
  (forall x, p x = true) -> List.filter p l = l.
Proof.
  only_stated.
  intros Hp. induction l as [|x l IH]; simpl; [reflexivity|]. now rewrite Hp, IH.
Qed.

(** Taking a connection out takes it, and nothing else, off the list of
    connections. *)
Lemma connections_removeConnection o i w :
  connections (removeConnection o i w)
  = List.filter (fun c => negb (PortRef_eqb (fst c) o && PortRef_eqb (snd c) i))
      (connections w).
Proof.
  only_stated.
  unfold connections at 2. rewrite filter_flat_map.
  unfold connections.
  replace (length (nodes (removeConnection o i w))) with (length (nodes w))
    by (unfold removeConnection, updateInput, updateOutput; simpl;
        now rewrite !length_alter).
  apply flat_map_ext. intros n. rewrite filter_flat_map.
  apply flat_map_ext. intros j. rewrite filter_map_pair. f_equal. simpl.
  rewrite fanout_removeConnection.
  destruct (decide ((n, j) = o)) as [<-|Hne].
  - apply List.filter_ext. intros x.
    assert (H : PortRef_eqb (n, j) (n, j) = true) by now apply PortRef_eqb_eq.
    now rewrite H.
  - symmetry. apply filter_true. intros x.
    destruct (PortRef_eqb (n, j) o) eqn:H; [|reflexivity].
    apply PortRef_eqb_eq in H. contradiction.
Qed.

Lemma length_filter_filter {A : Type} (p q : A -> bool) (l : list A) :
  length (List.filter p (List.filter q l)) <= length (List.filter p l)
  /\ ((exists x, In x l /\ p x = true /\ q x = false) ->
      length (List.filter p (List.filter q l)) < length (List.filter p l)).
Proof.
  only_stated.
  induction l as [|y l [IHle IHlt]]; simpl.
  - split; [lia|]. intros (x & [] & _).
  - destruct (q y) eqn:Hq, (p y) eqn:Hp; simpl; rewrite ?Hp; simpl.
    + split; [lia|]. intros (x & [->|Hx] & Hpx & Hqx); [congruence|].
      apply -> Nat.succ_lt_mono. apply IHlt. eauto.
    + split; [lia|]. intros (x & [->|Hx] & Hpx & Hqx); [congruence|].
      apply IHlt. eauto.
    + split; lia.
    + split; [lia|]. intros (x & [->|Hx] & Hpx & Hqx); [congruence|].
      apply IHlt. eauto.
Qed.

Lemma incoming_removeConnection o i w m :
  incoming (removeConnection o i w) m <= incoming w m
  /\ (In i (fanout w o) -> m = fst i ->
      incoming (removeConnection o i w) m < incoming w m).
Proof.
  only_stated.
  unfold incoming. rewrite connections_removeConnection.
  destruct (length_filter_filter
              (fun c : (nat * nat) * (nat * nat) => (fst (snd c) =? m)%nat)
              (fun c => negb (PortRef_eqb (fst c) o && PortRef_eqb (snd c) i))
              (connections w)) as [Hle Hlt].
  split; [exact Hle|]. intros Hin ->. apply Hlt. exists (o, i).
  split; [now apply connections_spec|]. simpl. split; [apply Nat.eqb_refl|].
  assert (Ho : PortRef_eqb o o = true) by now apply PortRef_eqb_eq.
  assert (Hi : PortRef_eqb i i = true) by now apply PortRef_eqb_eq.
  now rewrite Ho, Hi.
Qed.

(** The counters of a node after one of its ports, or nothing of it, has
    been changed. *)
Lemma lookup_updateNode n f w m node' :
  nodes (updateNode n f w) !! m = Some node' ->
  exists node, nodes w !! m = Some node /\ (node' = node \/ node' = f node).
Proof.
  only_stated.
  simpl. rewrite list_lookup_alter. destruct (decide (n = m)) as [->|].
  - destruct (nodes w !! m) as [node|]; simpl; [|discriminate]. intros [= <-]. eauto.
  - eauto.
Qed.

Lemma accounted_updateNode debtor n f w :
  (forall node, nodes w !! n = Some node ->
     m_normalRefCount (f node) = m_normalRefCount node
     /\ m_connectionRefCount (f node) = m_connectionRefCount node
     /\ forall j, outFanout (f node) j = outFanout node j) ->
  accounted debtor w -> accounted debtor (updateNode n f w).
Proof.
  only_stated.
  intros Hf [Hcounts Hclosed].
  assert (Hconn : connections (updateNode n f w) = connections w).
  { apply connections_updateNode. intros node j Hnode. now apply Hf. }
  split.
  - intros m node' Hnode'. unfold incoming. rewrite Hconn.
    simpl in Hnode'. rewrite list_lookup_alter in Hnode'.
    destruct (decide (n = m)) as [->|]; [|now apply Hcounts].
    destruct (nodes w !! m) as [node|] eqn:Hnode; [|discriminate].
    injection Hnode' as <-. destruct (Hf node eq_refl) as (Hn & Hc & _).
    destruct (Hcounts m node Hnode) as [Hnat Hacc].
    unfold countsAreNatural, incoming in *. rewrite Hn, Hc. auto.
  - intros o i. rewrite Hconn. simpl. rewrite length_alter. apply Hclosed.
Qed.

Lemma accounted_removeConnection o i w :
  accounted None w -> In i (fanout w o) ->
  accounted (Some (fst i)) (removeConnection o i w).
Proof.
  only_stated.
  intros [Hcounts Hclosed] Hin.
  assert (Hlen : length (nodes (removeConnection o i w)) = length (nodes w))
    by (unfold removeConnection, updateInput, updateOutput; simpl;
        now rewrite !length_alter).
  split.
  - intros m node' Hnode'.
    assert (Hsame : exists node, nodes w !! m = Some node
                      /\ m_normalRefCount node' = m_normalRefCount node
                      /\ m_connectionRefCount node' = m_connectionRefCount node).
    { unfold removeConnection, updateInput in Hnode'.
      apply lookup_updateNode in Hnode' as (node1 & Hnode1 & H1).
      unfold updateOutput in Hnode1.
      apply lookup_updateNode in Hnode1 as (node & Hnode & H0).
      exists node. split; [exact Hnode|].
      destruct H1 as [->| ->], H0 as [->| ->]; split; reflexivity. }
    destruct Hsame as (node & Hnode & Hn & Hc).
    destruct (Hcounts m node Hnode) as [Hnat Hacc].
    destruct (decide (None = Some m)) as [|_]; [discriminate|].
    split; [unfold countsAreNatural in *; now rewrite Hn, Hc|].
    rewrite Hc. destruct (incoming_removeConnection o i w m) as [Hle Hlt].
    destruct (decide (Some (fst i) = Some m)) as [Heq|_]; [|lia].
    injection Heq as <-. specialize (Hlt Hin eq_refl). lia.
  - intros o' i'. rewrite connections_removeConnection, filter_In, Hlen.
    intros [H _]. now apply Hclosed in H.
Qed.

Lemma disableOutputsIfNecessary_safely (Q : Graph -> Prop) this w node :
  getNode w this = Ok node ->
  Q w ->
  Q (setNode this (mapOutputs AudioNodeOutput_disable (set_m_isDisabled true node)) w) ->
  safely Q (disableOutputsIfNecessary this w).
Proof.
  only_stated.
  intros Hnode Hw Hdisabled. unfold disableOutputsIfNecessary. rewrite Hnode. simpl.
  destruct (_ && _); [|exact Hw]. destruct (negb _); [|exact Hw].
  rewrite (forEachOutput_onOutput _ _ _ (set_m_isDisabled true node))
    by (now apply getNode_updateNode_eq).
  now rewrite setNode_updateNode.
Qed.

(** A [deref] that is accounted for goes well and leaves counters that
    account for the connections that are left. *)
Lemma deref_safely fuel :
  forall refType this w node,
    getNode w this = Ok node ->
    accounted (debtorOf refType this) w ->
    (refType = RefTypeNormal -> (0 < m_normalRefCount node)%Z) ->
    safely (fun w' => accounted None w' /\ length (nodes w') = length (nodes w))
      (deref fuel refType this w).
Proof.
  only_stated.
  induction fuel as [|fuel IH]; intros refType this w node Hnode Hacc Hnormal; [exact I|].
  simpl. rewrite Hnode. simpl.
  pose proof Hnode as Hlookup. apply getNode_Ok in Hlookup.
  destruct (proj1 Hacc this node Hlookup) as [[Hn Hc] Hdebt].
  assert (Hdec : exists node1,
            decrementRefCount refType node = Ok node1
            /\ (0 <= m_normalRefCount node1 <= INT_MAX)%Z
            /\ (0 <= m_connectionRefCount node1 <= INT_MAX)%Z
            /\ (Z.of_nat (incoming w this) <= m_connectionRefCount node1)%Z
            /\ m_isMarkedForDeletion node1 = m_isMarkedForDeletion node
            /\ forall j, outFanout node1 j = outFanout node j).
  { unfold decrementRefCount, ASSERT, atomicDecrement. destruct refType; simpl in Hdebt.
    - specialize (Hnormal eq_refl).
      assert (Hpos : (0 <? m_normalRefCount node)%Z = true) by (apply Z.ltb_lt; lia).
      rewrite Hpos, andb_false_r. simpl. eexists. split; [reflexivity|]. simpl.
      rewrite wrap32_int by (unfold INT_MAX in *; lia).
      destruct (decide (None = Some this)); [discriminate|].
      repeat split; try lia; reflexivity.
    - destruct (decide (Some this = Some this)); [|congruence].
      assert (Hpos : (0 <? m_connectionRefCount node)%Z = true) by (apply Z.ltb_lt; lia).
      rewrite Hpos, andb_false_r. simpl. eexists. split; [reflexivity|]. simpl.
      rewrite wrap32_int by (unfold INT_MAX in *; lia).
      repeat split; try lia; reflexivity. }
  destruct Hdec as (node1 & -> & Hn1 & Hc1 & Hin1 & Hmark1 & Hfan1). simpl.
  set (w1 := setNode this node1 w).
  set (Q := fun s : Graph => accounted None s /\ length (nodes s) = length (nodes w)).
  assert (Hconn1 : connections w1 = connections w).
  { apply connections_updateNode. intros node0 j Hnode0.
    replace node0 with node by congruence. apply Hfan1. }
  assert (Hw1 : Q w1).
  { split; [|simpl; apply length_alter]. split.
    - intros m node' Hnode'. unfold incoming. rewrite Hconn1.
      destruct (decide (None = Some m)); [discriminate|].
      simpl in Hnode'. rewrite list_lookup_alter in Hnode'.
      destruct (decide (this = m)) as [<-|Hne].
      + rewrite Hlookup in Hnode'. injection Hnode' as <-.
        split; [split; assumption|]. unfold incoming in Hin1. lia.
      + destruct (proj1 Hacc m node' Hnode') as [Hnat Hm]. split; [exact Hnat|].
        unfold incoming in Hm.
        destruct (decide (debtorOf refType this = Some m)) as [Heq|_]; [|lia].
        destruct refType; simpl in Heq; congruence.
    - intros o i. rewrite Hconn1. simpl. rewrite length_alter. apply (proj2 Hacc). }
  assert (Hnode1 : getNode w1 this = Ok node1) by (now apply getNode_setNode_eq with node).
  assert (Hkeep : forall s f,
            Q s ->
            (forall nodeS, nodes s !! this = Some nodeS ->
               m_normalRefCount (f nodeS) = m_normalRefCount nodeS
               /\ m_connectionRefCount (f nodeS) = m_connectionRefCount nodeS
               /\ forall j, outFanout (f nodeS) j = outFanout nodeS j) ->
            Q (updateNode this f s)).
  { intros s f [Hs Hlen] Hf. split; [now apply accounted_updateNode|].
    simpl. now rewrite length_alter. }
  destruct (m_connectionRefCount node1 =? 0)%Z; [|exact Hw1].
  destruct (m_normalRefCount node1 =? 0)%Z.
  - destruct (negb (m_isMarkedForDeletion node1)); [|exact Hw1].
    apply safely_bind with Q.
    + unfold forEachOutput. apply (safely_forEach Q); [|exact Hw1].
      intros s j _ Hs.
      assert (HnodeS : exists nodeS, getNode s this = Ok nodeS).
      { destruct (nodes s !! this) as [nodeS|] eqn:E;
          [exists nodeS; now apply getNode_Ok|].
        apply lookup_ge_None in E. apply lookup_lt_Some in Hlookup.
        destruct Hs as [_ Hlen]. lia. }
      destruct HnodeS as (nodeS & HnodeS). rewrite HnodeS. simpl.
      destruct (output nodeS j) as [port|] eqn:Hport; [|exact Hs].
      unfold AudioNodeOutput_disconnectAll.
      assert (Hget : getOutput s (this, j) = Ok port)
        by (unfold getOutput; simpl; rewrite HnodeS; simpl; now rewrite Hport).
      rewrite Hget. simpl.
      apply (safely_forEach Q); [|exact Hs].
      intros s2 i _ [Hs2 Hlen2].
      destruct (isConnectedTo s2 (this, j) i) eqn:Hconnected; [|now split].
      apply isConnectedTo_fanout in Hconnected.
      pose proof (accounted_removeConnection _ _ _ Hs2 Hconnected) as Hs3.
      assert (Hlen3 : length (nodes (removeConnection (this, j) i s2)) = length (nodes s2))
        by (unfold removeConnection, updateInput, updateOutput; simpl;
            now rewrite !length_alter).
      assert (Hpeer : exists peer, getNode (removeConnection (this, j) i s2) (fst i) = Ok peer).
      { destruct (nodes (removeConnection (this, j) i s2) !! fst i) as [peer|] eqn:E;
          [exists peer; now apply getNode_Ok|].
        apply lookup_ge_None in E.
        pose proof (proj2 Hs2 (this, j) i ltac:(now apply connections_spec)). lia. }
      destruct Hpeer as (peer & Hpeer).
      apply safely_impl
        with (fun w' => accounted None w'
                        /\ length (nodes w')
                           = length (nodes (removeConnection (this, j) i s2))).
      * apply IH with peer; [exact Hpeer | exact Hs3 | discriminate].
      * intros w' [Hw' Hlen']. split; [exact Hw' | congruence].
    + intros w2 _ Hw2. apply Hkeep; [exact Hw2|]. intros nodeS _. repeat split.
  - destruct refType; [exact Hw1|].
    apply disableOutputsIfNecessary_safely with node1; [exact Hnode1 | exact Hw1|].
    unfold setNode. apply Hkeep; [exact Hw1|]. intros nodeS HnodeS.
    apply getNode_Ok in Hnode1. replace nodeS with node1 by congruence.
    split; [reflexivity|]. split; [reflexivity|]. intros j.
    now rewrite outFanout_mapOutputs.
Qed.

(** X19.  References that are accounted for are dropped safely.  In a graph
    whose connections end at nodes that exist, and in which every node's
    connection count is at least the number of connections that end at its
    inputs, a [deref] of a reference that is held (a normal reference on a
    positive count, or a connection reference counted on top of the
    connections that are still there) returns: however far the
    disconnections cascade, no [ASSERT] on a counter fails, no counter
    leaves the range of an [int], no null node or port is dereferenced,
    and the counters that are left account for the connections that are
    left. *)
Theorem accounted_references_are_dropped_safely fuel refType this w node :
  getNode w this = Ok node ->
  accounted (debtorOf refType this) w ->
  (refType = RefTypeNormal -> (0 < m_normalRefCount node)%Z) ->
  length (connections w) < fuel ->
  exists w',
    deref fuel refType this w = Ok w'
    /\ accounted None w'
    /\ length (nodes w') = length (nodes w)
    /\ Forall countsAreNatural (nodes w').
Proof.
  only_stated.
  intros Hnode Hacc Hnormal Hfuel.
  destruct (safely_Ok _ _ (deref_safely fuel refType this w node Hnode Hacc Hnormal)
              (deref_finishes _ _ _ _ Hfuel)) as (w' & Hrun & Hw' & Hlen).
  exists w'. split; [exact Hrun|]. split; [exact Hw'|]. split; [exact Hlen|].
  apply Forall_lookup_2. intros m nodeM HnodeM. now apply (proj1 Hw' m nodeM).
Qed.

(** *** Silence and time *)

Ltac order_cases :=
  repeat match goal with
         | H : context [(?a ?= ?b)%Z] |- _ => destruct (Z.compare_spec a b); subst
         | |- context [(?a ?= ?b)%Z] => destruct (Z.compare_spec a b); subst
         | H : context [Pos.compare_cont Eq ?a ?b] |- _ =>
             change (Pos.compare_cont Eq a b) with (Pos.compare a b) in *;
             destruct (Pos.compare_spec a b); subst
         | |- context [Pos.compare_cont Eq ?a ?b] =>
             change (Pos.compare_cont Eq a b) with (Pos.compare a b) in *;
             destruct (Pos.compare_spec a b); subst
         end;
  simpl in *; try congruence; try lia.

(** The comparisons of binary64, less-than and at-most, go together as in
    any order; a NaN compares with nothing. *)
Lemma SFltb_SFleb_trans a x y :
  SFltb a x = true -> SFleb x y = true -> SFltb a y = true.
Proof.
  only_stated.
  unfold SFltb, SFleb.
  destruct a as [sa|sa| |sa ma ea], x as [sx|sx| |sx mx ex], y as [sy|sy| |sy my ey];
    simpl; try discriminate;
    repeat match goal with s : bool |- _ => destruct s end; simpl; try discriminate;
    try reflexivity; intros H1 H2; order_cases.
Qed.

Lemma SFleb_SFltb a x : SFleb x a = true -> SFltb a x = false.
Proof.
  only_stated.
  unfold SFltb, SFleb.
  destruct a as [sa|sa| |sa ma ea], x as [sx|sx| |sx mx ex];
    simpl; try discriminate; try reflexivity;
    repeat match goal with s : bool |- _ => destruct s end; simpl; try discriminate;
    try reflexivity; intros H1; order_cases.
Qed.

Lemma propagatesSilence_later node now later :
  propagatesSilence node now = true ->
  PrimFloat.leb now later = true ->
  propagatesSilence node later = true.
Proof.
  only_stated.
  unfold propagatesSilence. rewrite !ltb_spec, leb_spec. apply SFltb_SFleb_trans.
Qed.

Lemma propagatesSilence_tail node now :
  PrimFloat.leb now
    (PrimFloat.add (PrimFloat.add (m_lastNonSilentTime node) (latencyTime node))
       (tailTime node)) = true ->
  propagatesSilence node now = false.
Proof.
  only_stated.
  unfold propagatesSilence. rewrite ltb_spec, leb_spec. apply SFleb_SFltb.
Qed.

(** X20.  Silence lasts while the inputs stay silent.  A node that is
    silenced in one quantum, its inputs silent and its tail over, is
    silenced again in any quantum that is not earlier, as long as its inputs
    are silent: the silent branch leaves [m_lastNonSilentTime] and the
    inputs alone, and the comparison with the time is monotone.  The
    processing step runs in neither quantum. *)
Theorem silence_lasts_while_the_inputs_stay_silent
    ac ac' framesToProcess framesToProcess' this w node :
  getNode w this = Ok node ->
  inputsAreSilent node = true ->
  propagatesSilence node (currentTime ac) = true ->
  PrimFloat.leb (currentTime ac) (currentTime ac') = true ->
  exists w1 w2 node2,
    renderQuantum ac framesToProcess this w = Ok w1
    /\ processCalls w1 = processCalls w
    /\ renderQuantum ac' framesToProcess' this w1 = Ok w2
    /\ processCalls w2 = processCalls w
    /\ getNode w2 this = Ok node2
    /\ m_lastNonSilentTime node2 = m_lastNonSilentTime node
    /\ forall i port, output node2 i = Some port -> out_busIsSilent port = true.
Proof.
  only_stated.
  intros Hnode Hsilent Hquiet Hlater.
  pose proof (propagatesSilence_later _ _ _ Hquiet Hlater) as Hquiet'.
  set (node1 := mapOutputs AudioBus_zero node).
  assert (H1 : renderQuantum ac framesToProcess this w = Ok (setNode this node1 w)).
  { rewrite (renderQuantum_spec _ _ _ _ _ Hnode). cbv zeta.
    now rewrite Hsilent, Hquiet. }
  assert (Hnode1 : getNode (setNode this node1 w) this = Ok node1)
    by (now apply getNode_setNode_eq with node).
  assert (H2 : renderQuantum ac' framesToProcess' this (setNode this node1 w)
               = Ok (setNode this (mapOutputs AudioBus_zero node1) w)).
  { rewrite (renderQuantum_spec _ _ _ _ _ Hnode1). cbv zeta.
    change (inputsAreSilent node1) with (inputsAreSilent node).
    change (propagatesSilence node1 (currentTime ac'))
      with (propagatesSilence node (currentTime ac')).
    rewrite Hsilent, Hquiet'. simpl. now rewrite setNode_setNode. }
  exists (setNode this node1 w), (setNode this (mapOutputs AudioBus_zero node1) w),
    (mapOutputs AudioBus_zero node1).
  split; [exact H1|]. split; [reflexivity|]. split; [exact H2|].
  split; [reflexivity|]. split; [now apply getNode_setNode_eq with node|].
  split; [reflexivity|].
  intros i port. rewrite output_mapOutputs.
  destruct (output node1 i); simpl; intros H; inversion H. reflexivity.
Qed.

(** X21.  The tail is honoured.  Up to and including the time
    [m_lastNonSilentTime + latencyTime() + tailTime()] a node is not
    silenced, whether its inputs are silent or not: its processing step
    runs and its outputs are marked not silent. *)
Theorem processing_goes_on_through_the_tail ac framesToProcess this w node :
  getNode w this = Ok node ->
  PrimFloat.leb (currentTime ac)
    (PrimFloat.add (PrimFloat.add (m_lastNonSilentTime node) (latencyTime node))
       (tailTime node)) = true ->
  exists w' node',
    renderQuantum ac framesToProcess this w = Ok w'
    /\ processCalls w' = processCalls w ++ [this]
    /\ getNode w' this = Ok node'
    /\ forall i port, output node' i = Some port -> out_busIsSilent port = false.
Proof.
  only_stated.
  intros Hnode Htail.
  rewrite (renderQuantum_spec _ _ _ _ _ Hnode). cbv zeta.
  rewrite (propagatesSilence_tail _ _ Htail), andb_false_r.
  eexists. eexists. split; [reflexivity|]. split; [reflexivity|].
  split; [apply getNode_setNode_eq with node; exact Hnode|].
  intros i port. rewrite output_mapOutputs.
  destruct (output _ i); simpl; intros H; inversion H. reflexivity.
Qed.

(** *** The internal bus of an input *)

Lemma inputPointer_input this node i :
  i < AUDIONODE_MAXINPUTS ->
  inputPointer this node i
  = match input node i with Some _ => Some (this, i) | None => None end.
Proof.
  only_stated.
  intros Hi. unfold inputPointer, input. apply Nat.ltb_lt in Hi. now rewrite Hi.
Qed.

Lemma input_Some_in_range node i port :
  input node i = Some port -> i < AUDIONODE_MAXINPUTS.
Proof.
  only_stated.
  unfold input. destruct (i <? AUDIONODE_MAXINPUTS)%nat eqn:Hi; [|discriminate].
  intros _. now apply Nat.ltb_lt.
Qed.

(** X22.  [checkNumberOfChannelsForInput] updates the internal bus of the
    input it is given when that input is one of the node's own, once; an
    input of another node, or a slot that holds no port, is passed over and
    the graph stays as it is.  A null [input] is taken for the first empty
    slot and then used: the call dereferences null unless every slot of the
    node holds a port. *)
Theorem internal_bus_is_updated_for_an_own_input_only
    (updateInternalBus : AudioNodeInput -> AudioNodeInput) r this w node :
  getNode w this = Ok node ->
  assertionsEnabled = false \/ is_Some r ->
  (forall i port,
     input node i = Some port ->
     checkNumberOfChannelsForInput updateInternalBus r (Some (this, i)) this w
     = Ok (updateInput (this, i) updateInternalBus w))
  /\ (forall p,
        fst p <> this \/ input node (snd p) = None ->
        checkNumberOfChannelsForInput updateInternalBus r (Some p) this w = Ok w)
  /\ ((exists i, i < AUDIONODE_MAXINPUTS /\ input node i = None) ->
      checkNumberOfChannelsForInput updateInternalBus r None this w = NullDereference)
  /\ ((forall i, i < AUDIONODE_MAXINPUTS -> is_Some (input node i)) ->
      checkNumberOfChannelsForInput updateInternalBus r None this w = Ok w).
Proof.
  only_stated.
  intros Hnode Hlock.
  assert (Hassert : ASSERT assertionsEnabled (bool_decide (is_Some r)) = Ok tt).
  { unfold ASSERT. destruct Hlock as [-> | Hr]; [reflexivity|].
    rewrite bool_decide_eq_true_2 by exact Hr. now rewrite andb_false_r. }
  unfold checkNumberOfChannelsForInput. rewrite Hassert, Hnode. simpl.
  split; [|split; [|split]].
  - intros i port Hport.
    pose proof (input_Some_in_range _ _ _ Hport) as Hi.
    destruct (List.find _ _) as [j|] eqn:Hfind.
    + unfold onInput, getInput. simpl. rewrite Hnode. simpl. now rewrite Hport.
    + exfalso. pose proof (List.find_none _ _ Hfind i ltac:(apply in_seq; lia)) as Hnot.
      apply bool_decide_eq_false_1 in Hnot. apply Hnot.
      rewrite inputPointer_input by exact Hi. now rewrite Hport.
  - intros p Hforeign. destruct (List.find _ _) as [j|] eqn:Hfind; [|reflexivity].
    exfalso. apply List.find_some in Hfind as [Hj Hfound].
    apply in_seq in Hj. apply bool_decide_eq_true_1 in Hfound.
    rewrite inputPointer_input in Hfound by lia.
    destruct (input node j) eqn:Hslot; [|discriminate]. injection Hfound as <-.
    simpl in Hforeign. destruct Hforeign as [Hne|Hempty]; [now apply Hne | congruence].
  - intros (i & Hi & Hempty). destruct (List.find _ _) as [j|] eqn:Hfind; [reflexivity|].
    exfalso. pose proof (List.find_none _ _ Hfind i ltac:(apply in_seq; lia)) as Hnot.
    apply bool_decide_eq_false_1 in Hnot. apply Hnot.
    rewrite inputPointer_input by exact Hi. now rewrite Hempty.
  - intros Hfull. destruct (List.find _ _) as [j|] eqn:Hfind; [|reflexivity].
    exfalso. apply List.find_some in Hfind as [Hj Hfound].
    apply in_seq in Hj. apply bool_decide_eq_true_1 in Hfound.
    rewrite inputPointer_input in Hfound by lia.
    destruct (Hfull j ltac:(lia)) as [port Hport]. rewrite Hport in Hfound.
    discriminate.
Qed.

End Engine.

(** *** The engine on concrete graphs *)

Definition maxInputs : nat := 4.
Definition maxOutputs : nat := 2.

Definition node (type : NodeType) (normal connection : Z)
    (ins : list (option AudioNodeInput)) (outs : list (option AudioNodeOutput))
  : AudioNode :=
  {| m_isInitialized := true; m_nodeType := type; m_sampleRate := 44100%float;
     m_lastProcessingTime := (-1)%float; m_lastNonSilentTime := (-1)%float;
     m_normalRefCount := normal; m_connectionRefCount := connection;
     m_isMarkedForDeletion := false; m_isDisabled := false;
     m_inputCount := length ins; m_outputCount := length outs;
     m_inputs := ins; m_outputs := outs; latencyTime := 0%float; tailTime := 0%float |}.

Definition wire (peers : list (nat * nat)) : AudioNodeOutput :=
  {| out_inputs := peers; out_isEnabled := true; out_busIsSilent := false |}.

Definition jack (peers : list (nat * nat)) : AudioNodeInput :=
  {| in_outputs := peers; in_busIsSilent := true |}.

Definition quantum (time : float) (frame : Z) : AudioContext :=
  {| currentTime := time; currentSampleFrame := frame |}.

(** A chain: output 0 of node 0 feeds node 1, whose output 0 feeds node 2.
    Only node 2 is held from outside the graph. *)
Definition chain : Graph :=
  {| nodes := [ node NodeTypeUnknown 0 1 [Some (jack [])] [Some (wire [(1, 0)])];
                node NodeTypeUnknown 0 1 [Some (jack [(0, 0)])] [Some (wire [(2, 0)])];
                node NodeTypeUnknown 1 1 [Some (jack [(1, 0)])] [Some (wire [])] ];
     processCalls := [] |}.

(** A feedback loop of two nodes, the second a delay. *)
Definition feedback : Graph :=
  {| nodes := [ node NodeTypeUnknown 1 1 [Some (jack [(1, 0)])] [Some (wire [(1, 0)])];
                node NodeTypeDelay 1 1 [Some (jack [(0, 0)])] [Some (wire [(0, 0)])] ];
     processCalls := [] |}.

(** An effect with 10 ms of tail behind a source that is not scheduled here
    (it is not initialized): the source's bus is what the example says. *)
Definition effectBehindSource (sourceIsSilent : bool) (effect : AudioNode) : Graph :=
  {| nodes := [ set_m_isInitialized false
                  (node NodeTypeUnknown 1 0 []
                     [Some {| out_inputs := [(1, 0)]; out_isEnabled := true;
                              out_busIsSilent := sourceIsSilent |}]);
                effect ];
     processCalls := [] |}.

Definition effect : AudioNode :=
  {| m_isInitialized := true; m_nodeType := NodeTypeOther 0; m_sampleRate := 44100%float;
     m_lastProcessingTime := (-1)%float; m_lastNonSilentTime := (-1)%float;
     m_normalRefCount := 1; m_connectionRefCount := 1;
     m_isMarkedForDeletion := false; m_isDisabled := false;
     m_inputCount := 1; m_outputCount := 1;
     m_inputs := [Some (jack [(0, 0)])]; m_outputs := [Some (wire [])];
     latencyTime := 0%float; tailTime := 0x1.47ae147ae147bp-7%float |}.

(** The quantum of 128 frames that starts at frame [128 * k], at 44.1 kHz. *)
Definition nthQuantum (k : Z) : AudioContext :=
  quantum (PrimFloat.div (toDouble (128 * k)) 44100%float) (128 * k).

(** The effect after the quantum [k], and whether its processing step ran. *)
Definition renderEffect (sourceIsSilent : bool) (k : Z) (before : AudioNode)
  : option (AudioNode * bool) :=
  match processIfNecessary maxInputs maxOutputs true 2 (Some (nthQuantum k)) 128 1
          (effectBehindSource sourceIsSilent before) with
  | Ok w => match nodes w !! 1 with
            | Some after => Some (after, (length (processCalls w) =? 1)%nat)
            | None => None
            end
  | _ => None
  end.

(** A node on its own: no inputs, one output, one handle. *)
Definition lone : Graph :=
  {| nodes := [ node NodeTypeUnknown 1 0 [] [Some (wire [])] ]; processCalls := [] |}.

(** What an example looks at: per node, the two counters, the two flags and
    the connections of its outputs. *)
Definition lifecycle (r : result Graph)
  : option (list (Z * Z * bool * bool * list (option (list (nat * nat))))) :=
  match r with
  | Ok w =>
      Some (map (fun n => (m_normalRefCount n, m_connectionRefCount n,
                           m_isMarkedForDeletion n, m_isDisabled n,
                           map (fmap out_inputs) (m_outputs n)))
              (nodes w))
  | _ => None
  end.

(** A node as the constructor and one [addInput] and one [addOutput] leave
    it, and a graph of two of them, not connected yet. *)
Definition patched : AudioNode :=
  {| m_isInitialized := false; m_nodeType := NodeTypeUnknown; m_sampleRate := 44100%float;
     m_lastProcessingTime := (-1)%float; m_lastNonSilentTime := (-1)%float;
     m_normalRefCount := 1; m_connectionRefCount := 0;
     m_isMarkedForDeletion := false; m_isDisabled := false;
     m_inputCount := 1; m_outputCount := 1;
     m_inputs := [Some (jack []); None; None; None];
     m_outputs := [Some (wire []); None];
     latencyTime := 0%float; tailTime := 0%float |}.

Definition patchbay : Graph := {| nodes := [patched; patched]; processCalls := [] |}.

(** Dropping the last reference to the head of the chain takes the first two
    nodes out; the third keeps its handle and goes dormant. *)
Example deref_cascades_down_the_chain :
  lifecycle (deref maxOutputs true 3 RefTypeConnection 0 chain)
  = Some [ (0%Z, 0%Z, true, false, [Some []]);
           (0%Z, 0%Z, true, false, [Some []]);
           (1%Z, 0%Z, false, true, [Some []]) ].
Proof. reflexivity. Qed.

(** The feedback loop renders in one pass: node 1 is processed inside the
    pull of node 0 and does not come back to it. *)
Example feedback_loop_renders_once :
  processCalls <$>
    (match processIfNecessary maxInputs maxOutputs true 3 (Some (quantum 0 0)) 128 0 feedback
     with Ok w => Some w | _ => None end)
  = Some [1; 0].
Proof. vm_compute. reflexivity. Qed.

(** Silence hysteresis.  One quantum of signal, then silence: the effect
    keeps computing while its 10 ms tail lasts (quanta 1 to 4 end before
    [128 / 44100 + 0.01] s) and is silenced from quantum 5 on. *)
Example silence_hysteresis :
  (do_option e0 <- renderEffect false 0 effect;
   do_option e1 <- renderEffect true 1 (fst e0);
   do_option e4 <- renderEffect true 4 (fst e1);
   do_option e5 <- renderEffect true 5 (fst e4);
   Some (snd e0, snd e1, snd e4, snd e5,
         out_busIsSilent <$> output maxOutputs (fst e4) 0,
         out_busIsSilent <$> output maxOutputs (fst e5) 0))
  = Some (true, true, true, false, Some false, Some true).
Proof. vm_compute. reflexivity. Qed.





Lemma connection_deref_makes_outputs_dormant_witness :
  lifecycle (deref maxOutputs true 1 RefTypeConnection 2 chain)
  = Some [ (0%Z, 1%Z, false, false, [Some [(1, 0)]]);
           (0%Z, 1%Z, false, false, [Some [(2, 0)]]);
           (1%Z, 0%Z, false, true, [Some []]) ]
  /\ forall i port,
       output maxOutputs
         (mapOutputs maxOutputs AudioNodeOutput_disable
            (set_m_isDisabled true
               (set_m_connectionRefCount 0
                  (node NodeTypeUnknown 1 1 [Some (jack [(1, 0)])] [Some (wire [])])))) i
       = Some port -> out_isEnabled port = false.
Proof.
  destruct (connection_deref_makes_outputs_dormant maxOutputs true 0 2 chain
              (node NodeTypeUnknown 1 1 [Some (jack [(1, 0)])] [Some (wire [])])
              eq_refl eq_refl ltac:(simpl; lia) eq_refl) as [H _].
  destruct (H eq_refl) as (Hrun & _ & _ & Hdormant).
  split; [now rewrite Hrun | exact Hdormant].
Defined.



(** C9 fails at this input: [disconnect] with a null context and a valid
    output index calls through the null pointer, where [connect] with a null
    context reports a syntax error. *)
Lemma disconnect_without_context_is_not_reported :
  forall contextConnect contextDisconnect,
    disconnect contextDisconnect None 0 0 lone = NullDereference
    /\ connect contextConnect None (Some 0) 0 0 0 lone = Ok (lone, Some SYNTAX_ERR)
    /\ disconnect contextDisconnect None 1 0 lone = Ok (lone, Some INDEX_SIZE_ERR).
Proof. intros. repeat split. Qed.


(** The constructor, [addInput] and [addOutput] build [patched]. *)
Example patched_is_built :
  (do n1 <- addInput maxInputs true (jack [])
              (newAudioNode maxInputs maxOutputs 44100 0 0);
   addOutput maxOutputs true (wire []) n1) = Ok patched.
Proof. reflexivity. Qed.

Lemma patchbay_in_order : Forall (portsInOrder maxInputs maxOutputs) (nodes patchbay).
Proof.
  assert (H : portsInOrder maxInputs maxOutputs patched).
  { destruct (addInput_in_order maxInputs maxOutputs true (jack [])
                (newAudioNode maxInputs maxOutputs 44100 0 0) _
                (portsInOrder_new maxInputs maxOutputs 44100 0 0) eq_refl) as [H1 _].
    exact (proj1 (addOutput_in_order maxInputs maxOutputs true (wire []) _ patched
                    H1 eq_refl)). }
  unfold patchbay. simpl.
  constructor; [exact H|]. constructor; [exact H|]. constructor.
Defined.

Lemma connecting_hands_over_ports_that_exist_witness :
  exists outputPort inputPort,
    getOutput maxOutputs patchbay (0, 0) = Ok outputPort
    /\ getInput maxInputs patchbay (1, 0) = Ok inputPort.
Proof.
  destruct (connecting_hands_over_ports_that_exist maxInputs maxOutputs
              (fun _ _ w => w) (fun _ w => w) (fun _ _ w => w) 0 patchbay
              patchbay_in_order) as (Hconnect & _).
  destruct (Hconnect (Some (quantum 0 0)) (Some 1) 0 0 patchbay None eq_refl)
    as (_ & Hports).
  destruct (Hports eq_refl) as (dest & outputPort & inputPort & Hdest & Hout & Hin & _).
  injection Hdest as <-. exists outputPort, inputPort. split; assumption.
Defined.

Lemma deref_undoes_ref_witness :
  exists w1,
    ref maxOutputs RefTypeNormal 0 lone = Ok w1
    /\ lifecycle (Ok w1) = Some [ (2%Z, 0%Z, false, false, [Some []]) ]
    /\ deref maxOutputs true 1 RefTypeNormal 0 w1 = Ok lone.
Proof.
  destruct (deref_undoes_ref maxOutputs true 0 RefTypeNormal 0 lone _ eq_refl)
    as (w1 & node1 & Href & _ & _ & Hderef).
  - unfold INT_MAX. simpl. lia.
  - discriminate.
  - exists w1. split; [exact Href|]. split; [|exact Hderef].
    vm_compute in Href. injection Href as <-. reflexivity.
Defined.

Lemma reconnecting_wakes_a_dormant_node_witness :
  exists w1,
    deref maxOutputs true 1 RefTypeConnection 2 chain = Ok w1
    /\ lifecycle (Ok w1)
       = Some [ (0%Z, 1%Z, false, false, [Some [(1, 0)]]);
                (0%Z, 1%Z, false, false, [Some [(2, 0)]]);
                (1%Z, 0%Z, false, true, [Some []]) ]
    /\ ref maxOutputs RefTypeConnection 2 w1 = Ok chain.
Proof.
  destruct (reconnecting_wakes_a_dormant_node maxOutputs true 0 2 chain _ eq_refl eq_refl)
    as (w1 & asleep & Hderef & _ & _ & _ & _ & Href).
  - simpl. lia.
  - reflexivity.
  - intros i port. destruct i as [|[|i]]; simpl; intros H; inversion H. reflexivity.
  - exists w1. split; [exact Hderef|]. split; [|exact Href].
    vm_compute in Hderef. injection Hderef as <-. reflexivity.
Defined.

Lemma rendering_keeps_the_life_cycle_witness :
  exists w',
    processIfNecessary maxInputs maxOutputs true 3 (Some (quantum 0 0)) 128 0 feedback = Ok w'
    /\ processCalls w' = [1; 0]
    /\ map lifecycleOf (nodes w') = map lifecycleOf (nodes feedback).
Proof.
  destruct (processIfNecessary maxInputs maxOutputs true 3 (Some (quantum 0 0)) 128 0 feedback)
    as [w'| | | |] eqn:Hrun; try (vm_compute in Hrun; discriminate).
  exists w'. split; [reflexivity|]. split.
  - vm_compute in Hrun. injection Hrun as <-. reflexivity.
  - exact (rendering_keeps_the_life_cycle maxInputs maxOutputs true 3 _ 128 0 feedback w' Hrun).
Defined.

Lemma feedback_is_wired : inputsAreWired maxInputs maxOutputs feedback.
Proof.
  intros [n i] port o Hport Ho. unfold getInput, input in Hport.
  destruct n as [|[|n]]; simpl in Hport; try discriminate;
    (destruct i as [|i]; simpl in Hport;
     [|destruct (S i <? maxInputs)%nat; destruct i; discriminate]);
    injection Hport as <-; destruct Ho as [<-|[]]; eexists; reflexivity.
Defined.

Lemma rendering_a_wired_graph_ends_well_witness :
  exists w',
    processIfNecessary maxInputs maxOutputs true 3 (Some (quantum 0 0)) 128 0 feedback = Ok w'
    /\ inputsAreWired maxInputs maxOutputs w'.
Proof.
  destruct (rendering_a_wired_graph_ends_well maxInputs maxOutputs true (quantum 0 0)
              128 3 0 feedback _ eq_refl feedback_is_wired eq_refl)
    as (w' & Hrun & Hwired & _).
  - simpl. lia.
  - exists w'. split; assumption.
Defined.

Lemma chain_is_accounted : accounted maxOutputs (Some 0) chain.
Proof.
  split.
  - intros m node Hnode.
    destruct m as [|[|[|m]]]; simpl in Hnode; try discriminate;
      injection Hnode as <-; (split; [unfold countsAreNatural, INT_MAX; simpl; lia|]);
      vm_compute; discriminate.
  - intros o i H. vm_compute in H.
    destruct H as [H|[H|[]]]; injection H as <- <-; simpl; lia.
Defined.

Lemma accounted_references_are_dropped_safely_witness :
  exists w',
    deref maxOutputs true 3 RefTypeConnection 0 chain = Ok w'
    /\ accounted maxOutputs None w'
    /\ Forall countsAreNatural (nodes w').
Proof.
  destruct (accounted_references_are_dropped_safely maxOutputs true 3 RefTypeConnection
              0 chain _ eq_refl chain_is_accounted)
    as (w' & Hrun & Hacc & _ & Hnat).
  - discriminate.
  - vm_compute. lia.
  - exists w'. split; [exact Hrun|]. split; assumption.
Defined.

Lemma silence_lasts_while_the_inputs_stay_silent_witness :
  exists w1 w2,
    renderQuantum maxInputs maxOutputs (quantum 0 0) 128 0 lone = Ok w1
    /\ renderQuantum maxInputs maxOutputs (quantum 1 44100) 128 0 w1 = Ok w2
    /\ processCalls w2 = [].
Proof.
  destruct (silence_lasts_while_the_inputs_stay_silent maxInputs maxOutputs
              (quantum 0 0) (quantum 1 44100) 128 128 0 lone _
              eq_refl eq_refl eq_refl eq_refl)
    as (w1 & w2 & node2 & H1 & _ & H2 & Hcalls & _).
  exists w1, w2. split; [exact H1|]. split; [exact H2 | exact Hcalls].
Defined.

Lemma processing_goes_on_through_the_tail_witness :
  exists w',
    renderQuantum maxInputs maxOutputs (nthQuantum 3) 128 1
      (effectBehindSource true
         (set_m_lastNonSilentTime (currentTime (nthQuantum 1)) effect)) = Ok w'
    /\ processCalls w' = [1].
Proof.
  destruct (processing_goes_on_through_the_tail maxInputs maxOutputs (nthQuantum 3) 128 1
              (effectBehindSource true
                 (set_m_lastNonSilentTime (currentTime (nthQuantum 1)) effect))
              _ eq_refl eq_refl) as (w' & node' & Hrun & Hcalls & _).
  exists w'. split; [exact Hrun | exact Hcalls].
Defined.

Lemma internal_bus_is_updated_for_an_own_input_only_witness :
  checkNumberOfChannelsForInput maxInputs true (fun port => port) (Some (quantum 0 0))
    (Some (0, 0)) 0 patchbay
  = Ok (updateInput (0, 0) (fun port => port) patchbay)
  /\ checkNumberOfChannelsForInput maxInputs true (fun port => port) (Some (quantum 0 0))
       (Some (1, 0)) 0 patchbay
     = Ok patchbay
  /\ checkNumberOfChannelsForInput maxInputs true (fun port => port) (Some (quantum 0 0))
       None 0 patchbay
     = NullDereference.
Proof.
  destruct (internal_bus_is_updated_for_an_own_input_only maxInputs true
              (fun port => port) (Some (quantum 0 0)) 0 patchbay patched eq_refl)
    as (Hown & Hforeign & Hnull & _).
  - right. eauto.
  - split; [exact (Hown 0 (jack []) eq_refl)|]. split.
    + apply Hforeign. left. discriminate.
    + apply Hnull. exists 1. split; [unfold maxInputs; lia | reflexivity].
Defined.

End AudioNode.
